(** * Syncist: the task-line codec and the reconciliation engine

    A shallow embedding of [task-parser.ts], [types.ts] and [sync-engine.ts]
    (class [SyncEngine]) of the Obsidian/Todoist sync plug-in, followed by the
    properties of the specification that were checked against it.

    Conventions.
    - A JavaScript string is the list of its UTF-16 code units ([list N]);
      [lit] turns an ASCII literal into such a list.
    - [null] is [None]; a JavaScript number that is an index is a [nat],
      any other number is a [Z].
    - A regular expression is embedded as a function that matches it at
      the head of a string (a [matcher]); [search] looks for the leftmost
      match the way [String.prototype.match], [RegExp.prototype.test] and
      [String.prototype.replace] do. *)

From Stdlib Require Import Ascii NArith ZArith List Bool Lia.
From Stdlib Require DecimalString HexadecimalString.
From stdpp Require Import base option list gmap strings.

Local Open Scope N_scope.

(** ** JavaScript strings *)

Definition lit (s : string) : list N :=
  (λ a, N_of_ascii a) <$> String.list_ascii_of_string s.

(** [\s]: the WhiteSpace and LineTerminator code units of ECMAScript. *)
Definition is_space (c : N) : bool :=
  ((9 <=? c) && (c <=? 13)) || (c =? 32) || (c =? 0xA0) || (c =? 0x1680)
  || ((0x2000 <=? c) && (c <=? 0x200A)) || (c =? 0x2028) || (c =? 0x2029)
  || (c =? 0x202F) || (c =? 0x205F) || (c =? 0x3000) || (c =? 0xFEFF).

(** The code units that [.] does not match. *)
Definition is_line_terminator (c : N) : bool :=
  (c =? 10) || (c =? 13) || (c =? 0x2028) || (c =? 0x2029).

(** [\d] *)
Definition is_digit (c : N) : bool := (48 <=? c) && (c <=? 57).

(** [[a-zA-Z0-9_-]] *)
Definition is_tagchar (c : N) : bool :=
  ((97 <=? c) && (c <=? 122)) || ((65 <=? c) && (c <=? 90)) || is_digit c
  || (c =? 95) || (c =? 45).

(** [toLowerCase] on the ASCII letters.  The codec lower-cases the checkbox
    glyph, hashtag names (ASCII by their grammar) and the marker's name; on
    code units outside ASCII this function is the identity, so it agrees
    with JavaScript for every marker made of ASCII characters.  JavaScript
    lower-cases letters outside ASCII as well (the lower case of U+212A is
    [k]); that is not modelled, and a statement about the lower-cased name
    of the marker takes an ASCII marker. *)
Definition lower (c : N) : N := if (65 <=? c) && (c <=? 90) then c + 32 else c.

Definition toLowerCase (s : list N) : list N := lower <$> s.

(** Equality of code units under the [i] flag, for patterns of ASCII
    characters: the canonicalisation of ECMAScript never maps a code unit
    above 127 to one below, so a character of the text matches an ASCII
    character of the pattern exactly when this holds.  A letter outside
    ASCII in the pattern (a marker such as [#Äx], which the engine also finds
    in [#äx]) is compared here as it is, without folding its case. *)
Definition eq_ci (a b : N) : bool := lower a =? lower b.

Fixpoint span (p : N → bool) (s : list N) : list N * list N :=
  match s with
  | c :: s' => if p c then let '(a, b) := span p s' in (c :: a, b) else ([], s)
  | [] => ([], [])
  end.

Definition skip (p : N → bool) (s : list N) : list N := (span p s).2.

(** [String.prototype.trim] *)
Definition trim (s : list N) : list N :=
  rev (skip is_space (rev (skip is_space s))).

(** [s.replace(/\s+/g, ' ')]: every maximal run of white space becomes one
    space; [in_run] tells that the previous code unit was white space. *)
Fixpoint collapse_from (in_run : bool) (s : list N) : list N :=
  match s with
  | [] => []
  | c :: s' =>
      if is_space c
      then (if in_run then [] else [32]) ++ collapse_from true s'
      else c :: collapse_from false s'
  end.

Definition collapse_ws (s : list N) : list N := collapse_from false s.

(** [s.split('\n')] and [lines.join('\n')] *)
Fixpoint split_lines (s : list N) : list (list N) :=
  match s with
  | [] => [[]]
  | c :: s' =>
      if c =? 10 then [] :: split_lines s'
      else match split_lines s' with
           | l :: ls => (c :: l) :: ls
           | [] => [[c]]
           end
  end.

Fixpoint join_lines (ls : list (list N)) : list N :=
  match ls with
  | [] => []
  | [l] => l
  | l :: ls' => l ++ 10 :: join_lines ls'
  end.

(** A string is truthy when it is neither [null] nor empty. *)
Definition truthy (o : option (list N)) : bool :=
  match o with Some (_ :: _) => true | _ => false end.

(** ** Regular expressions *)

(** A matcher returns what it captured and the rest of the string after the
    match.  Every quantifier of the plug-in's expressions is followed by an
    atom that its character class excludes, so the greedy match is the only
    one and no backtracking is modelled. *)
Definition matcher (A : Type) : Type := list N → option (A * list N).

(** The leftmost match: the text before it, the capture, the text after. *)
Fixpoint search {A} (m : matcher A) (s : list N) : option (list N * A * list N) :=
  match m s with
  | Some (a, rest) => Some ([], a, rest)
  | None =>
      match s with
      | [] => None
      | c :: s' =>
          match search m s' with
          | Some (pre, a, post) => Some (c :: pre, a, post)
          | None => None
          end
      end
  end.

(** [re.test(s)] *)
Definition test {A} (m : matcher A) (s : list N) : bool :=
  match search m s with Some _ => true | None => false end.

(** [s.match(re)[1]] for an expression with one group *)
Definition capture {A} (m : matcher A) (s : list N) : option A :=
  match search m s with Some (_, a, _) => Some a | None => None end.

(** [s.replace(re, repl)] for an expression without the [g] flag *)
Definition replace_first {A} (m : matcher A) (repl s : list N) : list N :=
  match search m s with
  | Some (pre, _, post) => pre ++ repl ++ post
  | None => s
  end.

(** [s.replace(re, repl)] with the [g] flag.  A match is never empty here,
    so the text after it is shorter and [length s] rounds are enough. *)
Fixpoint replace_all_fuel {A} (fuel : nat) (m : matcher A) (repl s : list N) : list N :=
  match fuel with
  | O => s
  | S fuel' =>
      match search m s with
      | Some (pre, _, post) => pre ++ repl ++ replace_all_fuel fuel' m repl post
      | None => s
      end
  end.

Definition replace_all {A} (m : matcher A) (repl s : list N) : list N :=
  replace_all_fuel (S (length s)) m repl s.

(** The captures of the successive [re.exec(s)] calls of a [g] expression,
    until [exec] answers [null]. *)
Fixpoint exec_all_fuel {A} (fuel : nat) (m : matcher A) (s : list N) : list A :=
  match fuel with
  | O => []
  | S fuel' =>
      match search m s with
      | Some (_, a, post) => a :: exec_all_fuel fuel' m post
      | None => []
      end
  end.

Definition exec_all {A} (m : matcher A) (s : list N) : list A :=
  exec_all_fuel (S (length s)) m s.

(** A literal, compared with [eqc]. *)
Fixpoint strip_with (eqc : N → N → bool) (l s : list N) : option (list N) :=
  match l with
  | [] => Some s
  | a :: l' =>
      match s with
      | b :: s' => if eqc a b then strip_with eqc l' s' else None
      | [] => None
      end
  end.

Definition strip (l s : list N) : option (list N) := strip_with N.eqb l s.

(** [p{n}]: exactly [n] code units of class [p]. *)
Fixpoint take_class (p : N → bool) (n : nat) (s : list N) : option (list N * list N) :=
  match n with
  | O => Some ([], s)
  | S n' =>
      match s with
      | c :: s' =>
          if p c
          then match take_class p n' s' with
               | Some (a, b) => Some (c :: a, b)
               | None => None
               end
          else None
      | [] => None
      end
  end.

(** [p+] *)
Definition some_class (p : N → bool) (s : list N) : option (list N * list N) :=
  match span p s with
  | ([], _) => None
  | (a, b) => Some (a, b)
  end.

Definition match_lit (l : list N) : matcher unit :=
  λ s, match strip l s with Some rest => Some ((), rest) | None => None end.

(** [(\d{4}-\d{2}-\d{2})] *)
Definition match_date : matcher (list N) :=
  λ s,
    '(y, s1) ← take_class is_digit 4 s;
    s2 ← strip (lit "-") s1;
    '(m, s3) ← take_class is_digit 2 s2;
    s4 ← strip (lit "-") s3;
    '(d, s5) ← take_class is_digit 2 s4;
    Some (y ++ lit "-" ++ m ++ lit "-" ++ d, s5).

(** [/glyph\s* (\d{4}-\d{2}-\d{2})/] *)
Definition match_glyph_date (glyph : list N) : matcher (list N) :=
  λ s, s1 ← strip glyph s; match_date (skip is_space s1).

(** ** [task-parser.ts] *)

(** The glyphs of [PATTERNS], as the code units of the characters that
    stand between the slashes in the source file. *)
Definition glyph_dueDate : list N := [0xF8FF; 0xFC; 0xEC; 0xD6].
Definition glyph_scheduledDate : list N := [0x201A; 0xE8; 0x2265].
Definition glyph_startDate : list N := [0xF8FF; 0xFC; 0xF5; 0xB4].
Definition glyph_doneDate : list N := [0x201A; 0xFA; 0xD6].
Definition glyph_highPriority : list N := [0x201A; 0xE8; 0xB4].
Definition glyph_mediumPriority : list N := [0xF8FF; 0xFC; 0xEE; 0xBA].
Definition glyph_lowPriority : list N := [0xF8FF; 0xFC; 0xEE; 0x3A9].

(** [enum TodoistPriority] *)
Definition NONE : Z := 1.
Definition LOW : Z := 2.
Definition MEDIUM : Z := 3.
Definition HIGH : Z := 4.

(** [interface ParsedObsidianTask] *)
Record ParsedObsidianTask := {
  originalLine : list N;
  lineNumber : nat;
  filePath : list N;
  content : list N;
  isCompleted : bool;
  todoistId : option (list N);
  dueDate : option (list N);
  priority : Z;
  labels : list (list N);
  description : list N;
  lastModified : Z
}.

Definition is_bullet (c : N) : bool := (c =? 45) || (c =? 42).
Definition is_checkbox (c : N) : bool := (c =? 32) || (c =? 120) || (c =? 88).

(** [PATTERNS.task]: [/^(\s* )[-*]\s+\[([ xX])\]\s+(.* )$/] (quoted with a
    blank after each star that a parenthesis follows), anchored at both
    ends; the three groups are the indentation, the checkbox glyph and the
    task content.  The last group and [$] succeed exactly when no line
    terminator is left after the white space that follows the checkbox. *)
Definition match_task (line : list N) : option (list N * N * list N) :=
  let '(indent, s1) := span is_space line in
  match s1 with
  | b :: s2 =>
      if is_bullet b then
        '(_, s3) ← some_class is_space s2;
        match s3 with
        | 91 :: cb :: 93 :: s4 =>
            if is_checkbox cb then
              '(_, s5) ← some_class is_space s4;
              if forallb (λ c, negb (is_line_terminator c)) s5
              then Some (indent, cb, s5) else None
            else None
        | _ => None
        end
      else None
  | [] => None
  end.

(** [PATTERNS.todoistId]: [/<!--\s* todoist-id:\s* (\d+)\s* -->/] *)
Definition match_todoistId : matcher (list N) :=
  λ s,
    s1 ← strip (lit "<!--") s;
    s2 ← strip (lit "todoist-id:") (skip is_space s1);
    '(ds, s3) ← some_class is_digit (skip is_space s2);
    s4 ← strip (lit "-->") (skip is_space s3);
    Some (ds, s4).

(** [PATTERNS.hashtag]: [/#([a-zA-Z0-9_-]+)/g] *)
Definition match_hashtag : matcher (list N) :=
  λ s, s1 ← strip (lit "#") s; some_class is_tagchar s1.

Definition match_dueDate : matcher (list N) := match_glyph_date glyph_dueDate.
Definition match_scheduledDate : matcher (list N) := match_glyph_date glyph_scheduledDate.
Definition match_startDate : matcher (list N) := match_glyph_date glyph_startDate.
Definition match_doneDate : matcher (list N) := match_glyph_date glyph_doneDate.
Definition match_highPriority : matcher unit := match_lit glyph_highPriority.
Definition match_mediumPriority : matcher unit := match_lit glyph_mediumPriority.
Definition match_lowPriority : matcher unit := match_lit glyph_lowPriority.

(** [PATTERNS.textDueDate]: [/due:(\d{4}-\d{2}-\d{2})/i] *)
Definition match_textDueDate : matcher (list N) :=
  λ s, s1 ← strip_with eq_ci (lit "due:") s; match_date s1.

(** [new RegExp(escapeRegex(syncTag), 'i')]: [escapeRegex] puts a backslash
    before every character that is special in an expression, so the
    expression built from its result matches the characters of [syncTag]
    themselves, whatever their case. *)
Definition match_syncTag (syncTag : list N) : matcher unit :=
  λ s, match strip_with eq_ci syncTag s with Some rest => Some ((), rest) | None => None end.

Definition extractDueDate (content : list N) : option (list N) :=
  match capture match_dueDate content with
  | Some d => Some d
  | None =>
      match capture match_scheduledDate content with
      | Some d => Some d
      | None => capture match_textDueDate content
      end
  end.

Definition extractPriority (content : list N) : Z :=
  if test match_highPriority content then HIGH
  else if test match_mediumPriority content then MEDIUM
  else if test match_lowPriority content then LOW
  else NONE.

(** [syncTag.replace(/^#/, '')] *)
Definition drop_hash (syncTag : list N) : list N :=
  match syncTag with 35 :: name => name | _ => syncTag end.

Definition extractLabels (content syncTag : list N) : list (list N) :=
  let syncTagName := toLowerCase (drop_hash syncTag) in
  filter (λ tag, tag ≠ syncTagName) (toLowerCase <$> exec_all match_hashtag content).

Definition cleanTaskContent (content syncTag : list N) : list N :=
  let cleaned := replace_first match_todoistId [] content in
  let cleaned := replace_all (match_syncTag syncTag) [] cleaned in
  let cleaned := replace_first match_dueDate [] cleaned in
  let cleaned := replace_first match_scheduledDate [] cleaned in
  let cleaned := replace_first match_startDate [] cleaned in
  let cleaned := replace_first match_doneDate [] cleaned in
  let cleaned := replace_first match_highPriority [] cleaned in
  let cleaned := replace_first match_mediumPriority [] cleaned in
  let cleaned := replace_first match_lowPriority [] cleaned in
  let cleaned := replace_first match_textDueDate [] cleaned in
  trim (collapse_ws cleaned).

Definition parseTaskLine (line : list N) (lineNumber : nat) (filePath syncTag : list N)
    (lastModified : Z) : option ParsedObsidianTask :=
  match match_task line with
  | None => None
  | Some (_, checkbox, taskContent) =>
      let isCompleted := lower checkbox =? 120 in
      if negb (test (match_syncTag syncTag) taskContent) then None
      else
        Some {| originalLine := line;
                lineNumber := lineNumber;
                filePath := filePath;
                content := cleanTaskContent taskContent syncTag;
                isCompleted := isCompleted;
                todoistId := capture match_todoistId taskContent;
                dueDate := extractDueDate taskContent;
                priority := extractPriority taskContent;
                labels := extractLabels taskContent syncTag;
                description := [];
                lastModified := lastModified |}
  end.

Definition buildTaskLine (task : ParsedObsidianTask) (syncTag : list N) : list N :=
  let checkbox := if isCompleted task then lit "[x]" else lit "[ ]" in
  let line := lit "- " ++ checkbox ++ lit " " ++ content task in
  let line := line ++ lit " " ++ syncTag in
  let line := foldl (λ line label, line ++ lit " #" ++ label) line (labels task) in
  let line :=
    if (priority task =? HIGH)%Z then line ++ lit " " ++ glyph_highPriority
    else if (priority task =? MEDIUM)%Z then line ++ lit " " ++ glyph_mediumPriority
    else if (priority task =? LOW)%Z then line ++ lit " " ++ glyph_lowPriority
    else line in
  let line :=
    if truthy (dueDate task)
    then line ++ lit " " ++ glyph_dueDate ++ lit " " ++ default [] (dueDate task)
    else line in
  if truthy (todoistId task)
  then line ++ lit " <!-- todoist-id:" ++ default [] (todoistId task) ++ lit " -->"
  else line.

Definition addTodoistIdToLine (line todoistId : list N) : list N :=
  let updated := trim (replace_first match_todoistId [] line) in
  updated ++ lit " <!-- todoist-id:" ++ todoistId ++ lit " -->".

(** [/\[\s\]/] and [/\[[xX]\]/] *)
Definition match_open_box : matcher unit :=
  λ s, match s with
       | 91 :: c :: 93 :: rest => if is_space c then Some ((), rest) else None
       | _ => None
       end.

Definition match_done_box : matcher unit :=
  λ s, match s with
       | 91 :: c :: 93 :: rest =>
           if (c =? 120) || (c =? 88) then Some ((), rest) else None
       | _ => None
       end.

Definition updateTaskCompletion (line : list N) (isCompleted : bool) : list N :=
  if isCompleted then replace_first match_open_box (lit "[x]") line
  else replace_first match_done_box (lit "[ ]") line.

(** [lines[i]] for the description scan: the indentation of a line is the
    length of its leading white space. *)
Definition indent_of (line : list N) : nat := length (span is_space line).1.

Definition nonempty (s : list N) : bool := match s with [] => false | _ => true end.

(** The loop of [extractDescription] over the lines that follow the task. *)
Fixpoint description_lines (taskIndent : nat) (following : list (list N)) : list (list N) :=
  match following with
  | [] => []
  | line :: following' =>
      if nonempty (trim line) && (indent_of line <=? taskIndent)%nat then []
      else if bool_decide (is_Some (match_task line)) then []
      else if nonempty (trim line)
           then trim line :: description_lines taskIndent following'
           else description_lines taskIndent following'
  end.

Definition extractDescription (lines : list (list N)) (taskIndex : nat) : list N :=
  let taskLine := default [] (lines !! taskIndex) in
  join_lines (description_lines (indent_of taskLine) (drop (S taskIndex) lines)).

Definition with_description (task : ParsedObsidianTask) (d : list N) : ParsedObsidianTask :=
  {| originalLine := originalLine task; lineNumber := lineNumber task;
     filePath := filePath task; content := content task;
     isCompleted := isCompleted task; todoistId := todoistId task;
     dueDate := dueDate task; priority := priority task; labels := labels task;
     description := d; lastModified := lastModified task |}.

Definition parseTasksFromContent (fileContent filePath syncTag : list N)
    (lastModified : Z) : list ParsedObsidianTask :=
  let lines := split_lines fileContent in
  omap (λ i,
          line ← lines !! i;
          task ← parseTaskLine line i filePath syncTag lastModified;
          Some (with_description task (extractDescription lines i)))
       (seq 0 (length lines)).

(** Template-literal renderings of a boolean and of an integer. *)
Definition show_bool (b : bool) : list N := if b then lit "true" else lit "false".
Definition show_Z (z : Z) : list N :=
  lit (DecimalString.NilZero.string_of_int (Z.to_int z)).
Definition show_hex (z : Z) : list N :=
  lit (HexadecimalString.NilZero.string_of_int (Z.to_hex_int z)).

(** [labels.join(',')] *)
Fixpoint join_commas (ls : list (list N)) : list N :=
  match ls with
  | [] => []
  | [l] => l
  | l :: ls' => l ++ 44 :: join_commas ls'
  end.

(** ToInt32: what [<<] and [&] do to their operands and result. *)
Definition toInt32 (z : Z) : Z := ((z + 2 ^ 31) mod 2 ^ 32 - 2 ^ 31)%Z.

Definition generateContentHash (task : ParsedObsidianTask) : list N :=
  let data :=
    content task ++ lit "|" ++ show_bool (isCompleted task) ++ lit "|"
    ++ default [] (dueDate task) ++ lit "|" ++ show_Z (priority task) ++ lit "|"
    ++ join_commas (labels task) in
  let hash :=
    foldl (λ hash char,
             toInt32 (toInt32 (toInt32 hash * 32) - hash + Z.of_N char)%Z)
          0%Z data in
  show_hex hash.

(** ** [types.ts] *)

Inductive ConflictResolution := obsidian_wins | todoist_wins | ask_user.

Record TodoistSyncSettings := {
  apiToken : list N;
  syncTag : list N;
  defaultProjectId : list N;
  syncIntervalMinutes : Z;
  conflictResolution : ConflictResolution
}.

Record SyncedTask := {
  st_todoistId : list N;
  st_filePath : list N;
  st_lineNumber : nat;
  contentHash : list N;
  lastSynced : Z;
  obsidianCompleted : bool;
  todoistCompleted : bool
}.

(** [tasks] is the [Record<string, SyncedTask>] object. *)
Record SyncState := {
  tasks : gmap (list N) SyncedTask;
  lastFullSync : Z
}.

Record SyncResult := {
  created : nat;
  updated : nat;
  completed : nat;
  conflicts : nat;
  errors : list (list N)
}.

Record SyncConflict := {
  c_todoistId : list N;
  c_filePath : list N;
  c_lineNumber : nat;
  obsidianContent : list N;
  todoistContent : list N;
  c_obsidianCompleted : bool;
  c_todoistCompleted : bool
}.

(** The fields of the Todoist client's [Task] that the engine reads;
    [task_due] is [task.due.date], [None] when [task.due] is absent. *)
Record Task := {
  task_id : list N;
  task_content : list N;
  task_isCompleted : bool;
  task_priority : Z;
  task_due : option (list N)
}.

Record TaskOptions := {
  opt_projectId : option (list N);
  opt_priority : Z;
  opt_dueDate : option (list N);
  opt_labels : list (list N);
  opt_description : list N
}.

(** The [updates] argument of [TodoistService.updateTask]. *)
Record TaskUpdates := {
  upd_content : list N;
  upd_priority : Z;
  upd_dueString : option (list N);
  upd_labels : list (list N)
}.

(** Obsidian's [TFile]: [file.path] and [file.stat.mtime]. *)
Record TFile := { path : list N; mtime : Z }.

(** ** The engine's mutable fields *)

Record SyncEngine := {
  settings : TodoistSyncSettings;
  syncState : SyncState;
  isSyncing : bool;
  pendingConflicts : list SyncConflict
}.

Definition set_isSyncing (b : bool) (e : SyncEngine) : SyncEngine :=
  {| settings := settings e; syncState := syncState e; isSyncing := b;
     pendingConflicts := pendingConflicts e |}.

Definition set_tasks (f : gmap (list N) SyncedTask → gmap (list N) SyncedTask)
    (e : SyncEngine) : SyncEngine :=
  {| settings := settings e;
     syncState := {| tasks := f (tasks (syncState e));
                     lastFullSync := lastFullSync (syncState e) |};
     isSyncing := isSyncing e; pendingConflicts := pendingConflicts e |}.

Definition set_lastFullSync (t : Z) (e : SyncEngine) : SyncEngine :=
  {| settings := settings e;
     syncState := {| tasks := tasks (syncState e); lastFullSync := t |};
     isSyncing := isSyncing e; pendingConflicts := pendingConflicts e |}.

Definition push_conflict (c : SyncConflict) (e : SyncEngine) : SyncEngine :=
  {| settings := settings e; syncState := syncState e; isSyncing := isSyncing e;
     pendingConflicts := pendingConflicts e ++ [c] |}.

(** ** Programs that talk to the host

    The engine calls the Todoist gateway ([TodoistService]) and Obsidian's
    vault.  A call either returns or throws; a thrown value is kept as the
    text that a template literal renders for it. *)

Inductive jsresult (A : Type) : Type :=
| Returned (a : A)
| Thrown (error : list N).
Arguments Returned {A} a.
Arguments Thrown {A} error.

Inductive call : Type → Type :=
| isInitialized : call bool
| getTasks : call (jsresult (list Task))
| createTask (content : list N) (options : TaskOptions) : call (jsresult Task)
| updateTask (taskId : list N) (updates : TaskUpdates) : call (jsresult Task)
| completeTask (taskId : list N) : call (jsresult bool)
| reopenTask (taskId : list N) : call (jsresult bool)
| getMarkdownFiles : call (jsresult (list TFile))
| getAbstractFileByPath (p : list N) : call (option TFile)
| vault_read (file : TFile) : call (jsresult (list N))
| vault_modify (file : TFile) (data : list N) : call (jsresult unit)
| Date_now : call Z.

(** The calls the engine awaits: the promise-returning ones.  The engine
    runs without interruption between two of them. *)
Definition awaited {X} (c : call X) : bool :=
  match c with
  | isInitialized | getMarkdownFiles | getAbstractFileByPath _ | Date_now => false
  | _ => true
  end.

(** A method of the engine: it reads and writes the engine's fields and
    calls the host. *)
Inductive prog (A : Type) : Type :=
| Ret (a : A)
| Get (k : SyncEngine → prog A)
| Put (e : SyncEngine) (k : prog A)
| Call {X : Type} (c : call X) (k : X → prog A).
Arguments Ret {A} a.
Arguments Get {A} k.
Arguments Put {A} e k.
Arguments Call {A X} c k.

Fixpoint bind {A B} (p : prog A) (f : A → prog B) : prog B :=
  match p with
  | Ret a => f a
  | Get k => Get (λ e, bind (k e) f)
  | Put e k => Put e (bind k f)
  | Call c k => Call c (λ x, bind (k x) f)
  end.

#[global] Instance prog_ret : MRet prog := @Ret.
#[global] Instance prog_bind : MBind prog := λ A B f p, bind p f.

Definition get : prog SyncEngine := Get Ret.
Definition modify (f : SyncEngine → SyncEngine) : prog unit :=
  Get (λ e, Put (f e) (Ret ())).
Definition perform {X} (c : call X) : prog X := Call c Ret.

(** Sequencing of statements that may throw, and [try]/[catch]. *)
Definition andThen {A B} (p : prog (jsresult A)) (f : A → prog (jsresult B))
    : prog (jsresult B) :=
  r ← p; match r with Returned a => f a | Thrown error => Ret (Thrown error) end.

Definition tryCatch {A} (p : prog (jsresult A)) (handler : list N → prog A) : prog A :=
  r ← p; match r with Returned a => Ret a | Thrown error => handler error end.

Definition throw {A} (error : list N) : prog (jsresult A) := Ret (Thrown error).
Definition ok {A} (p : prog A) : prog (jsresult A) := a ← p; Ret (Returned a).

Notation "x ⇐ p ; q" := (andThen p (λ x, q))
  (at level 20, p at level 100, q at level 200, only parsing).

(** [for (const a of l) body]: the loop's mutable locals are threaded as [s]. *)
Fixpoint forEach {A S} (l : list A) (body : A → S → prog S) (s : S) : prog S :=
  match l with
  | [] => Ret s
  | a :: l' => s' ← body a s; forEach l' body s'
  end.

(** JavaScript's [Map<string, V>]: insertion order, and [set] on a key that
    is present keeps the key's place. *)
Fixpoint map_set {V} (k : list N) (v : V) (m : list (list N * V)) : list (list N * V) :=
  match m with
  | [] => [(k, v)]
  | (k', v') :: m' => if decide (k = k') then (k, v) :: m' else (k', v') :: map_set k v m'
  end.

Fixpoint map_get {V} (k : list N) (m : list (list N * V)) : option V :=
  match m with
  | [] => None
  | (k', v) :: m' => if decide (k = k') then Some v else map_get k m'
  end.

Definition map_has {V} (k : list N) (m : list (list N * V)) : bool :=
  match map_get k m with Some _ => true | None => false end.

(** ** [sync-engine.ts]: class [SyncEngine] *)

Inductive SyncOutcome := outcome_updated | outcome_conflict | outcome_completed | outcome_unchanged.

(** [x || undefined] on a string *)
Definition or_undefined (s : list N) : option (list N) :=
  match s with [] => None | _ => Some s end.

Definition line_updated (transform : list N → list N) (lineNo : nat)
    (lines : list (list N)) : list (list N) :=
  match lines !! lineNo with
  | Some line => <[lineNo := transform line]> lines
  | None => lines
  end.

Definition updateObsidianTaskLine (task : ParsedObsidianTask)
    (transform : list N → list N) : prog (jsresult unit) :=
  file ← perform (getAbstractFileByPath (filePath task));
  match file with
  | None => throw (lit "Error: File not found: " ++ filePath task)
  | Some file =>
      fileContent ⇐ perform (vault_read file);
      let lines := split_lines fileContent in
      if (length lines <=? lineNumber task)%nat
      then throw (lit "Error: Line number out of range: "
                  ++ show_Z (Z.of_nat (lineNumber task)))
      else perform (vault_modify file
                      (join_lines (line_updated transform (lineNumber task) lines)))
  end.

Definition replaceLineInFile (filePath : list N) (lineNumber : nat)
    (newLine : list N) : prog (jsresult unit) :=
  file ← perform (getAbstractFileByPath filePath);
  match file with
  | None => throw (lit "Error: File not found: " ++ filePath)
  | Some file =>
      fileContent ⇐ perform (vault_read file);
      let lines := split_lines fileContent in
      if (length lines <=? lineNumber)%nat
      then throw (lit "Error: Line number out of range: " ++ show_Z (Z.of_nat lineNumber))
      else perform (vault_modify file
                      (join_lines (line_updated (λ _, newLine) lineNumber lines)))
  end.

Definition markObsidianTaskCompleted (task : ParsedObsidianTask) : prog (jsresult unit) :=
  updateObsidianTaskLine task (λ line, updateTaskCompletion line true).

Definition updateSyncStateTask (todoistId : list N) (obsidianTask : ParsedObsidianTask)
    (completed : bool) : prog unit :=
  now ← perform Date_now;
  modify (set_tasks
    <[todoistId := {| st_todoistId := todoistId;
                      st_filePath := filePath obsidianTask;
                      st_lineNumber := lineNumber obsidianTask;
                      contentHash := generateContentHash obsidianTask;
                      lastSynced := now;
                      obsidianCompleted := completed;
                      todoistCompleted := completed |}]>).

Definition createTodoistTask (task : ParsedObsidianTask) : prog (jsresult unit) :=
  e ← get;
  todoistTask ⇐ perform (createTask (content task)
    {| opt_projectId := or_undefined (defaultProjectId (settings e));
       opt_priority := priority task;
       opt_dueDate := dueDate task;
       opt_labels := labels task;
       opt_description := description task |});
  _ ⇐ updateObsidianTaskLine task (λ line, addTodoistIdToLine line (task_id todoistTask));
  now ← perform Date_now;
  modify (set_tasks
    <[task_id todoistTask :=
        {| st_todoistId := task_id todoistTask;
           st_filePath := filePath task;
           st_lineNumber := lineNumber task;
           contentHash := generateContentHash task;
           lastSynced := now;
           obsidianCompleted := isCompleted task;
           todoistCompleted := task_isCompleted todoistTask |}]>);;
  if isCompleted task
  then (_ ⇐ perform (completeTask (task_id todoistTask)); Ret (Returned ()))
  else Ret (Returned ()).

Definition updateObsidianTaskFromTodoist (obsidianTask : ParsedObsidianTask)
    (todoistTask : Task) : prog (jsresult unit) :=
  let updatedTask :=
    {| originalLine := originalLine obsidianTask;
       lineNumber := lineNumber obsidianTask;
       filePath := filePath obsidianTask;
       content := task_content todoistTask;
       isCompleted := task_isCompleted todoistTask;
       todoistId := todoistId obsidianTask;
       dueDate := task_due todoistTask;
       priority := task_priority todoistTask;
       labels := labels obsidianTask;
       description := description obsidianTask;
       lastModified := lastModified obsidianTask |} in
  e ← get;
  let newLine := buildTaskLine updatedTask (syncTag (settings e)) in
  replaceLineInFile (filePath obsidianTask) (lineNumber obsidianTask) newLine.

Definition syncExistingTask (obsidianTask : ParsedObsidianTask) (todoistTask : Task)
    : prog (jsresult SyncOutcome) :=
  let obsidianCompleted := isCompleted obsidianTask in
  let todoistCompleted := task_isCompleted todoistTask in
  if obsidianCompleted && negb todoistCompleted then
    _ ⇐ perform (completeTask (task_id todoistTask));
    updateSyncStateTask (task_id todoistTask) obsidianTask true;;
    Ret (Returned outcome_completed)
  else if negb obsidianCompleted && todoistCompleted then
    e ← get;
    match conflictResolution (settings e) with
    | todoist_wins =>
        _ ⇐ markObsidianTaskCompleted obsidianTask;
        updateSyncStateTask (task_id todoistTask) obsidianTask true;;
        Ret (Returned outcome_completed)
    | obsidian_wins =>
        _ ⇐ perform (reopenTask (task_id todoistTask));
        updateSyncStateTask (task_id todoistTask) obsidianTask false;;
        Ret (Returned outcome_updated)
    | ask_user =>
        _ ⇐ markObsidianTaskCompleted obsidianTask;
        updateSyncStateTask (task_id todoistTask) obsidianTask true;;
        Ret (Returned outcome_conflict)
    end
  else
    let todoistContent := task_content todoistTask in
    let todoistPriority := task_priority todoistTask in
    let todoistDueDate := task_due todoistTask in
    let contentDiffers := bool_decide (content obsidianTask ≠ todoistContent) in
    let priorityDiffers := bool_decide (priority obsidianTask ≠ todoistPriority) in
    let dueDateDiffers := bool_decide (dueDate obsidianTask ≠ todoistDueDate) in
    let hasChanges := contentDiffers || priorityDiffers || dueDateDiffers in
    if negb hasChanges then
      updateSyncStateTask (task_id todoistTask) obsidianTask obsidianCompleted;;
      Ret (Returned outcome_unchanged)
    else
      e ← get;
      match conflictResolution (settings e) with
      | obsidian_wins =>
          _ ⇐ perform (updateTask (task_id todoistTask)
                 {| upd_content := content obsidianTask;
                    upd_priority := priority obsidianTask;
                    upd_dueString := dueDate obsidianTask;
                    upd_labels := labels obsidianTask |});
          updateSyncStateTask (task_id todoistTask) obsidianTask obsidianCompleted;;
          Ret (Returned outcome_updated)
      | todoist_wins =>
          _ ⇐ updateObsidianTaskFromTodoist obsidianTask todoistTask;
          updateSyncStateTask (task_id todoistTask) obsidianTask obsidianCompleted;;
          Ret (Returned outcome_updated)
      | ask_user =>
          modify (push_conflict
            {| c_todoistId := task_id todoistTask;
               c_filePath := filePath obsidianTask;
               c_lineNumber := lineNumber obsidianTask;
               obsidianContent := content obsidianTask;
               todoistContent := todoistContent;
               c_obsidianCompleted := obsidianCompleted;
               c_todoistCompleted := todoistCompleted |});;
          Ret (Returned outcome_conflict)
      end.

(** The body of the loop of [getAllObsidianTasks]: a file that cannot be
    read is logged and skipped. *)
Definition scanFile (file : TFile) (found : list ParsedObsidianTask)
    : prog (list ParsedObsidianTask) :=
  r ← perform (vault_read file);
  match r with
  | Returned fileContent =>
      e ← get;
      Ret (found ++ parseTasksFromContent fileContent (path file)
                      (syncTag (settings e)) (mtime file))
  | Thrown _ => Ret found
  end.

Definition getAllObsidianTasks : prog (jsresult (list ParsedObsidianTask)) :=
  files ⇐ perform getMarkdownFiles;
  ok (forEach files scanFile []).

(** The counters of [result] *)
Definition emptyResult : SyncResult :=
  {| created := 0; updated := 0; completed := 0; conflicts := 0; errors := [] |}.

Definition add_created (r : SyncResult) : SyncResult :=
  {| created := S (created r); updated := updated r; completed := completed r;
     conflicts := conflicts r; errors := errors r |}.
Definition add_updated (r : SyncResult) : SyncResult :=
  {| created := created r; updated := S (updated r); completed := completed r;
     conflicts := conflicts r; errors := errors r |}.
Definition add_completed (r : SyncResult) : SyncResult :=
  {| created := created r; updated := updated r; completed := S (completed r);
     conflicts := conflicts r; errors := errors r |}.
Definition add_conflict (r : SyncResult) : SyncResult :=
  {| created := created r; updated := updated r; completed := completed r;
     conflicts := S (conflicts r); errors := errors r |}.
Definition push_error (msg : list N) (r : SyncResult) : SyncResult :=
  {| created := created r; updated := updated r; completed := completed r;
     conflicts := conflicts r; errors := errors r ++ [msg] |}.

(** The grouping loop of [performSync]: tasks with a truthy [todoistId] go
    into the [syncedObsidianTasks] map, the others into [newObsidianTasks]. *)
Definition groupTasks (obsidianTasks : list ParsedObsidianTask)
    : list (list N * ParsedObsidianTask) * list ParsedObsidianTask :=
  foldl (λ '(synced, new) task,
           match todoistId task with
           | Some (c :: i) => (map_set (c :: i) task synced, new)
           | _ => (synced, new ++ [task])
           end)
        ([], []) obsidianTasks.

(** Loop 1 of [performSync], "Create Todoist tasks for new Obsidian tasks":
    its body for one task. *)
Definition createOne (task : ParsedObsidianTask) (result : SyncResult) : prog SyncResult :=
  tryCatch (_ ⇐ createTodoistTask task; Ret (Returned (add_created result)))
           (λ error, Ret (push_error (lit "Failed to create task: " ++ content task
                                      ++ lit " - " ++ error) result)).

(** Loop 2, "Sync existing tasks": its body for one entry of
    [syncedObsidianTasks]. *)
Definition syncOne (todoistTaskMap : list (list N * Task))
    (entry : list N * ParsedObsidianTask) (result : SyncResult) : prog SyncResult :=
  let '(todoistId, obsidianTask) := entry in
  match map_get todoistId todoistTaskMap with
  | None =>
      tryCatch (_ ⇐ markObsidianTaskCompleted obsidianTask;
                modify (set_tasks (delete todoistId));;
                Ret (Returned (add_completed result)))
               (λ _, Ret (push_error (lit "Failed to mark task completed: "
                                      ++ content obsidianTask) result))
  | Some todoistTask =>
      tryCatch (syncResult ⇐ syncExistingTask obsidianTask todoistTask;
                Ret (Returned match syncResult with
                              | outcome_updated => add_updated result
                              | outcome_conflict => add_conflict result
                              | outcome_completed => add_completed result
                              | outcome_unchanged => result
                              end))
               (λ error, Ret (push_error (lit "Failed to sync task: "
                                          ++ content obsidianTask ++ lit " - " ++ error)
                                         result))
  end.

(** Loop 3: its body for one key of [todoistTaskMap]. *)
Definition dropOrphan (syncedObsidianTasks : list (list N * ParsedObsidianTask))
    (entry : list N * Task) (_ : unit) : prog unit :=
  e ← get;
  match tasks (syncState e) !! entry.1 with
  | Some _ =>
      if negb (map_has entry.1 syncedObsidianTasks)
      then modify (set_tasks (delete entry.1))
      else Ret ()
  | None => Ret ()
  end.

Definition rejectedResult : SyncResult :=
  {| created := 0; updated := 0; completed := 0; conflicts := 0;
     errors := [lit "Sync already in progress"] |}.

Definition notConfiguredResult : SyncResult :=
  {| created := 0; updated := 0; completed := 0; conflicts := 0;
     errors := [lit "Todoist API not configured"] |}.

(** What the [try] block of [performSync] does once the tasks were fetched.
    The scan is its only statement that can throw past the inner handlers,
    and it runs before [result] is touched. *)
Definition syncFetched (todoistTasks : list Task) : prog (jsresult SyncResult) :=
  let todoistTaskMap :=
    foldl (λ m task, map_set (task_id task) task m) [] todoistTasks in
  obsidianTasks ⇐ getAllObsidianTasks;
  let '(syncedObsidianTasks, newObsidianTasks) := groupTasks obsidianTasks in
  result ← forEach newObsidianTasks createOne emptyResult;
  result ← forEach syncedObsidianTasks (syncOne todoistTaskMap) result;
  forEach todoistTaskMap (dropOrphan syncedObsidianTasks) ();;
  now ← perform Date_now;
  modify (set_lastFullSync now);;
  Ret (Returned result).

Definition performSync : prog SyncResult :=
  e ← get;
  if isSyncing e then Ret rejectedResult
  else
    initialized ← perform isInitialized;
    if negb initialized then Ret notConfiguredResult
    else
      modify (set_isSyncing true);;
      result ←
        tryCatch
          (fetched ← perform getTasks;
           match fetched with
           | Thrown error =>
               modify (set_isSyncing false);;
               Ret (Returned (push_error (lit "Failed to fetch Todoist tasks: " ++ error)
                                         emptyResult))
           | Returned todoistTasks => syncFetched todoistTasks
           end)
          (λ error, Ret (push_error (lit "Sync failed: " ++ error) emptyResult));
      modify (set_isSyncing false);;
      Ret result.

(** ** Running a program against a host *)

(** A host answers every call from its own state. *)
Record Host (W : Type) := { answer : ∀ X, call X → W → X * W }.
Arguments answer {W} _ {X} _ _.

(** One invocation run to its end with nothing else in between. *)
Fixpoint run {W A} (H : Host W) (p : prog A) (e : SyncEngine) (w : W)
    : A * SyncEngine * W :=
  match p with
  | Ret a => (a, e, w)
  | Get k => run H (k e) e w
  | Put e' k => run H k e' w
  | Call c k => let '(x, w') := answer H c w in run H (k x) e w'
  end.

(** ** Overlapping invocations

    JavaScript runs an invocation until its next [await]; there another
    invocation, or anything else, may run. *)

Inductive status (A : Type) : Type :=
| Resolved (a : A)
| Suspended {X : Type} (c : call X) (k : X → prog A).
Arguments Resolved {A} a.
Arguments Suspended {A X} c k.

(** Run until the promise resolves or the next awaited call is issued. *)
Fixpoint advance {W A} (H : Host W) (p : prog A) (e : SyncEngine) (w : W)
    : status A * SyncEngine * W :=
  match p with
  | Ret a => (Resolved a, e, w)
  | Get k => advance H (k e) e w
  | Put e' k => advance H k e' w
  | Call c k =>
      if awaited c then (Suspended c k, e, w)
      else let '(x, w') := answer H c w in advance H (k x) e w'
  end.

(** Run as far as possible without any call to the host. *)
Fixpoint settle {A} (p : prog A) (e : SyncEngine) : option (A * SyncEngine) :=
  match p with
  | Ret a => Some (a, e)
  | Get k => settle (k e) e
  | Put e' k => settle k e'
  | Call _ _ => None
  end.

(** An invocation of [performSync] that waits for the host. *)
Record Pending := {
  pend_type : Type;
  pend_call : call pend_type;
  pend_k : pend_type → prog SyncResult
}.

Definition pending_of (st : status SyncResult) : list Pending :=
  match st with
  | Resolved _ => []
  | Suspended c k => [{| pend_call := c; pend_k := k |}]
  end.

Definition resolution (st : status SyncResult) : option SyncResult :=
  match st with Resolved r => Some r | Suspended _ _ => None end.

Record System (W : Type) := {
  engine : SyncEngine;
  world : W;
  inflight : list Pending
}.
Arguments engine {W} _.
Arguments world {W} _.
Arguments inflight {W} _.

Inductive Event := Invoke | Deliver (i : nat) | Elsewhere.

(** One step of the plug-in: [performSync] is invoked; the host answers the
    call that the [i]-th invocation in flight waits for and that invocation
    goes on; or something else happens, which may change the host and any
    field of the engine but [isSyncing], the field only [performSync]
    writes.  The step carries the result of the invocation that it
    resolved, if any. *)
Inductive step {W} (H : Host W) : System W → Event → option SyncResult → System W → Prop :=
| step_invoke s st e' w' :
    advance H performSync (engine s) (world s) = (st, e', w') →
    step H s Invoke (resolution st)
         {| engine := e'; world := w'; inflight := inflight s ++ pending_of st |}
| step_deliver s i pd x w1 st e' w' :
    inflight s !! i = Some pd →
    answer H (pend_call pd) (world s) = (x, w1) →
    advance H (pend_k pd x) (engine s) w1 = (st, e', w') →
    step H s (Deliver i) (resolution st)
         {| engine := e'; world := w'; inflight := delete i (inflight s) ++ pending_of st |}
| step_elsewhere s e' w' :
    isSyncing e' = isSyncing (engine s) →
    step H s Elsewhere None {| engine := e'; world := w'; inflight := inflight s |}.

(** The states the plug-in reaches from a start with no sync in progress. *)
Inductive reachable {W} (H : Host W) : System W → Prop :=
| reach_start e w :
    isSyncing e = false →
    reachable H {| engine := e; world := w; inflight := [] |}
| reach_step s ev r s' :
    reachable H s → step H s ev r s' → reachable H s'.

(** [p], started with the engine's fields as in [e], keeps [I] at every
    [await] and ends in [Q], whatever the host answers and whatever happens
    to the fields during an [await] as long as [I] stays. *)
Fixpoint keeps {A} (I : SyncEngine → Prop) (Q : A → SyncEngine → Prop)
    (p : prog A) (e : SyncEngine) : Prop :=
  match p with
  | Ret a => Q a e
  | Get k => keeps I Q (k e) e
  | Put e' k => keeps I Q k e'
  | Call c k =>
      if awaited c then I e ∧ ∀ x e', I e' → keeps I Q (k x) e'
      else ∀ x, keeps I Q (k x) e
  end.

(** ** A host for examples: a vault in memory and a scripted gateway *)

Record MockWorld := {
  vault : list (TFile * list N);
  remote : list Task;
  configured : bool;
  fetch_error : option (list N);
  close_error : option (list N);
  write_error : option (list N);
  new_id : list N;
  clock : Z
}.

Definition with_vault (v : list (TFile * list N)) (w : MockWorld) : MockWorld :=
  {| vault := v; remote := remote w; configured := configured w;
     fetch_error := fetch_error w; close_error := close_error w;
     write_error := write_error w; new_id := new_id w; clock := clock w |}.

Definition with_remote (r : list Task) (w : MockWorld) : MockWorld :=
  {| vault := vault w; remote := r; configured := configured w;
     fetch_error := fetch_error w; close_error := close_error w;
     write_error := write_error w; new_id := new_id w; clock := clock w |}.

Definition with_clock (t : Z) (w : MockWorld) : MockWorld :=
  {| vault := vault w; remote := remote w; configured := configured w;
     fetch_error := fetch_error w; close_error := close_error w;
     write_error := write_error w; new_id := new_id w; clock := t |}.

Definition file_text (p : list N) (w : MockWorld) : option (list N) :=
  snd <$> find (λ f, bool_decide (path f.1 = p)) (vault w).

Definition mock_answer (X : Type) (c : call X) : MockWorld → X * MockWorld :=
  match c in call X return MockWorld → X * MockWorld with
  | isInitialized => λ w, (configured w, w)
  | getTasks => λ w,
      match fetch_error w with
      | Some err => (Thrown err, w)
      | None => (Returned (remote w), w)
      end
  | createTask content options => λ w,
      let t := {| task_id := new_id w; task_content := content;
                  task_isCompleted := false; task_priority := opt_priority options;
                  task_due := opt_dueDate options |} in
      (Returned t, with_remote (remote w ++ [t]) w)
  | updateTask taskId updates => λ w,
      match find (λ t, bool_decide (task_id t = taskId)) (remote w) with
      | Some t =>
          let t' := {| task_id := taskId; task_content := upd_content updates;
                       task_isCompleted := task_isCompleted t;
                       task_priority := upd_priority updates;
                       task_due := upd_dueString updates |} in
          (Returned t',
           with_remote ((λ t, if bool_decide (task_id t = taskId) then t' else t)
                          <$> remote w) w)
      | None => (Thrown (lit "Error: HTTP 404"), w)
      end
  | completeTask taskId => λ w,
      match close_error w with
      | Some err => (Thrown err, w)
      | None =>
          (Returned true,
           with_remote (filter (λ t, task_id t ≠ taskId) (remote w)) w)
      end
  | reopenTask taskId => λ w, (Returned true, w)
  | getMarkdownFiles => λ w, (Returned (fst <$> vault w), w)
  | getAbstractFileByPath p => λ w,
      (fst <$> find (λ f, bool_decide (path f.1 = p)) (vault w), w)
  | vault_read file => λ w,
      match file_text (path file) w with
      | Some text => (Returned text, w)
      | None => (Thrown (lit "Error: ENOENT"), w)
      end
  | vault_modify file data => λ w,
      match write_error w with
      | Some err => (Thrown err, w)
      | None =>
          (Returned (),
           with_vault ((λ f, if bool_decide (path f.1 = path file)
                             then (f.1, data) else f) <$> vault w) w)
      end
  | Date_now => λ w, (clock w, with_clock (clock w + 1)%Z w)
  end.

Definition mock : Host MockWorld := {| answer := mock_answer |}.

Definition defaultSettings : TodoistSyncSettings :=
  {| apiToken := lit "token"; syncTag := lit "#todoist"; defaultProjectId := [];
     syncIntervalMinutes := 5; conflictResolution := todoist_wins |}.

Definition freshEngine : SyncEngine :=
  {| settings := defaultSettings;
     syncState := {| tasks := ∅; lastFullSync := 0 |};
     isSyncing := false;
     pendingConflicts := [] |}.

Definition notes : TFile := {| path := lit "notes.md"; mtime := 7 |}.

Definition quietWorld (text : list N) (listed : list Task) : MockWorld :=
  {| vault := [(notes, text)]; remote := listed; configured := true;
     fetch_error := None; close_error := None; write_error := None;
     new_id := lit "555"; clock := 1000 |}.

(** ** Well-formed fields of a task to serialise *)

(** [l] occurs somewhere in [s]. *)
Fixpoint occurs_with (eqc : N → N → bool) (l s : list N) : bool :=
  match strip_with eqc l s with
  | Some _ => true
  | None => match s with [] => false | _ :: s' => occurs_with eqc l s' end
  end.

(** What starts a metadata token: the hash of a hashtag, the opening of
    the id comment, the seven glyphs, and [due:] in any case. *)
Definition metadata_tokens : list (list N) :=
  [lit "#"; lit "<!--"; glyph_dueDate; glyph_scheduledDate; glyph_startDate;
   glyph_doneDate; glyph_highPriority; glyph_mediumPriority; glyph_lowPriority].

Definition token_free (c : list N) : bool :=
  forallb (λ token, negb (occurs_with N.eqb token c)) metadata_tokens
  && negb (occurs_with eq_ci (lit "due:") c).

(** Every white-space character is a blank that a non-blank follows. *)
Fixpoint single_spaced (s : list N) : bool :=
  match s with
  | [] => true
  | c :: s' =>
      (if is_space c
       then (c =? 32) && match s' with [] => false | d :: _ => negb (is_space d) end
       else true)
      && single_spaced s'
  end.

(** The text is what [trim] and the white-space collapse leave alone. *)
Definition ws_normal (c : list N) : bool :=
  match c with [] => true | c0 :: _ => negb (is_space c0) && single_spaced c end.

Definition wf_content (c : list N) : bool := ws_normal c && token_free c.

(** The marker is one hashtag. *)
Definition wf_marker (syncTag : list N) : bool :=
  match syncTag with
  | hash :: name => (hash =? 35) && nonempty name && forallb is_tagchar name
  | [] => false
  end.

(** [[a-z0-9_-]] *)
Definition is_lower_tagchar (c : N) : bool :=
  ((97 <=? c) && (c <=? 122)) || is_digit c || (c =? 95) || (c =? 45).

(** A label is a hashtag name in lower case that is not the marker's. *)
Definition wf_label (syncTag label : list N) : bool :=
  nonempty label && forallb is_lower_tagchar label
  && negb (bool_decide (label = toLowerCase (drop_hash syncTag))).

Definition wf_dueDate (d : option (list N)) : bool :=
  match d with
  | None => true
  | Some d => bool_decide (match_date d = Some (d, []))
  end.

Definition wf_todoistId (i : option (list N)) : bool :=
  match i with
  | None => true
  | Some i => nonempty i && forallb is_digit i
  end.

Definition wf_priority (p : Z) : bool :=
  ((p =? NONE) || (p =? LOW) || (p =? MEDIUM) || (p =? HIGH))%Z.

Definition wf_task (task : ParsedObsidianTask) (syncTag : list N) : bool :=
  wf_marker syncTag && wf_content (content task)
  && forallb (wf_label syncTag) (labels task)
  && wf_dueDate (dueDate task) && wf_priority (priority task)
  && wf_todoistId (todoistId task).

(** ** What the engine theorems speak of *)

(** The options [createTodoistTask] passes to the gateway. *)
Definition createOptions (e : SyncEngine) (task : ParsedObsidianTask) : TaskOptions :=
  {| opt_projectId := or_undefined (defaultProjectId (settings e));
     opt_priority := priority task;
     opt_dueDate := dueDate task;
     opt_labels := labels task;
     opt_description := description task |}.

(** The record [createTodoistTask] writes once the line carries the id. *)
Definition createdRecord (task : ParsedObsidianTask) (t : Task) (now : Z) : SyncedTask :=
  {| st_todoistId := task_id t;
     st_filePath := filePath task;
     st_lineNumber := lineNumber task;
     contentHash := generateContentHash task;
     lastSynced := now;
     obsidianCompleted := isCompleted task;
     todoistCompleted := task_isCompleted t |}.

(** The message of the [catch] around [createTodoistTask]. *)
Definition createFailure (task : ParsedObsidianTask) (err : list N) : list N :=
  lit "Failed to create task: " ++ content task ++ lit " - " ++ err.

(** The text of the file once the task's line is ticked. *)
Definition tickedText (task : ParsedObsidianTask) (text : list N) : list N :=
  join_lines (line_updated (λ line, updateTaskCompletion line true)
                           (lineNumber task) (split_lines text)).

(** ** The in-progress flag

    The guard: a sync is in progress. *)
Definition syncing (e : SyncEngine) : Prop := isSyncing e = true.

Definition idle {A} (_ : A) (e : SyncEngine) : Prop := isSyncing e = false.

Definition still_syncing {A} (_ : A) (e : SyncEngine) : Prop := isSyncing e = true.

(** An invocation in flight that will clear the flag it holds. *)
Definition holder (pd : Pending) : Prop :=
  ∀ x e, syncing e → keeps syncing idle (pend_k pd x) e.

(** The step is an invocation that finds the flag up. *)
Definition meets_guard {W} (s : System W) (ev : Event) : bool :=
  match ev with Invoke => isSyncing (engine s) | _ => false end.

Definition guard_invariant {W} (s : System W) : Prop :=
  match inflight s with
  | [] => isSyncing (engine s) = false
  | [pd] => isSyncing (engine s) = true ∧ holder pd
  | _ => False
  end.

(** ** The serialised line

    A search result moved behind a prefix. *)
Definition shift {A} (X : list N) (o : option (list N * A * list N))
    : option (list N * A * list N) :=
  match o with Some (pre, a, post) => Some (X ++ pre, a, post) | None => None end.

(** [[0-9-]] *)
Definition is_datechar (c : N) : bool := is_digit c || (c =? 45).

(** The content and the blank after it. *)
Definition lead (c : list N) : list N := match c with [] => [] | _ => c ++ [32] end.

(** What a match of an expression starts with: one character, or a literal. *)
Definition headed {A} (a : N) (m : matcher A) : Prop :=
  m [] = None ∧ ∀ c s, (a =? c) = false → m (c :: s) = None.

Definition guarded {A} (eqc : N → N → bool) (l : list N) (m : matcher A) : Prop :=
  ∀ s, strip_with eqc l s = None → m s = None.

(** A marker or a label with its hash and the blank before it. *)
Definition is_tagtext (c : N) : bool := is_tagchar c || (c =? 35) || (c =? 32).

(** No character of the class is [a]. *)
Definition excludes (ok : N → bool) (a : N) : Prop := ∀ c, ok c = true → (a =? c) = false.

(** The labels, the priority glyph, the due date and the id comment as
    [buildTaskLine] writes them. *)
Definition labelText (ls : list (list N)) : list N :=
  foldr (λ label rest, lit " #" ++ label ++ rest) [] ls.

Definition tailP (p : Z) : list N :=
  if (p =? HIGH)%Z then lit " " ++ glyph_highPriority
  else if (p =? MEDIUM)%Z then lit " " ++ glyph_mediumPriority
  else if (p =? LOW)%Z then lit " " ++ glyph_lowPriority
  else [].

Definition tailD (d : option (list N)) : list N :=
  if truthy d then lit " " ++ glyph_dueDate ++ lit " " ++ default [] d else [].

Definition tailI (i : option (list N)) : list N :=
  if truthy i then lit " <!-- todoist-id:" ++ default [] i ++ lit " -->" else [].

(** What follows the labels: the priority glyph, the due date, and [third]:
    nothing, the blank that stays when the id comment is cut out, or the id
    comment. *)
Definition third (tid : list N) (k : nat) : list N :=
  match k with O => [] | 1%nat => [32] | _ => tailI (Some tid) end.

Definition tails (dd tid : list N) (p : Z) (d : bool) (k : nat) : list N :=
  tailP p ++ tailD (if d then Some dd else None) ++ third tid k.

(** What the last eight steps of [cleanTaskContent] do to the text after
    the content. *)
Definition strip_rest (K : list N) : list N :=
  let K := replace_first match_scheduledDate [] K in
  let K := replace_first match_startDate [] K in
  let K := replace_first match_doneDate [] K in
  let K := replace_first match_highPriority [] K in
  let K := replace_first match_mediumPriority [] K in
  let K := replace_first match_lowPriority [] K in
  replace_first match_textDueDate [] K.

(** ** What the further properties speak of *)

(** Every white-space character is a blank, and no white space follows it. *)
Fixpoint blank_separated (s : list N) : bool :=
  match s with
  | [] => true
  | c :: s' =>
      (if is_space c
       then (c =? 32) && match s' with [] => true | d :: _ => negb (is_space d) end
       else true)
      && blank_separated s'
  end.

(** What a result reports: the four counters and the number of errors. *)
Definition outcomes (r : SyncResult) : nat :=
  (created r + updated r + completed r + conflicts r + length (errors r))%nat.

(** [e'] has the settings of [e], and the queue of conflicts of [e] with
    [added] behind it. *)
Definition queued (added : list SyncConflict) (e e' : SyncEngine) : Prop :=
  settings e' = settings e ∧ pendingConflicts e' = pendingConflicts e ++ added.

(** The record that [updateSyncStateTask] writes. *)
Definition linkedRecord (todoistId : list N) (obsidianTask : ParsedObsidianTask)
    (completed : bool) (now : Z) : SyncedTask :=
  {| st_todoistId := todoistId;
     st_filePath := filePath obsidianTask;
     st_lineNumber := lineNumber obsidianTask;
     contentHash := generateContentHash obsidianTask;
     lastSynced := now;
     obsidianCompleted := completed;
     todoistCompleted := completed |}.

(** [priorityToEmoji] *)
Definition priorityToEmoji (priority : Z) : list N :=
  if (priority =? HIGH)%Z then glyph_highPriority
  else if (priority =? MEDIUM)%Z then glyph_mediumPriority
  else if (priority =? LOW)%Z then glyph_lowPriority
  else [].

(** ** [createTaskFromLine]: what it makes of the editor's line

    [/^[-*+]\s+/] and [/^\d+\.\s+/], each replaced by nothing where it
    matches at the start of the string. *)
Definition is_listbullet (c : N) : bool := (c =? 45) || (c =? 42) || (c =? 43).

Definition drop_bullet (s : list N) : list N :=
  match s with
  | c :: s' =>
      if is_listbullet c
      then match some_class is_space s' with Some (_, rest) => rest | None => s end
      else s
  | [] => s
  end.

Definition drop_number (s : list N) : list N :=
  match some_class is_digit s with
  | Some (_, 46 :: s') =>
      match some_class is_space s' with Some (_, rest) => rest | None => s end
  | _ => s
  end.

(** The last character of a string that has one is not white space. *)
Definition ends_dark (s : list N) : Prop :=
  match rev s with c :: _ => is_space c = false | [] => False end.

(** The first part of [createTaskFromLine], between the check of the
    gateway and the cleaning of the content for Todoist: either an early
    return with [success: false] and a message, or the values of [isTask],
    [prefix] and [content]. *)
Inductive LineTask :=
| noTask (message : list N)
| lineTask (isTask : bool) (prefix content : list N).

Definition lineTaskOf (syncTag lineContent : list N) : LineTask :=
  match match_task lineContent with
  | Some (prefix, _, content) =>
      if bool_decide (is_Some (capture match_todoistId content))
      then noTask (lit "Task is already synced with Todoist.")
      else if negb (test (match_syncTag syncTag) content)
           then lineTask true prefix (trim content ++ lit " " ++ syncTag)
           else lineTask true prefix content
  | None =>
      let trimmed := trim lineContent in
      if negb (nonempty trimmed)
      then noTask (lit "Cannot create task from empty line.")
      else
        let cleanedContent := trim (drop_number (drop_bullet trimmed)) in
        if negb (nonempty cleanedContent)
        then noTask (lit "Cannot create task from empty bullet.")
        else lineTask false (span is_space lineContent).1
                      (cleanedContent ++ lit " " ++ syncTag)
  end.

(** ** [todoist-service.ts] and [main.ts]: the client of the gateway

    [TodoistService.api] is the client built from a token, or [null]. *)
Record TodoistService := { api : option (list N) }.

(** [TodoistService.initialize] *)
Definition initialize (apiToken : list N) (service : TodoistService) : TodoistService :=
  if negb (nonempty apiToken) then {| api := None |} else {| api := Some apiToken |}.

(** [TodoistService.isInitialized] *)
Definition serviceIsInitialized (service : TodoistService) : bool :=
  match api service with Some _ => true | None => false end.

(** [TodoistSyncPlugin.saveSettings]: what it does to the service once the
    settings are stored. *)
Definition saveSettings (newSettings : TodoistSyncSettings) (service : TodoistService)
    : TodoistService :=
  if nonempty (apiToken newSettings)
  then initialize (apiToken newSettings) service
  else service.

(** Every code unit of the string is an ASCII character. *)
Definition is_ascii (s : list N) : bool := forallb (λ c, c <? 128) s.

(** What the scan takes from one file, read in the state [w] of the host:
    the tasks of its text, or nothing when the read throws. *)
Definition tasksOfFile {W} (host : Host W) (syncTag : list N) (w : W) (file : TFile)
    : list ParsedObsidianTask :=
  match (answer host (vault_read file) w).1 with
  | Returned fileContent => parseTasksFromContent fileContent (path file) syncTag (mtime file)
  | Thrown _ => []
  end.

(** The host answers the call that the first invocation in flight waits
    for, and that invocation goes on. *)
Definition deliverFirst {W} (host : Host W) (s : System W) : System W :=
  match inflight s with
  | pd :: rest =>
      let '(x, w1) := answer host (pend_call pd) (world s) in
      let '(st, e', w') := advance host (pend_k pd x) (engine s) w1 in
      {| engine := e'; world := w'; inflight := rest ++ pending_of st |}
  | [] => s
  end.

(** [performSync] is invoked. *)
Definition invoked {W} (host : Host W) (s : System W) : System W :=
  let '(st, e, w) := advance host performSync (engine s) (world s) in
  {| engine := e; world := w; inflight := inflight s ++ pending_of st |}.

(** [[0-9A-Za-z]] *)
Definition is_alnum (c : N) : bool :=
  is_digit c || ((65 <=? c) && (c <=? 90)) || ((97 <=? c) && (c <=? 122)).

(** ** Vaults, engines and tasks for the examples *)

(** A task that is already ticked: the gateway creates it, the line is
    rewritten, and the close call fails. *)
Definition closeFails : MockWorld :=
  {| vault := [(notes, lit "- [x] Call mom #todoist")]; remote := [];
     configured := true; fetch_error := None;
     close_error := Some (lit "Error: HTTP 503"); write_error := None;
     new_id := lit "555"; clock := 1000 |}.

(** A record whose task is neither listed by the gateway nor tagged in the
    vault. *)
Definition staleRecord : SyncedTask :=
  {| st_todoistId := lit "9"; st_filePath := lit "gone.md"; st_lineNumber := 3;
     contentHash := lit "0"; lastSynced := 0; obsidianCompleted := false;
     todoistCompleted := false |}.

Definition staleEngine : SyncEngine :=
  set_tasks (λ _, {[ lit "9" := staleRecord ]}) freshEngine.

(** The remote task 7 is gone.  First vault: the write of the ticked line
    fails.  Second vault: two lines carry the id 7. *)
Definition record7 : SyncedTask :=
  {| st_todoistId := lit "7"; st_filePath := lit "notes.md"; st_lineNumber := 0;
     contentHash := lit "0"; lastSynced := 0; obsidianCompleted := false;
     todoistCompleted := false |}.

Definition engine7 : SyncEngine :=
  set_tasks (λ _, {[ lit "7" := record7 ]}) freshEngine.

Definition line7 : list N := lit "- [ ] Pay rent #todoist <!-- todoist-id:7 -->".

Definition readOnlyVault : MockWorld :=
  {| vault := [(notes, line7)]; remote := []; configured := true;
     fetch_error := None; close_error := None;
     write_error := Some (lit "Error: EACCES"); new_id := lit "555"; clock := 1000 |}.

(** While a first invocation waits for the task list, a second one is
    rejected: it resolves, and the flag is still up. *)
Definition startSystem : System MockWorld :=
  {| engine := freshEngine; world := quietWorld (lit "plain text") []; inflight := [] |}.

Definition firstWaiting : System MockWorld :=
  let '(st, e, w) := advance mock performSync freshEngine (quietWorld (lit "plain text") []) in
  {| engine := e; world := w; inflight := pending_of st |}.

(** Tasks to serialise: one with a label in upper case, one with a label
    in lower case, one with every field set, one without labels. *)
Definition shoppingTask : ParsedObsidianTask :=
  {| originalLine := []; lineNumber := 0; filePath := lit "notes.md";
     content := lit "Buy milk"; isCompleted := false; todoistId := None;
     dueDate := None; priority := NONE; labels := [lit "Work"];
     description := []; lastModified := 0 |}.

Definition choreTask : ParsedObsidianTask :=
  {| originalLine := []; lineNumber := 0; filePath := lit "notes.md";
     content := lit "Water plants"; isCompleted := false; todoistId := None;
     dueDate := None; priority := NONE; labels := [lit "home"];
     description := []; lastModified := 0 |}.

Definition plainTask : ParsedObsidianTask :=
  {| originalLine := []; lineNumber := 0; filePath := lit "notes.md";
     content := lit "Call the bank"; isCompleted := false; todoistId := Some (lit "42");
     dueDate := Some (lit "2025-03-09"); priority := MEDIUM; labels := [];
     description := []; lastModified := 0 |}.

Definition errandTask : ParsedObsidianTask :=
  {| originalLine := []; lineNumber := 0; filePath := lit "notes.md";
     content := lit "Buy milk"; isCompleted := true; todoistId := Some (lit "555");
     dueDate := Some (lit "2025-01-01"); priority := HIGH;
     labels := [lit "home"; lit "errand-2"];
     description := []; lastModified := 0 |}.

(** The gateway is down. *)
Definition offline : MockWorld :=
  {| vault := [(notes, line7)]; remote := []; configured := true;
     fetch_error := Some (lit "Error: HTTP 500"); close_error := None;
     write_error := None; new_id := lit "555"; clock := 1000 |}.

(** Task 7 is still listed by the gateway, but no line carries its id. *)
Definition task7 : Task :=
  {| task_id := lit "7"; task_content := lit "Pay rent"; task_isCompleted := false;
     task_priority := 1; task_due := None |}.

Definition untagged : MockWorld := quietWorld (lit "- [ ] Pay rent") [task7].

(** The line of task 7 as the scan found it, its text edited since, under
    the policy that asks the user. *)
Definition rentTask : ParsedObsidianTask :=
  {| originalLine := line7; lineNumber := 0; filePath := lit "notes.md";
     content := lit "Pay the rent"; isCompleted := false; todoistId := Some (lit "7");
     dueDate := None; priority := NONE; labels := []; description := [];
     lastModified := 7 |}.

Definition askingEngine : SyncEngine :=
  {| settings := {| apiToken := lit "token"; syncTag := lit "#todoist";
                    defaultProjectId := []; syncIntervalMinutes := 5;
                    conflictResolution := ask_user |};
     syncState := syncState engine7; isSyncing := true; pendingConflicts := [] |}.

Definition rentConflict : SyncConflict :=
  {| c_todoistId := task_id task7;
     c_filePath := filePath rentTask;
     c_lineNumber := lineNumber rentTask;
     obsidianContent := content rentTask;
     todoistContent := task_content task7;
     c_obsidianCompleted := isCompleted rentTask;
     c_todoistCompleted := task_isCompleted task7 |}.

(** The vault before and after the line of task 7 is ticked. *)
Definition tickable : MockWorld := quietWorld line7 [].

Definition ticked : MockWorld :=
  quietWorld (lit "- [x] Pay rent #todoist <!-- todoist-id:7 -->") [].

(** The record of task 7 after the remote text has won. *)
Definition syncedRecord : SyncedTask :=
  {| st_todoistId := lit "7"; st_filePath := lit "notes.md"; st_lineNumber := 0;
     contentHash := generateContentHash rentTask; lastSynced := 1000;
     obsidianCompleted := false; todoistCompleted := false |}.

(** An indented task without an id, and what the scan makes of it. *)
Definition indentedLine : list N := lit "  - [ ] Pay rent #todoist".

Definition indentedTask : ParsedObsidianTask :=
  {| originalLine := indentedLine; lineNumber := 0; filePath := lit "notes.md";
     content := lit "Pay rent"; isCompleted := false; todoistId := None;
     dueDate := None; priority := NONE; labels := []; description := [];
     lastModified := 7 |}.

(** A task with two lines of description, and a line that ends it. *)
Definition describedText : list N :=
  lit "- [ ] Pay rent #todoist" ++ [10] ++ lit "  by Friday" ++ [10] ++ [10]
  ++ lit "    to the landlord" ++ [10] ++ lit "next".

(** Task 7 as the vault has it when the two sides are in step, when it is
    ticked locally, and task 7 closed remotely. *)
Definition stepTask : ParsedObsidianTask :=
  {| originalLine := line7; lineNumber := 0; filePath := lit "notes.md";
     content := lit "Pay rent"; isCompleted := false; todoistId := Some (lit "7");
     dueDate := None; priority := NONE; labels := []; description := [];
     lastModified := 7 |}.

Definition doneTask : ParsedObsidianTask :=
  {| originalLine := lit "- [x] Pay the rent #todoist <!-- todoist-id:7 -->";
     lineNumber := 0; filePath := lit "notes.md";
     content := lit "Pay the rent"; isCompleted := true; todoistId := Some (lit "7");
     dueDate := None; priority := NONE; labels := []; description := [];
     lastModified := 7 |}.

Definition closedTask7 : Task :=
  {| task_id := lit "7"; task_content := lit "Pay rent"; task_isCompleted := true;
     task_priority := 1; task_due := None |}.

(** The gateway has no token. *)
Definition unconfigured : MockWorld :=
  {| vault := [(notes, line7)]; remote := []; configured := false;
     fetch_error := None; close_error := None; write_error := None;
     new_id := lit "555"; clock := 1000 |}.

(** A vault whose only line is the line of task 7, which the gateway lists. *)
Definition listed7 : MockWorld := quietWorld line7 [task7].

(** A task that has no id yet, alone in the note, and the vault that holds
    it. *)
Definition unlinkedLine : list N := lit "- [ ] Pay rent #todoist".

Definition unlinkedTask : ParsedObsidianTask :=
  {| originalLine := unlinkedLine; lineNumber := 0; filePath := lit "notes.md";
     content := lit "Pay rent"; isCompleted := false; todoistId := None;
     dueDate := None; priority := NONE; labels := []; description := [];
     lastModified := 7 |}.

Definition unlinked : MockWorld := quietWorld unlinkedLine [].

(** The first invocation has the list of remote tasks and waits for the
    text of the note; then it has the text and runs to its end. *)
Definition noteWaiting : System MockWorld := deliverFirst mock firstWaiting.

Definition passDone : System MockWorld := deliverFirst mock noteWaiting.

(** An invocation that waits for a list of remote tasks that the gateway
    will refuse, and the system once it has been refused. *)
Definition offlineWaiting : System MockWorld :=
  invoked mock {| engine := engine7; world := offline; inflight := [] |}.

Definition offlineDone : System MockWorld := deliverFirst mock offlineWaiting.

Definition fetchFailedResult : SyncResult :=
  push_error (lit "Failed to fetch Todoist tasks: Error: HTTP 500") emptyResult.

(** The plug-in at rest, its gateway without a token. *)
Definition unconfiguredStart : System MockWorld :=
  {| engine := engine7; world := unconfigured; inflight := [] |}.

(** Two linked tasks in one note.  The gateway lists the first with a text
    of two lines and no longer lists the second. *)
Definition milkLine : list N := lit "- [ ] Buy milk #todoist <!-- todoist-id:1 -->".

Definition momLine : list N := lit "- [ ] Call mom #todoist <!-- todoist-id:2 -->".

Definition milkAndEggs : Task :=
  {| task_id := lit "1"; task_content := lit "Buy milk" ++ [10] ++ lit "and eggs";
     task_isCompleted := false; task_priority := 1; task_due := None |}.

Definition record2 : SyncedTask :=
  {| st_todoistId := lit "2"; st_filePath := lit "notes.md"; st_lineNumber := 1;
     contentHash := lit "0"; lastSynced := 0; obsidianCompleted := false;
     todoistCompleted := false |}.

Definition engine2 : SyncEngine := set_tasks (λ _, {[ lit "2" := record2 ]}) freshEngine.

Definition shifting : MockWorld := quietWorld (milkLine ++ [10] ++ momLine) [milkAndEggs].

(** A vault with a file that cannot be read before the note: the host
    answers as the in-memory one, but a read of [locked.md] throws. *)
Definition locked : TFile := {| path := lit "locked.md"; mtime := 3 |}.

Definition locking_answer (X : Type) (c : call X) : MockWorld → X * MockWorld :=
  match c in call X return MockWorld → X * MockWorld with
  | vault_read file => λ w,
      if bool_decide (path file = path locked) then (Thrown (lit "Error: EACCES"), w)
      else mock_answer _ (vault_read file) w
  | c' => mock_answer _ c'
  end.

Definition locking : Host MockWorld := {| answer := locking_answer |}.

Definition lockedVault : MockWorld :=
  with_vault [(locked, lit "- [ ] Feed cat #todoist"); (notes, line7)] tickable.

(** A note with one task that has no id, and a gateway whose ids have
    letters. *)
Definition lettered : MockWorld :=
  {| vault := [(notes, unlinkedLine)]; remote := []; configured := true;
     fetch_error := None; close_error := None; write_error := None;
     new_id := lit "6X7rM8"; clock := 1000 |}.

Set Warnings "-clear-no-such-hyp".

(** * Searching and stripping *)

Section Search.

Context {A : Type} (m : matcher A).

Lemma search_here s a r : m s = Some (a, r) → search m s = Some ([], a, r).
Proof. intros Hm. destruct s; cbn; rewrite Hm; reflexivity. Qed.

Lemma search_cons c s : m (c :: s) = None → search m (c :: s) = shift [c] (search m s).
Proof. intros Hm. cbn. rewrite Hm. destruct (search m s) as [[[pre a] post]|]; reflexivity. Qed.

Lemma search_nil : m [] = None → search m [] = None.
Proof. intros Hm. cbn. rewrite Hm. reflexivity. Qed.

Lemma shift_nil o : shift (A := A) [] o = o.
Proof. destruct o as [[[pre a] post]|]; reflexivity. Qed.

Lemma shift_shift X Y o : shift (A := A) X (shift Y o) = shift (X ++ Y) o.
Proof. destruct o as [[[pre a] post]|]; cbn; [rewrite app_assoc|]; reflexivity. Qed.

Lemma search_skip X Y :
  (∀ X1 X2, X = X1 ++ X2 → X2 ≠ [] → m (X2 ++ Y) = None) →
  search m (X ++ Y) = shift X (search m Y).
Proof.
  induction X as [|c X IH]; intros Hfree.
  - cbn [app]. rewrite shift_nil. reflexivity.
  - cbn [app]. rewrite search_cons.
    + rewrite IH, shift_shift; [reflexivity|].
      intros X1 X2 -> Hne. apply (Hfree (c :: X1) X2); [reflexivity|exact Hne].
    + apply (Hfree [] (c :: X)); [reflexivity|discriminate].
Qed.

Lemma search_skip_chars (ok : N → bool) X Y :
  (∀ c s, ok c = true → m (c :: s) = None) →
  forallb ok X = true →
  search m (X ++ Y) = shift X (search m Y).
Proof.
  intros Hm Hok. apply search_skip. intros X1 X2 -> Hne.
  destruct X2 as [|c X2]; [congruence|].
  apply Hm. rewrite forallb_app in Hok. cbn in Hok.
  apply andb_true_iff in Hok as [_ Hok]. apply andb_true_iff in Hok as [Hc _]. exact Hc.
Qed.

Lemma search_none_chars (ok : N → bool) X :
  (∀ c s, ok c = true → m (c :: s) = None) → m [] = None →
  forallb ok X = true → search m X = None.
Proof.
  intros Hm Hnil Hok. rewrite <- (app_nil_r X), (search_skip_chars ok), search_nil by assumption.
  reflexivity.
Qed.

End Search.

(** ** Character classes *)

Lemma span_all p a b :
  forallb p a = true → span p (a ++ b) = ((a ++ (span p b).1), (span p b).2).
Proof.
  induction a as [|c a IH]; cbn; intros Hp.
  - destruct (span p b); reflexivity.
  - apply andb_true_iff in Hp as [Hc Ha]. rewrite Hc, (IH Ha). reflexivity.
Qed.

Lemma span_stop p c s : p c = false → span p (c :: s) = ([], c :: s).
Proof. intros Hc. cbn. rewrite Hc. reflexivity. Qed.

Lemma span_nil p : span p [] = ([], []).
Proof. reflexivity. Qed.

Lemma skip_all p a b : forallb p a = true → skip p (a ++ b) = skip p b.
Proof. intros Hp. unfold skip. rewrite span_all by exact Hp. reflexivity. Qed.

Lemma skip_stop p c s : p c = false → skip p (c :: s) = c :: s.
Proof. intros Hc. unfold skip. rewrite span_stop by exact Hc. reflexivity. Qed.

Lemma some_class_all p a b :
  a ≠ [] → forallb p a = true → (span p b).1 = [] →
  some_class p (a ++ b) = Some (a, (span p b).2).
Proof.
  intros Hne Hp Hb. unfold some_class. rewrite span_all by exact Hp. rewrite Hb, app_nil_r.
  destruct a; [congruence|reflexivity].
Qed.

Lemma take_class_app p n s x r t :
  take_class p n s = Some (x, r) → take_class p n (s ++ t) = Some (x, r ++ t).
Proof.
  revert s x r. induction n as [|n IH]; intros s x r; cbn.
  - intros [= <- <-]. reflexivity.
  - destruct s as [|c s]; [discriminate|]. cbn. destruct (p c); [|discriminate].
    destruct (take_class p n s) as [[a b]|] eqn:E; [|discriminate].
    intros [= <- <-]. rewrite (IH _ _ _ E). reflexivity.
Qed.

Lemma take_class_spec p n s x r :
  take_class p n s = Some (x, r) → forallb p x = true ∧ s = x ++ r ∧ length x = n.
Proof.
  revert s x r. induction n as [|n IH]; intros s x r; cbn.
  - intros [= <- <-]. repeat split.
  - destruct s as [|c s]; [discriminate|]. destruct (p c) eqn:Hc; [|discriminate].
    destruct (take_class p n s) as [[a b]|] eqn:E; [|discriminate].
    intros [= <- <-]. destruct (IH _ _ _ E) as (Ha & -> & Hl).
    cbn. rewrite Hc, Ha, Hl. repeat split.
Qed.

Lemma strip_with_app eqc l s r t :
  strip_with eqc l s = Some r → strip_with eqc l (s ++ t) = Some (r ++ t).
Proof.
  revert s. induction l as [|a l IH]; intros s; cbn.
  - intros [= <-]. reflexivity.
  - destruct s as [|b s]; [discriminate|]. cbn. destruct (eqc a b); [apply IH|discriminate].
Qed.

Lemma strip_with_spec l s r : strip l s = Some r → s = l ++ r.
Proof.
  unfold strip. revert s. induction l as [|a l IH]; intros s; cbn.
  - intros [= <-]. reflexivity.
  - destruct s as [|b s]; [discriminate|]. destruct (a =? b) eqn:E; [|discriminate].
    apply N.eqb_eq in E as ->. intros Hs. rewrite (IH _ Hs). reflexivity.
Qed.

Lemma strip_self l t : strip l (l ++ t) = Some t.
Proof.
  unfold strip. induction l as [|a l IH]; cbn; [reflexivity|].
  rewrite N.eqb_refl. exact IH.
Qed.

Lemma eq_ci_refl a : eq_ci a a = true.
Proof. unfold eq_ci. apply N.eqb_refl. Qed.

Lemma strip_ci_self l t : strip_with eq_ci l (l ++ t) = Some t.
Proof. induction l as [|a l IH]; cbn; [reflexivity|]. rewrite eq_ci_refl. exact IH. Qed.

Lemma strip_with_first eqc a l c s :
  eqc a c = false → strip_with eqc (a :: l) (c :: s) = None.
Proof. intros Hc. cbn. rewrite Hc. reflexivity. Qed.

Lemma strip_with_nil eqc a l : strip_with eqc (a :: l) [] = None.
Proof. reflexivity. Qed.

Ltac bind_step := cbn [mbind option_bind].

Lemma match_date_app d x r t :
  match_date d = Some (x, r) → match_date (d ++ t) = Some (x, r ++ t).
Proof.
  unfold match_date.
  destruct (take_class is_digit 4 d) as [[y s1]|] eqn:E1; bind_step; [|discriminate].
  rewrite (take_class_app _ _ _ _ _ t E1). bind_step.
  destruct (strip (lit "-") s1) as [s2|] eqn:E2; bind_step; [|discriminate].
  unfold strip in *. rewrite (strip_with_app _ _ _ _ t E2). bind_step.
  destruct (take_class is_digit 2 s2) as [[mo s3]|] eqn:E3; bind_step; [|discriminate].
  rewrite (take_class_app _ _ _ _ _ t E3). bind_step.
  destruct (strip_with N.eqb (lit "-") s3) as [s4|] eqn:E4; bind_step; [|discriminate].
  rewrite (strip_with_app _ _ _ _ t E4). bind_step.
  destruct (take_class is_digit 2 s4) as [[dd s5]|] eqn:E5; bind_step; [|discriminate].
  rewrite (take_class_app _ _ _ _ _ t E5). bind_step.
  intros [= <- <-]. reflexivity.
Qed.

Lemma match_date_chars d x r :
  match_date d = Some (x, r) →
  forallb is_datechar x = true ∧ ∃ c x', x = c :: x' ∧ is_digit c = true.
Proof.
  unfold match_date.
  destruct (take_class is_digit 4 d) as [[y s1]|] eqn:E1; bind_step; [|discriminate].
  destruct (strip (lit "-") s1) as [s2|] eqn:E2; bind_step; [|discriminate].
  destruct (take_class is_digit 2 s2) as [[mo s3]|] eqn:E3; bind_step; [|discriminate].
  destruct (strip (lit "-") s3) as [s4|] eqn:E4; bind_step; [|discriminate].
  destruct (take_class is_digit 2 s4) as [[dd s5]|] eqn:E5; bind_step; [|discriminate].
  intros [= <- <-].
  destruct (take_class_spec _ _ _ _ _ E1) as (Hy & _ & Hly).
  destruct (take_class_spec _ _ _ _ _ E3) as (Hm & _ & _).
  destruct (take_class_spec _ _ _ _ _ E5) as (Hd & _ & _).
  assert (Hdig : ∀ l, forallb is_digit l = true → forallb is_datechar l = true).
  { intros l Hl. apply forallb_forall. intros c Hc. unfold is_datechar.
    rewrite (proj1 (forallb_forall _ _) Hl c Hc). reflexivity. }
  split.
  - rewrite !forallb_app. cbn [forallb]. rewrite !forallb_app. cbn [forallb].
    rewrite (Hdig _ Hy), (Hdig _ Hm), (Hdig _ Hd). reflexivity.
  - destruct y as [|c y]; [discriminate|]. exists c, (y ++ lit "-" ++ mo ++ lit "-" ++ dd).
    cbn in Hy. apply andb_true_iff in Hy as [Hc _]. split; [reflexivity|exact Hc].
Qed.

(** * Character classes and metadata tokens *)

(** Boolean facts about code units, by unfolding the classes. *)
Ltac class_facts :=
  unfold is_datechar, is_tagchar, is_lower_tagchar, is_digit, is_space,
    is_line_terminator, eq_ci, lower in *;
  repeat match goal with
  | H : _ && _ = true |- _ => apply andb_true_iff in H as [? ?]
  | H : _ || _ = true |- _ => apply orb_true_iff in H as [?|?]
  | H : negb _ = true |- _ => apply negb_true_iff in H
  | H : (_ <=? _) = true |- _ => apply N.leb_le in H
  | H : (_ =? _) = true |- _ => apply N.eqb_eq in H
  | H : (_ <=? _) = false |- _ => apply N.leb_gt in H
  | H : (_ =? _) = false |- _ => apply N.eqb_neq in H
  end.

Ltac decide_cmp :=
  match goal with
  | |- context [?a <=? ?b] =>
      first [ replace (a <=? b) with true by (symmetry; apply N.leb_le; lia)
            | replace (a <=? b) with false by (symmetry; apply N.leb_gt; lia)
            | destruct (N.leb_spec a b) ]
  | |- context [?a =? ?b] =>
      first [ replace (a =? b) with true by (symmetry; apply N.eqb_eq; lia)
            | replace (a =? b) with false by (symmetry; apply N.eqb_neq; lia)
            | destruct (N.eqb_spec a b) ]
  end.

Ltac class_solve :=
  intros; class_facts;
  repeat (decide_cmp; cbn [andb orb negb]);
  try reflexivity; try lia.

Lemma terminator_is_space x : is_line_terminator x = true → is_space x = true.
Proof. class_solve. Qed.

Lemma occurs_with_unfold eqc l s :
  occurs_with eqc l s =
  match strip_with eqc l s with
  | Some _ => true
  | None => match s with [] => false | _ :: s' => occurs_with eqc l s' end
  end.
Proof. destruct s; reflexivity. Qed.

Lemma occurs_suffix eqc l c1 c2 :
  occurs_with eqc l (c1 ++ c2) = false → strip_with eqc l c2 = None.
Proof.
  induction c1 as [|a c1 IH]; cbn [app]; rewrite occurs_with_unfold.
  - destruct (strip_with eqc l c2); [discriminate|reflexivity].
  - destruct (strip_with eqc l (a :: c1 ++ c2)); [discriminate|]. exact IH.
Qed.

Lemma strip_before_blank eqc l c2 Y :
  forallb (λ a, negb (eqc a 32)) l = true →
  strip_with eqc l c2 = None → strip_with eqc l (c2 ++ 32 :: Y) = None.
Proof.
  revert c2. induction l as [|a l IH]; intros c2 Hl; cbn.
  - discriminate.
  - cbn in Hl. apply andb_true_iff in Hl as [Ha Hl]. apply negb_true_iff in Ha.
    destruct c2 as [|c c2]; cbn.
    + rewrite Ha. reflexivity.
    + destruct (eqc a c); [apply IH, Hl|reflexivity].
Qed.

Lemma lead_skip {A} (m : matcher A) eqc l c Y :
  (∀ s, strip_with eqc l s = None → m s = None) →
  occurs_with eqc l c = false →
  forallb (λ a, negb (eqc a 32)) l = true →
  search m (lead c ++ Y) = shift (lead c) (search m Y).
Proof.
  intros Hm Hfree Hl. apply search_skip. intros X1 X2 Heq Hne.
  destruct c as [|c0 c]; [destruct X1, X2; cbn in Heq; congruence|].
  unfold lead in Heq.
  destruct (exists_last Hne) as (X2' & z & ->).
  rewrite app_assoc in Heq. apply app_inj_tail in Heq as [Hc <-].
  rewrite <- app_assoc. cbn [app]. apply Hm, strip_before_blank; [exact Hl|].
  apply (occurs_suffix _ _ X1). rewrite <- Hc. exact Hfree.
Qed.

Lemma guarded_headed {A} (m : matcher A) a l :
  guarded N.eqb (a :: l) m → headed a m.
Proof.
  intros Hg. split.
  - apply Hg. reflexivity.
  - intros c s Hc. apply Hg. cbn. rewrite Hc. reflexivity.
Qed.

Lemma todoistId_guarded : guarded N.eqb (lit "<!--") match_todoistId.
Proof. intros s Hs. unfold match_todoistId, strip. rewrite Hs. reflexivity. Qed.

Lemma glyph_date_guarded g : guarded N.eqb g (match_glyph_date g).
Proof. intros s Hs. unfold match_glyph_date, strip. rewrite Hs. reflexivity. Qed.

Lemma lit_guarded g : guarded N.eqb g (match_lit g).
Proof. intros s Hs. unfold match_lit, strip. rewrite Hs. reflexivity. Qed.

Lemma textDueDate_guarded : guarded eq_ci (lit "due:") match_textDueDate.
Proof. intros s Hs. unfold match_textDueDate. rewrite Hs. reflexivity. Qed.

Lemma hashtag_guarded : guarded N.eqb (lit "#") match_hashtag.
Proof. intros s Hs. unfold match_hashtag, strip. rewrite Hs. reflexivity. Qed.

Lemma eq_ci_hash c : eq_ci 35 c = (35 =? c).
Proof. class_solve. Qed.

Lemma syncTag_guarded name : guarded N.eqb (lit "#") (match_syncTag (35 :: name)).
Proof.
  intros s Hs. unfold match_syncTag. destruct s as [|c s]; [reflexivity|].
  change (lit "#") with [35] in Hs. cbn [strip_with] in *.
  rewrite eq_ci_hash. destruct (35 =? c); [discriminate|reflexivity].
Qed.

Lemma textDueDate_headed :
  match_textDueDate [] = None ∧ ∀ c s, eq_ci 100 c = false → match_textDueDate (c :: s) = None.
Proof.
  split; [reflexivity|]. intros c s Hc. apply textDueDate_guarded.
  change (lit "due:") with (100 :: lit "ue:"). cbn [strip_with]. rewrite Hc. reflexivity.
Qed.

Lemma skip_headed {A} (m : matcher A) a ok X Y :
  headed a m → excludes ok a → forallb ok X = true →
  search m (X ++ Y) = shift X (search m Y).
Proof.
  intros [_ Hm] Hex Hok. apply (search_skip_chars m ok); [|exact Hok].
  intros c s Hc. apply Hm, Hex, Hc.
Qed.

Lemma tagtext_excludes_lt : excludes is_tagtext 60.
Proof. intros c Hc. unfold is_tagtext in Hc. class_solve. Qed.

Lemma tagtext_excludes_F8FF : excludes is_tagtext 0xF8FF.
Proof. intros c Hc. unfold is_tagtext in Hc. class_solve. Qed.

Lemma tagtext_excludes_201A : excludes is_tagtext 0x201A.
Proof. intros c Hc. unfold is_tagtext in Hc. class_solve. Qed.

Lemma datechar_excludes_lt : excludes is_datechar 60.
Proof. intros c Hc. class_solve. Qed.

Lemma datechar_excludes_F8FF : excludes is_datechar 0xF8FF.
Proof. intros c Hc. class_solve. Qed.

Lemma datechar_excludes_201A : excludes is_datechar 0x201A.
Proof. intros c Hc. class_solve. Qed.

Lemma datechar_excludes_hash : excludes is_datechar 35.
Proof. intros c Hc. class_solve. Qed.

Lemma digit_excludes_lt : excludes is_digit 60.
Proof. intros c Hc. class_solve. Qed.

Lemma digit_excludes_F8FF : excludes is_digit 0xF8FF.
Proof. intros c Hc. class_solve. Qed.

Lemma digit_excludes_201A : excludes is_digit 0x201A.
Proof. intros c Hc. class_solve. Qed.

Lemma digit_excludes_hash : excludes is_digit 35.
Proof. intros c Hc. class_solve. Qed.

Lemma digit_not_d c : is_digit c = true → eq_ci 100 c = false.
Proof. class_solve. Qed.

Lemma datechar_not_d c : is_datechar c = true → eq_ci 100 c = false.
Proof. class_solve. Qed.

Lemma tagchar_tagtext l : forallb is_tagchar l = true → forallb is_tagtext l = true.
Proof.
  intros Hl. apply forallb_forall. intros c Hc. unfold is_tagtext.
  rewrite (proj1 (forallb_forall _ _) Hl c Hc). reflexivity.
Qed.

Lemma lower_tagchar_tagchar l :
  forallb is_lower_tagchar l = true → forallb is_tagchar l = true.
Proof.
  intros Hl. apply forallb_forall. intros c Hc.
  pose proof (proj1 (forallb_forall _ _) Hl c Hc) as H. class_solve.
Qed.

Lemma forallb_weaken (p q : N → bool) l :
  (∀ c, p c = true → q c = true) → forallb p l = true → forallb q l = true.
Proof.
  intros Hpq Hl. apply forallb_forall. intros c Hc.
  apply Hpq, (proj1 (forallb_forall _ _) Hl c Hc).
Qed.

(** ** [due:] needs its colon *)

Lemma eq_ci_colon c : eq_ci 58 c = (58 =? c).
Proof. class_solve. Qed.

Lemma textDueDate_needs_colon X Y :
  forallb (λ c, negb (58 =? c)) X = true →
  (Y = [] ∨ ∃ Y', Y = 32 :: Y') →
  search match_textDueDate (X ++ Y) = shift X (search match_textDueDate Y).
Proof.
  intros HX HY. apply search_skip. intros X1 X2 -> Hne.
  apply textDueDate_guarded.
  rewrite forallb_app in HX. apply andb_true_iff in HX as [_ HX].
  change (lit "due:") with [100; 117; 101; 58].
  destruct X2 as [|a [|b [|c [|d X2]]]]; [congruence| | | |];
    cbn [app strip_with forallb] in *.
  - destruct (eq_ci 100 a); [|reflexivity].
    destruct HY as [->|[Y' ->]]; reflexivity.
  - destruct (eq_ci 100 a); [|reflexivity]. destruct (eq_ci 117 b); [|reflexivity].
    destruct HY as [->|[Y' ->]]; reflexivity.
  - destruct (eq_ci 100 a); [|reflexivity]. destruct (eq_ci 117 b); [|reflexivity].
    destruct (eq_ci 101 c); [|reflexivity].
    destruct HY as [->|[Y' ->]]; reflexivity.
  - destruct (eq_ci 100 a); [|reflexivity]. destruct (eq_ci 117 b); [|reflexivity].
    destruct (eq_ci 101 c); [|reflexivity].
    rewrite eq_ci_colon.
    repeat (apply andb_true_iff in HX as [? HX]).
    match goal with H : negb (58 =? d) = true |- _ => apply negb_true_iff in H; rewrite H end.
    reflexivity.
Qed.

(** ** White space *)

Lemma single_spaced_last c x :
  single_spaced (c ++ [x]) = true → is_space x = false.
Proof.
  induction c as [|a c IH]; cbn.
  - destruct (is_space x); [rewrite andb_false_r; discriminate|reflexivity].
  - intros H. apply andb_true_iff in H as [_ H]. apply IH, H.
Qed.

Lemma collapse_run_blank b : forallb is_space b = true → collapse_from true b = [].
Proof.
  induction b as [|x b IH]; cbn; [reflexivity|]. intros Hb.
  apply andb_true_iff in Hb as [Hx Hb]. rewrite Hx. cbn. apply IH, Hb.
Qed.

Lemma collapse_blank b :
  forallb is_space b = true → forallb is_space (collapse_from false b) = true.
Proof.
  destruct b as [|x b]; cbn; [reflexivity|]. intros Hb.
  apply andb_true_iff in Hb as [Hx Hb]. rewrite Hx, (collapse_run_blank _ Hb). reflexivity.
Qed.

Lemma collapse_single_spaced c b :
  single_spaced c = true → collapse_from false (c ++ b) = c ++ collapse_from false b.
Proof.
  induction c as [|a c IH]; [reflexivity|].
  intros Hc. cbn [single_spaced] in Hc. apply andb_true_iff in Hc as [Ha Hc].
  cbn [app collapse_from]. destruct (is_space a) eqn:Esp.
  - apply andb_true_iff in Ha as [Ea Hnext]. apply N.eqb_eq in Ea as ->.
    destruct c as [|d c]; [discriminate|]. apply negb_true_iff in Hnext.
    specialize (IH Hc). cbn [app collapse_from] in *. rewrite Hnext in *.
    rewrite IH. reflexivity.
  - rewrite (IH Hc). reflexivity.
Qed.

Lemma forallb_rev (p : N → bool) l : forallb p (rev l) = forallb p l.
Proof.
  induction l as [|a l IH]; [reflexivity|]. cbn. rewrite forallb_app, IH. cbn.
  rewrite andb_true_r. apply andb_comm.
Qed.

Lemma trim_content c t :
  ws_normal c = true → forallb is_space t = true → trim (c ++ t) = c.
Proof.
  intros Hc Ht. unfold trim. destruct c as [|c0 c].
  - cbn [app]. rewrite <- (app_nil_r t), skip_all by exact Ht. reflexivity.
  - cbn [ws_normal] in Hc. apply andb_true_iff in Hc as [H0 Hs].
    apply negb_true_iff in H0. cbn [app]. rewrite skip_stop by exact H0.
    change (c0 :: c ++ t) with ((c0 :: c) ++ t). rewrite rev_app_distr.
    rewrite skip_all by (rewrite forallb_rev; exact Ht).
    destruct (exists_last (l := c0 :: c)) as (c' & z & Hz); [discriminate|].
    rewrite Hz in *. rewrite rev_app_distr. cbn [rev app].
    rewrite skip_stop by (eapply single_spaced_last; exact Hs).
    change (z :: rev c') with (rev [z] ++ rev c'). rewrite <- rev_app_distr, rev_involutive.
    reflexivity.
Qed.

(** The cleaning of what is left of the line once the tokens are out: the
    content and blanks. *)
Lemma tidy_content c b :
  ws_normal c = true → forallb is_space b = true →
  trim (collapse_ws (c ++ b)) = c.
Proof.
  intros Hc Hb. unfold collapse_ws.
  assert (Hs : single_spaced c = true).
  { destruct c; [reflexivity|]. cbn [ws_normal] in Hc.
    apply andb_true_iff in Hc as [_ Hs]. exact Hs. }
  rewrite (collapse_single_spaced _ _ Hs).
  apply trim_content; [exact Hc|apply collapse_blank, Hb].
Qed.

(** * The shape of a serialised line *)

Lemma labels_foldl ls line :
  foldl (λ line label, line ++ lit " #" ++ label) line ls = line ++ labelText ls.
Proof.
  revert line. induction ls as [|l ls IH]; intros line; cbn [foldl labelText foldr].
  - rewrite app_nil_r. reflexivity.
  - rewrite IH. fold (labelText ls). rewrite <- !app_assoc. reflexivity.
Qed.

Lemma buildTaskLine_shape task syncTag :
  buildTaskLine task syncTag =
  lit "- " ++ (if isCompleted task then lit "[x]" else lit "[ ]") ++ lit " "
  ++ content task ++ lit " " ++ syncTag ++ labelText (labels task)
  ++ tailP (priority task) ++ tailD (dueDate task) ++ tailI (todoistId task).
Proof.
  unfold buildTaskLine, tailP, tailD, tailI. rewrite labels_foldl.
  destruct (priority task =? HIGH)%Z, (priority task =? MEDIUM)%Z,
    (priority task =? LOW)%Z, (truthy (dueDate task)), (truthy (todoistId task));
    rewrite <- ?app_assoc, ?app_nil_r; reflexivity.
Qed.

(** ** Matches at the tokens *)

Lemma match_lit_self g rest : match_lit g (g ++ rest) = Some ((), rest).
Proof. unfold match_lit. rewrite (strip_self g). reflexivity. Qed.

Lemma match_syncTag_self tag rest : match_syncTag tag (tag ++ rest) = Some ((), rest).
Proof. unfold match_syncTag. rewrite (strip_ci_self tag). reflexivity. Qed.

Lemma match_glyph_date_built g d rest :
  match_date d = Some (d, []) →
  match_glyph_date g (g ++ 32 :: d ++ rest) = Some (d, rest).
Proof.
  intros Hd. unfold match_glyph_date. rewrite (strip_self g). bind_step.
  destruct (match_date_chars _ _ _ Hd) as (_ & c & d' & -> & Hc).
  change (32 :: (c :: d') ++ rest) with ([32] ++ (c :: d') ++ rest).
  rewrite skip_all by reflexivity. cbn [app]. rewrite skip_stop by class_solve.
  apply (match_date_app (c :: d') (c :: d') [] rest Hd).
Qed.

Lemma skip_head p l rest :
  match l with c :: _ => negb (p c) | [] => false end = true →
  skip p (l ++ rest) = l ++ rest.
Proof.
  destruct l as [|c l]; [discriminate|]. intros Hc. apply negb_true_iff in Hc.
  cbn [app]. apply skip_stop, Hc.
Qed.

Lemma match_todoistId_built id :
  id ≠ [] → forallb is_digit id = true →
  match_todoistId (lit "<!-- todoist-id:" ++ id ++ lit " -->") = Some (id, []).
Proof.
  intros Hne Hid. unfold match_todoistId.
  change (lit "<!-- todoist-id:") with (lit "<!--" ++ [32] ++ lit "todoist-id:").
  rewrite <- !app_assoc, (strip_self (lit "<!--")). bind_step.
  rewrite skip_all by reflexivity. rewrite skip_head by reflexivity.
  rewrite (strip_self (lit "todoist-id:")). bind_step.
  assert (Hskip : skip is_space (id ++ lit " -->") = id ++ lit " -->").
  { destruct id as [|c id]; [congruence|]. cbn [app]. apply skip_stop.
    cbn in Hid. apply andb_true_iff in Hid as [Hc _]. class_solve. }
  rewrite Hskip, (some_class_all is_digit id (lit " -->") Hne Hid eq_refl). bind_step.
  reflexivity.
Qed.

Lemma match_hashtag_built name rest :
  name ≠ [] → forallb is_tagchar name = true → (span is_tagchar rest).1 = [] →
  match_hashtag (35 :: name ++ rest) = Some (name, (span is_tagchar rest).2).
Proof.
  intros Hne Hname Hrest. unfold match_hashtag.
  change (35 :: name ++ rest) with (lit "#" ++ name ++ rest).
  rewrite (strip_self (lit "#")). bind_step. apply some_class_all; assumption.
Qed.

(** * What each pattern finds after the marker *)

(** ** Where a match cannot start *)

Lemma todoistId_start c s : (60 =? c) = false → match_todoistId (c :: s) = None.
Proof. apply (guarded_headed _ _ _ todoistId_guarded). Qed.

Lemma dueDate_start c s : (0xF8FF =? c) = false → match_dueDate (c :: s) = None.
Proof. apply (guarded_headed _ _ _ (glyph_date_guarded glyph_dueDate)). Qed.

Lemma scheduledDate_start c s : (0x201A =? c) = false → match_scheduledDate (c :: s) = None.
Proof. apply (guarded_headed _ _ _ (glyph_date_guarded glyph_scheduledDate)). Qed.

Lemma startDate_start c s : (0xF8FF =? c) = false → match_startDate (c :: s) = None.
Proof. apply (guarded_headed _ _ _ (glyph_date_guarded glyph_startDate)). Qed.

Lemma doneDate_start c s : (0x201A =? c) = false → match_doneDate (c :: s) = None.
Proof. apply (guarded_headed _ _ _ (glyph_date_guarded glyph_doneDate)). Qed.

Lemma highPriority_start c s : (0x201A =? c) = false → match_highPriority (c :: s) = None.
Proof. apply (guarded_headed _ _ _ (lit_guarded glyph_highPriority)). Qed.

Lemma mediumPriority_start c s : (0xF8FF =? c) = false → match_mediumPriority (c :: s) = None.
Proof. apply (guarded_headed _ _ _ (lit_guarded glyph_mediumPriority)). Qed.

Lemma lowPriority_start c s : (0xF8FF =? c) = false → match_lowPriority (c :: s) = None.
Proof. apply (guarded_headed _ _ _ (lit_guarded glyph_lowPriority)). Qed.

Lemma hashtag_start c s : (35 =? c) = false → match_hashtag (c :: s) = None.
Proof. apply (guarded_headed _ _ _ hashtag_guarded). Qed.

Lemma syncTag_start name c s : (35 =? c) = false → match_syncTag (35 :: name) (c :: s) = None.
Proof. apply (guarded_headed _ _ _ (syncTag_guarded name)). Qed.

Lemma textDueDate_start c s : eq_ci 100 c = false → match_textDueDate (c :: s) = None.
Proof. apply textDueDate_headed. Qed.

Create HintDb starts.

#[local] Hint Resolve todoistId_start dueDate_start scheduledDate_start startDate_start
  doneDate_start highPriority_start mediumPriority_start lowPriority_start hashtag_start
  syncTag_start textDueDate_start : starts.

#[local] Hint Resolve tagtext_excludes_lt tagtext_excludes_F8FF tagtext_excludes_201A
  datechar_excludes_lt datechar_excludes_F8FF datechar_excludes_201A datechar_excludes_hash
  digit_excludes_lt digit_excludes_F8FF digit_excludes_201A digit_excludes_hash
  digit_not_d datechar_not_d : starts.

(** Evaluate the literals, then walk along a string whose variable pieces
    are a date and an id. *)
Ltac lits :=
  repeat match goal with
  | |- context [lit ?s] => let v := eval vm_compute in (lit s) in change (lit s) with v
  end.

Ltac no_start := intros ? ? ?; eauto with starts.

Ltac walk :=
  repeat match goal with
  | |- context [search ?m []] => rewrite (search_nil m) by reflexivity
  | Hs : forallb ?ok ?seg = true |- context [search ?m (?seg ++ ?rest)] =>
      rewrite (search_skip_chars m ok seg rest) by (first [no_start | exact Hs])
  | |- context [search ?m (?c :: ?s)] =>
      first [ rewrite (search_cons m c s) by reflexivity
            | rewrite (search_here m (c :: s) _ _ ltac:(eauto with tokens)) ]
  end;
  cbn [shift app].

Create HintDb tokens.

Section Tail.

Variables (dd tid : list N).

Hypothesis Hdate : match_date dd = Some (dd, []).

Hypothesis Hdd : forallb is_datechar dd = true.

Hypothesis Hidne : tid ≠ [].

Hypothesis Hid : forallb is_digit tid = true.

Lemma id_token : match_todoistId (60 :: 33 :: 45 :: 45 :: 32 :: 116 :: 111 :: 100 :: 111
    :: 105 :: 115 :: 116 :: 45 :: 105 :: 100 :: 58 :: tid ++ [32; 45; 45; 62]) = Some (tid, []).
Proof. exact (match_todoistId_built tid Hidne Hid). Qed.

Lemma due_token rest :
  match_dueDate (63743 :: 252 :: 236 :: 214 :: 32 :: dd ++ rest) = Some (dd, rest).
Proof. exact (match_glyph_date_built glyph_dueDate dd rest Hdate). Qed.

#[local] Hint Resolve id_token due_token : tokens.

Lemma truthy_dd : truthy (Some dd) = true.
Proof. destruct (match_date_chars _ _ _ Hdate) as (_ & c & d' & -> & _). reflexivity. Qed.

Lemma truthy_id : truthy (Some tid) = true.
Proof. destruct tid; [congruence|reflexivity]. Qed.

Ltac open_tails :=
  unfold tails, third, tailP, tailD, tailI; rewrite ?truthy_dd, ?truthy_id;
  cbn [truthy default from_option Datatypes.id Z.eqb Pos.eqb HIGH MEDIUM LOW NONE];
  unfold glyph_highPriority, glyph_mediumPriority, glyph_lowPriority, glyph_dueDate;
  lits; cbn [app].

Lemma priority_cases p :
  wf_priority p = true → p = 1%Z ∨ p = 2%Z ∨ p = 3%Z ∨ p = 4%Z.
Proof.
  unfold wf_priority, NONE, LOW, MEDIUM, HIGH.
  rewrite !orb_true_iff, !Z.eqb_eq. tauto.
Qed.

Ltac tail_cases Hp d k :=
  destruct (priority_cases _ Hp) as [-> | [-> | [-> | ->]]];
  destruct d; destruct k as [|[|k]].

Lemma tails_todoistId p d k :
  wf_priority p = true →
  search match_todoistId (tails dd tid p d k) =
  match k with
  | S (S _) => Some (tailP p ++ tailD (if d then Some dd else None) ++ [32], tid, [])
  | _ => None
  end.
Proof. intros Hp. tail_cases Hp d k; open_tails; walk; reflexivity. Qed.

Lemma tails_dueDate p d k :
  wf_priority p = true →
  search match_dueDate (tails dd tid p d k) =
  if d then Some (tailP p ++ [32], dd, third tid k) else None.
Proof. intros Hp. tail_cases Hp d k; open_tails; walk; reflexivity. Qed.

Lemma tails_scheduledDate p d k :
  wf_priority p = true → search match_scheduledDate (tails dd tid p d k) = None.
Proof. intros Hp. tail_cases Hp d k; open_tails; walk; reflexivity. Qed.

Lemma tails_textDueDate p d k :
  wf_priority p = true → search match_textDueDate (tails dd tid p d k) = None.
Proof. intros Hp. tail_cases Hp d k; open_tails; walk; reflexivity. Qed.

Lemma tails_highPriority p d k :
  wf_priority p = true → test match_highPriority (tails dd tid p d k) = (p =? HIGH)%Z.
Proof. intros Hp. unfold test. tail_cases Hp d k; open_tails; walk; reflexivity. Qed.

Lemma tails_mediumPriority p d k :
  wf_priority p = true → test match_mediumPriority (tails dd tid p d k) = (p =? MEDIUM)%Z.
Proof. intros Hp. unfold test. tail_cases Hp d k; open_tails; walk; reflexivity. Qed.

Lemma tails_lowPriority p d k :
  wf_priority p = true → test match_lowPriority (tails dd tid p d k) = (p =? LOW)%Z.
Proof. intros Hp. unfold test. tail_cases Hp d k; open_tails; walk; reflexivity. Qed.

Lemma tails_hashtag p d k :
  wf_priority p = true → search match_hashtag (tails dd tid p d k) = None.
Proof. intros Hp. tail_cases Hp d k; open_tails; walk; reflexivity. Qed.

Lemma tails_syncTag name p d k :
  wf_priority p = true → search (match_syncTag (35 :: name)) (tails dd tid p d k) = None.
Proof. intros Hp. tail_cases Hp d k; open_tails; walk; reflexivity. Qed.

Lemma tails_blank p d k :
  wf_priority p = true → tails dd tid p d k = [] ∨ ∃ Y, tails dd tid p d k = 32 :: Y.
Proof.
  intros Hp. tail_cases Hp d k; open_tails;
    first [left; reflexivity | right; eexists; reflexivity].
Qed.

Lemma tails_one_line p d k :
  wf_priority p = true →
  forallb (λ c, negb (is_line_terminator c)) (tails dd tid p d k) = true.
Proof.
  assert (Hd : forallb (λ c, negb (is_line_terminator c)) dd = true).
  { eapply forallb_weaken; [|exact Hdd]. intros c Hc. class_solve. }
  assert (Hi : forallb (λ c, negb (is_line_terminator c)) tid = true).
  { eapply forallb_weaken; [|exact Hid]. intros c Hc. class_solve. }
  intros Hp. tail_cases Hp d k; open_tails;
    repeat (progress (cbn [forallb]; rewrite ?forallb_app, ?Hd, ?Hi)); reflexivity.
Qed.

End Tail.

(** * Cleaning the content *)

(** ** The content and the tags before the tail *)

Lemma token_free_spec c :
  token_free c = true →
  (∀ l, In l metadata_tokens → occurs_with N.eqb l c = false)
  ∧ occurs_with eq_ci (lit "due:") c = false.
Proof.
  unfold token_free. intros H. apply andb_true_iff in H as [Htok Hdue].
  split.
  - intros l Hl. apply negb_true_iff. exact (proj1 (forallb_forall _ _) Htok l Hl).
  - apply negb_true_iff, Hdue.
Qed.

Lemma prefix_skip {A} (m : matcher A) l a c Z S :
  In l metadata_tokens → guarded N.eqb l m → headed a m → excludes is_tagtext a →
  token_free c = true → forallb is_tagtext Z = true →
  search m (lead c ++ Z ++ S) = shift (lead c ++ Z) (search m S).
Proof.
  intros Hl Hg Hh Hex Hc HZ.
  rewrite (lead_skip m N.eqb l c); [| exact Hg | apply (token_free_spec c Hc), Hl |].
  - rewrite (skip_headed m a is_tagtext Z S Hh Hex HZ), shift_shift. reflexivity.
  - cbn in Hl. clear -Hl.
    repeat (destruct Hl as [<-|Hl]; [reflexivity|]). destruct Hl.
Qed.

Lemma prefix_skip_textDueDate c Z S :
  token_free c = true → forallb is_tagtext Z = true →
  (S = [] ∨ ∃ Y, S = 32 :: Y) →
  search match_textDueDate (lead c ++ Z ++ S)
  = shift (lead c ++ Z) (search match_textDueDate S).
Proof.
  intros Hc HZ HS.
  rewrite (lead_skip match_textDueDate eq_ci (lit "due:") c);
    [| exact textDueDate_guarded | apply (token_free_spec c Hc) | reflexivity].
  rewrite textDueDate_needs_colon, shift_shift; [reflexivity| |exact HS].
  eapply forallb_weaken; [|exact HZ]. intros x Hx. unfold is_tagtext in Hx. class_solve.
Qed.

Lemma in_tokens_hash : In (lit "#") metadata_tokens.
Proof. cbn. tauto. Qed.

Lemma in_tokens_id : In (lit "<!--") metadata_tokens.
Proof. cbn. tauto. Qed.

Lemma in_tokens_dueDate : In glyph_dueDate metadata_tokens.
Proof. cbn. tauto. Qed.

Lemma in_tokens_scheduledDate : In glyph_scheduledDate metadata_tokens.
Proof. cbn. tauto. Qed.

Lemma in_tokens_startDate : In glyph_startDate metadata_tokens.
Proof. cbn. tauto. Qed.

Lemma in_tokens_doneDate : In glyph_doneDate metadata_tokens.
Proof. cbn. tauto. Qed.

Lemma in_tokens_highPriority : In glyph_highPriority metadata_tokens.
Proof. cbn. tauto. Qed.

Lemma in_tokens_mediumPriority : In glyph_mediumPriority metadata_tokens.
Proof. cbn. tauto. Qed.

Lemma in_tokens_lowPriority : In glyph_lowPriority metadata_tokens.
Proof. cbn. tauto. Qed.

Lemma lead_skip_token {A} (m : matcher A) l c Y :
  In l metadata_tokens → guarded N.eqb l m → token_free c = true →
  search m (lead c ++ Y) = shift (lead c) (search m Y).
Proof.
  intros Hl Hg Hc.
  apply (lead_skip m N.eqb l c); [exact Hg | apply (token_free_spec c Hc), Hl |].
  cbn in Hl. clear -Hl.
  repeat (destruct Hl as [<-|Hl]; [reflexivity|]). destruct Hl.
Qed.

Lemma replace_first_lead {A} (m : matcher A) l c K :
  In l metadata_tokens → guarded N.eqb l m → token_free c = true →
  replace_first m [] (lead c ++ K) = lead c ++ replace_first m [] K.
Proof.
  intros Hl Hg Hc. unfold replace_first. rewrite (lead_skip_token m l c K Hl Hg Hc).
  destruct (search m K) as [[[pre a] post]|]; cbn [shift]; [|reflexivity].
  rewrite <- app_assoc. reflexivity.
Qed.

Lemma replace_first_lead_textDueDate c K :
  token_free c = true →
  replace_first match_textDueDate [] (lead c ++ K)
  = lead c ++ replace_first match_textDueDate [] K.
Proof.
  intros Hc. unfold replace_first.
  rewrite (lead_skip match_textDueDate eq_ci (lit "due:") c);
    [| exact textDueDate_guarded | apply (token_free_spec c Hc) | reflexivity].
  destruct (search match_textDueDate K) as [[[pre a] post]|]; cbn [shift]; [|reflexivity].
  rewrite <- app_assoc. reflexivity.
Qed.

Lemma strip_rest_lead c K :
  token_free c = true →
  replace_first match_textDueDate []
    (replace_first match_lowPriority []
      (replace_first match_mediumPriority []
        (replace_first match_highPriority []
          (replace_first match_doneDate []
            (replace_first match_startDate []
              (replace_first match_scheduledDate [] (lead c ++ K)))))))
  = lead c ++ strip_rest K.
Proof.
  intros Hc. unfold strip_rest.
  rewrite (replace_first_lead match_scheduledDate _ c K in_tokens_scheduledDate
             (glyph_date_guarded _) Hc).
  rewrite (replace_first_lead match_startDate _ c _ in_tokens_startDate
             (glyph_date_guarded _) Hc).
  rewrite (replace_first_lead match_doneDate _ c _ in_tokens_doneDate
             (glyph_date_guarded _) Hc).
  rewrite (replace_first_lead match_highPriority _ c _ in_tokens_highPriority
             (lit_guarded _) Hc).
  rewrite (replace_first_lead match_mediumPriority _ c _ in_tokens_mediumPriority
             (lit_guarded _) Hc).
  rewrite (replace_first_lead match_lowPriority _ c _ in_tokens_lowPriority
             (lit_guarded _) Hc).
  apply replace_first_lead_textDueDate, Hc.
Qed.

Lemma lead_tidy c b :
  ws_normal c = true → forallb is_space b = true →
  trim (collapse_ws (lead c ++ b)) = c.
Proof.
  intros Hc Hb. destruct c as [|c0 c]; [exact (tidy_content [] b Hc Hb)|].
  unfold lead. rewrite <- app_assoc. apply tidy_content; [exact Hc|].
  cbn. exact Hb.
Qed.

(** ** The labels *)

Lemma labelText_tagtext syncTag ls :
  forallb (wf_label syncTag) ls = true → forallb is_tagtext (labelText ls) = true.
Proof.
  induction ls as [|l ls IH]; [reflexivity|]. cbn [forallb labelText foldr].
  intros H. apply andb_true_iff in H as [Hl Hls]. fold (labelText ls).
  unfold wf_label in Hl. apply andb_true_iff in Hl as [Hl _].
  apply andb_true_iff in Hl as [_ Hl].
  rewrite !forallb_app, (IH Hls), (tagchar_tagtext _ (lower_tagchar_tagchar _ Hl)).
  reflexivity.
Qed.

Lemma labelText_length ls : (length ls ≤ length (labelText ls))%nat.
Proof.
  induction ls as [|l ls IH]; cbn [labelText foldr length]; [lia|].
  fold (labelText ls). rewrite !length_app. cbn. lia.
Qed.

Lemma exec_labels syncTag ls fuel rest :
  forallb (wf_label syncTag) ls = true →
  (length ls < fuel)%nat →
  search match_hashtag rest = None →
  (rest = [] ∨ ∃ Y, rest = 32 :: Y) →
  exec_all_fuel fuel match_hashtag (labelText ls ++ rest) = ls.
Proof.
  intros Hls Hfuel Hrest Hblank. revert fuel Hfuel.
  induction ls as [|l ls IH]; intros fuel Hfuel.
  - destruct fuel as [|fuel]; [cbn in Hfuel; lia|]. cbn [labelText foldr app exec_all_fuel].
    rewrite Hrest. reflexivity.
  - destruct fuel as [|fuel]; [cbn in Hfuel; lia|].
    cbn [forallb] in Hls. apply andb_true_iff in Hls as [Hl Hls].
    unfold wf_label in Hl. apply andb_true_iff in Hl as [Hl _].
    apply andb_true_iff in Hl as [Hne Hl].
    cbn [labelText foldr]. fold (labelText ls).
    change (lit " #") with [32; 35]. rewrite <- !app_assoc. cbn [app exec_all_fuel].
    assert (Hnext : (span is_tagchar (labelText ls ++ rest)).1 = []
                    ∧ (span is_tagchar (labelText ls ++ rest)).2 = labelText ls ++ rest).
    { destruct ls as [|l' ls]; cbn [labelText foldr app].
      - destruct Hblank as [->|[Y ->]]; [split; reflexivity|].
        rewrite span_stop by reflexivity. split; reflexivity.
      - change (lit " #") with [32; 35]. cbn [app].
        rewrite span_stop by reflexivity. split; reflexivity. }
    destruct Hnext as [Hn1 Hn2].
    rewrite (search_cons match_hashtag 32) by reflexivity.
    rewrite (search_here match_hashtag _ l (labelText ls ++ rest)).
    + cbn [shift]. rewrite (IH Hls); [reflexivity|]. cbn in Hfuel. lia.
    + rewrite <- Hn2 at 2. apply match_hashtag_built; [|exact (lower_tagchar_tagchar _ Hl)|exact Hn1].
      destruct l; [discriminate|discriminate].
Qed.

Lemma toLowerCase_lower l : forallb is_lower_tagchar l = true → toLowerCase l = l.
Proof.
  unfold toLowerCase. induction l as [|c l IH]; [reflexivity|]. cbn [forallb fmap list_fmap].
  intros H. apply andb_true_iff in H as [Hc Hl]. rewrite (IH Hl). f_equal.
  unfold lower. class_solve.
Qed.

Lemma labels_kept syncTag ls :
  forallb (wf_label syncTag) ls = true →
  filter (λ tag, tag ≠ toLowerCase (drop_hash syncTag)) (toLowerCase <$> ls) = ls.
Proof.
  induction ls as [|l ls IH]; [reflexivity|]. cbn [forallb fmap list_fmap].
  intros H. apply andb_true_iff in H as [Hl Hls].
  unfold wf_label in Hl. apply andb_true_iff in Hl as [Hl Hdiff].
  apply andb_true_iff in Hl as [_ Hl]. apply negb_true_iff, bool_decide_eq_false in Hdiff.
  fold (toLowerCase l). rewrite (toLowerCase_lower _ Hl).
  rewrite filter_cons_True by exact Hdiff. f_equal. apply IH, Hls.
Qed.

(** * Parsing a serialised line *)

(** ** The task expression on a serialised line *)

Lemma span_go p c s : p c = true → span p (c :: s) = (c :: (span p s).1, (span p s).2).
Proof. intros Hc. cbn. rewrite Hc. destruct (span p s); reflexivity. Qed.

Lemma match_task_built cb b T :
  is_checkbox cb = true →
  forallb is_space b = true →
  (span is_space T).1 = [] → (span is_space T).2 = T →
  forallb (λ c, negb (is_line_terminator c)) T = true →
  match_task (lit "- " ++ [91; cb; 93] ++ lit " " ++ b ++ T) = Some ([], cb, T).
Proof.
  intros Hcb Hb HT1 HT2 Hline. unfold match_task.
  change (lit "- ") with [45; 32]. change (lit " ") with [32]. cbn [app].
  rewrite (span_stop is_space 45) by reflexivity.
  change (is_bullet 45) with true. cbn iota.
  unfold some_class.
  rewrite (span_go is_space 32) by reflexivity.
  rewrite (span_stop is_space 91) by reflexivity. cbn [fst snd]. bind_step.
  rewrite Hcb.
  rewrite (span_go is_space 32) by reflexivity.
  rewrite (span_all is_space b T) by exact Hb.
  rewrite HT1, HT2. cbn [fst snd]. bind_step.
  rewrite Hline. reflexivity.
Qed.

Lemma single_spaced_one_line l :
  single_spaced l = true → forallb (λ x, negb (is_line_terminator x)) l = true.
Proof.
  induction l as [|x l IH]; [reflexivity|]. cbn [single_spaced forallb].
  intros H. apply andb_true_iff in H as [Hx Hl]. rewrite (IH Hl), andb_true_r.
  destruct (is_space x) eqn:Esp.
  - apply andb_true_iff in Hx as [Hx _]. apply N.eqb_eq in Hx as ->. reflexivity.
  - apply negb_true_iff.
    destruct (is_line_terminator x) eqn:El; [|reflexivity].
    rewrite (terminator_is_space _ El) in Esp. discriminate.
Qed.

Lemma ws_normal_one_line c :
  ws_normal c = true → forallb (λ x, negb (is_line_terminator x)) (lead c) = true.
Proof.
  intros Hc. destruct c as [|c0 c]; [reflexivity|].
  cbn [ws_normal] in Hc. apply andb_true_iff in Hc as [_ Hs].
  unfold lead. rewrite forallb_app, (single_spaced_one_line _ Hs). reflexivity.
Qed.

Lemma lead_head c rest :
  ws_normal c = true →
  (span is_space (lead c ++ 35 :: rest)).1 = []
  ∧ (span is_space (lead c ++ 35 :: rest)).2 = lead c ++ 35 :: rest.
Proof.
  intros Hc. destruct c as [|c0 c].
  - cbn [lead app]. rewrite span_stop by reflexivity. split; reflexivity.
  - cbn [ws_normal] in Hc. apply andb_true_iff in Hc as [H0 _].
    apply negb_true_iff in H0. cbn [lead app].
    rewrite span_stop by exact H0. split; reflexivity.
Qed.

Lemma tagtext_one_line Z :
  forallb is_tagtext Z = true → forallb (λ x, negb (is_line_terminator x)) Z = true.
Proof.
  apply forallb_weaken. intros x Hx. unfold is_tagtext in Hx. class_solve.
Qed.

(** ** Parsing the serialised line *)

Section RoundTrip.

Variables (c name dd tid : list N) (ls : list (list N)) (p : Z) (d : bool) (k : nat).

Hypothesis Hws : ws_normal c = true.

Hypothesis Hfree : token_free c = true.

Hypothesis Hname : forallb is_tagchar name = true.

Hypothesis Hnamene : name ≠ [].

Hypothesis Hls : forallb (wf_label (35 :: name)) ls = true.

Hypothesis Hdate : match_date dd = Some (dd, []).

Hypothesis Htidne : tid ≠ [].

Hypothesis Htid : forallb is_digit tid = true.

Hypothesis Hp : wf_priority p = true.

Hypothesis Hk : k = 0%nat ∨ k = 2%nat.

Let tags : list N := (35 :: name) ++ labelText ls.

Let rest : list N := tails dd tid p d k.

Let T : list N := lead c ++ tags ++ rest.

Lemma dd_datechars : forallb is_datechar dd = true.
Proof. exact (proj1 (match_date_chars _ _ _ Hdate)). Qed.

Lemma tags_tagtext : forallb is_tagtext tags = true.
Proof.
  unfold tags. rewrite forallb_app, (labelText_tagtext _ _ Hls). cbn [forallb].
  rewrite (tagchar_tagtext _ Hname). reflexivity.
Qed.

Lemma T_task cb b :
  is_checkbox cb = true → forallb is_space b = true →
  match_task (lit "- " ++ [91; cb; 93] ++ lit " " ++ b ++ T) = Some ([], cb, T).
Proof.
  intros Hcb Hb. unfold T, tags. rewrite <- !app_assoc. cbn [app].
  destruct (lead_head c (name ++ labelText ls ++ rest) Hws) as [H1 H2].
  apply match_task_built; try assumption.
  rewrite forallb_app, (ws_normal_one_line _ Hws).
  change (35 :: name ++ labelText ls ++ rest) with ((35 :: name) ++ labelText ls ++ rest).
  rewrite app_assoc, forallb_app. fold tags.
  rewrite (tagtext_one_line _ tags_tagtext). unfold rest.
  rewrite (tails_one_line dd tid Hdate dd_datechars Htidne Htid p d k Hp). reflexivity.
Qed.

Lemma T_marked : test (match_syncTag (35 :: name)) T = true.
Proof.
  unfold test, T, tags.
  rewrite (lead_skip_token _ _ c _ in_tokens_hash (syncTag_guarded name) Hfree).
  rewrite <- app_assoc.
  rewrite (search_here _ _ _ _ (match_syncTag_self (35 :: name) (labelText ls ++ rest))).
  reflexivity.
Qed.

Lemma T_todoistId :
  capture match_todoistId T = match k with O => None | _ => Some tid end.
Proof.
  unfold capture, T.
  rewrite (prefix_skip match_todoistId _ 60 c tags rest in_tokens_id todoistId_guarded
             (guarded_headed _ _ _ todoistId_guarded) tagtext_excludes_lt Hfree tags_tagtext).
  unfold rest. rewrite (tails_todoistId dd tid Hdate dd_datechars Htidne Htid p d k Hp).
  destruct Hk as [-> | ->]; reflexivity.
Qed.

Lemma T_dueDate : extractDueDate T = if d then Some dd else None.
Proof.
  unfold extractDueDate, capture, T.
  rewrite (prefix_skip match_dueDate _ 0xF8FF c tags rest in_tokens_dueDate (glyph_date_guarded _)
             (guarded_headed _ _ _ (glyph_date_guarded glyph_dueDate))
             tagtext_excludes_F8FF Hfree tags_tagtext).
  unfold rest at 1. rewrite (tails_dueDate dd tid Hdate dd_datechars Htidne Htid p d k Hp).
  destruct d; [reflexivity|]. cbn [shift].
  rewrite (prefix_skip match_scheduledDate _ 0x201A c tags rest in_tokens_scheduledDate
             (glyph_date_guarded _)
             (guarded_headed _ _ _ (glyph_date_guarded glyph_scheduledDate))
             tagtext_excludes_201A Hfree tags_tagtext).
  unfold rest at 1. rewrite (tails_scheduledDate dd tid Hdate dd_datechars Htidne Htid p false k Hp). cbn [shift].
  rewrite (prefix_skip_textDueDate c tags rest Hfree tags_tagtext
             (tails_blank dd tid Hdate dd_datechars Htidne Htid p false k Hp)).
  unfold rest. rewrite (tails_textDueDate dd tid Hdate dd_datechars Htidne Htid p false k Hp). reflexivity.
Qed.

Lemma test_shift {A} (m : matcher A) X Y s :
  search m s = shift X (search m Y) → test m s = test m Y.
Proof. unfold test. intros ->. destruct (search m Y) as [[[pre a] post]|]; reflexivity. Qed.

Lemma T_priority : extractPriority T = p.
Proof.
  unfold extractPriority.
  rewrite (test_shift match_highPriority _ rest T
             (prefix_skip match_highPriority _ 0x201A c tags rest in_tokens_highPriority
                (lit_guarded _) (guarded_headed _ _ _ (lit_guarded glyph_highPriority))
                tagtext_excludes_201A Hfree tags_tagtext)).
  rewrite (test_shift match_mediumPriority _ rest T
             (prefix_skip match_mediumPriority _ 0xF8FF c tags rest in_tokens_mediumPriority
                (lit_guarded _) (guarded_headed _ _ _ (lit_guarded glyph_mediumPriority))
                tagtext_excludes_F8FF Hfree tags_tagtext)).
  rewrite (test_shift match_lowPriority _ rest T
             (prefix_skip match_lowPriority _ 0xF8FF c tags rest in_tokens_lowPriority
                (lit_guarded _) (guarded_headed _ _ _ (lit_guarded glyph_lowPriority))
                tagtext_excludes_F8FF Hfree tags_tagtext)).
  unfold rest.
  rewrite (tails_highPriority dd tid Hdate dd_datechars Htidne Htid p d k Hp),
    (tails_mediumPriority dd tid Hdate dd_datechars Htidne Htid p d k Hp),
    (tails_lowPriority dd tid Hdate dd_datechars Htidne Htid p d k Hp).
  destruct (priority_cases _ Hp) as [-> | [-> | [-> | ->]]]; reflexivity.
Qed.

Lemma T_labels : extractLabels T (35 :: name) = ls.
Proof.
  unfold extractLabels, exec_all. cbn [drop_hash].
  assert (Hfuel : (length ls < length T)%nat).
  { unfold T, tags. rewrite !length_app. cbn [length].
    pose proof (labelText_length ls). lia. }
  cbn [exec_all_fuel]. generalize dependent (length T). intros fuel Hfuel.
  unfold T, tags.
  rewrite (lead_skip_token _ _ c _ in_tokens_hash hashtag_guarded Hfree).
  rewrite <- app_assoc. cbn [app].
  assert (Hnext : (span is_tagchar (labelText ls ++ rest)).1 = []
                  ∧ (span is_tagchar (labelText ls ++ rest)).2 = labelText ls ++ rest).
  { destruct ls as [|l' ls']; cbn [labelText foldr app].
    - destruct (tails_blank dd tid Hdate dd_datechars Htidne Htid p d k Hp) as [E|[Y E]]; fold rest in E; rewrite E.
      + split; reflexivity.
      + rewrite span_stop by reflexivity. split; reflexivity.
    - change (lit " #") with [32; 35]. cbn [app].
      rewrite span_stop by reflexivity. split; reflexivity. }
  destruct Hnext as [Hn1 Hn2].
  rewrite (search_here match_hashtag _ name (labelText ls ++ rest)).
  - cbn [shift].
    rewrite (exec_labels (35 :: name) ls fuel rest Hls);
      [| exact Hfuel | exact (tails_hashtag dd tid Hdate dd_datechars Htidne Htid p d k Hp)
       | exact (tails_blank dd tid Hdate dd_datechars Htidne Htid p d k Hp)].
    cbn [fmap list_fmap]. fold (toLowerCase name).
    rewrite filter_cons_False by (intros Hn; apply Hn; reflexivity).
    apply (labels_kept (35 :: name) ls Hls).
  - rewrite <- Hn2 at 2. apply match_hashtag_built; assumption.
Qed.

Lemma T_content : ls = [] → cleanTaskContent T (35 :: name) = c.
Proof.
  intros Hnone. unfold cleanTaskContent.
  (* the id comment *)
  assert (H1 : replace_first match_todoistId [] T
               = lead c ++ (35 :: name)
                 ++ tails dd tid p d (match k with O => O | _ => 1%nat end)).
  { unfold replace_first, T.
    rewrite (prefix_skip match_todoistId _ 60 c tags rest in_tokens_id todoistId_guarded
               (guarded_headed _ _ _ todoistId_guarded) tagtext_excludes_lt Hfree tags_tagtext).
    unfold rest at 1. rewrite (tails_todoistId dd tid Hdate dd_datechars Htidne Htid p d k Hp).
    unfold tags, rest. subst ls. cbn [labelText foldr]. rewrite !app_nil_r.
    destruct Hk as [-> | ->]; cbn [shift]; [reflexivity|].
    unfold tails, third. rewrite <- !app_assoc. reflexivity. }
  rewrite H1. set (k' := match k with O => O | _ => 1%nat end).
  (* the marker *)
  assert (H2 : replace_all (match_syncTag (35 :: name)) []
                 (lead c ++ (35 :: name) ++ tails dd tid p d k')
               = lead c ++ tails dd tid p d k').
  { unfold replace_all.
    destruct (length (lead c ++ (35 :: name) ++ tails dd tid p d k')) as [|fuel];
      cbn [replace_all_fuel];
      rewrite (lead_skip_token _ _ c _ in_tokens_hash (syncTag_guarded name) Hfree),
        (search_here _ _ _ _ (match_syncTag_self (35 :: name) (tails dd tid p d k')));
      cbn [shift app]; rewrite app_nil_r.
    - reflexivity.
    - cbn [replace_all_fuel].
      rewrite (tails_syncTag dd tid Hdate dd_datechars Htidne Htid name p d k' Hp). reflexivity. }
  rewrite H2.
  (* the due date *)
  assert (H3 : replace_first match_dueDate [] (lead c ++ tails dd tid p d k')
               = lead c ++ tailP p ++ (if d then [32] else []) ++ third tid k').
  { unfold replace_first.
    rewrite (lead_skip_token match_dueDate _ c _ in_tokens_dueDate (glyph_date_guarded _) Hfree).
    rewrite (tails_dueDate dd tid Hdate dd_datechars Htidne Htid p d k' Hp).
    destruct d; cbn [shift].
    - rewrite <- !app_assoc. reflexivity.
    - unfold tails, tailD. reflexivity. }
  rewrite H3, (strip_rest_lead c _ Hfree).
  apply lead_tidy; [exact Hws|].
  subst k'. clear -Hp Hk.
  destruct (priority_cases _ Hp) as [-> | [-> | [-> | ->]]];
    destruct d; destruct Hk as [-> | ->]; vm_compute; reflexivity.
Qed.

End RoundTrip.

(** * The round trip *)

Lemma wf_marker_spec syncTag :
  wf_marker syncTag = true →
  ∃ name, syncTag = 35 :: name ∧ name ≠ [] ∧ forallb is_tagchar name = true.
Proof.
  destruct syncTag as [|hash name]; [discriminate|]. cbn [wf_marker].
  intros H. apply andb_true_iff in H as [H Hname]. apply andb_true_iff in H as [Hh Hne].
  apply N.eqb_eq in Hh as ->. exists name. repeat split; [|exact Hname].
  destruct name; [discriminate|discriminate].
Qed.

Lemma wf_dueDate_spec d :
  wf_dueDate d = true →
  ∃ dd (flag : bool), match_date dd = Some (dd, []) ∧ d = if flag then Some dd else None.
Proof.
  destruct d as [dd|]; cbn [wf_dueDate].
  - intros H. apply bool_decide_eq_true in H. exists dd, true. split; [exact H|reflexivity].
  - intros _. exists (lit "2000-01-01"), false. split; reflexivity.
Qed.

Lemma wf_todoistId_spec i :
  wf_todoistId i = true →
  ∃ tid k, tid ≠ [] ∧ forallb is_digit tid = true ∧ (k = 0%nat ∨ k = 2%nat)
           ∧ i = match k with O => None | _ => Some tid end.
Proof.
  destruct i as [tid|]; cbn [wf_todoistId].
  - intros H. apply andb_true_iff in H as [Hne Hd]. exists tid, 2%nat.
    repeat split; [|exact Hd|right; reflexivity].
    destruct tid; [discriminate|discriminate].
  - intros _. exists [48], 0%nat. repeat split; [discriminate|left; reflexivity].
Qed.

Ltac feed H :=
  repeat (let P := match type of H with ?P → _ => P end in
          let HP := fresh in
          assert (HP : P) by assumption; specialize (H HP); clear HP).

(** C1, as amended: parsing the line that [buildTaskLine] wrote for a
    well-formed task, with the same marker, gives back the task's completion
    flag, priority, due date, labels and Todoist id, and its content when the
    task has no label.  Well-formed: the marker is one hashtag; the content is
    trimmed, single-spaced and free of what starts a metadata token; the
    labels are lower-case hashtag names other than the marker's; the due date
    is absent or YYYY-MM-DD; the priority is one of the four; the id is absent
    or a run of digits. *)
Theorem serialised_task_parses_back task syncTag lineNo path modified :
  wf_task task syncTag = true →
  ∃ parsed,
    parseTaskLine (buildTaskLine task syncTag) lineNo path syncTag modified = Some parsed
    ∧ isCompleted parsed = isCompleted task
    ∧ priority parsed = priority task
    ∧ dueDate parsed = dueDate task
    ∧ labels parsed = labels task
    ∧ todoistId parsed = todoistId task
    ∧ (labels task = [] → content parsed = content task).
Proof.
  intros Hwf. unfold wf_task in Hwf.
  repeat (apply andb_true_iff in Hwf as [Hwf ?]).
  match goal with H : wf_todoistId _ = true |- _ =>
    destruct (wf_todoistId_spec _ H) as (tid & k & Htidne & Htid & Hk & Hi) end.
  match goal with H : wf_dueDate _ = true |- _ =>
    destruct (wf_dueDate_spec _ H) as (dd & d & Hdate & Hd) end.
  destruct (wf_marker_spec _ Hwf) as (name & -> & Hnamene & Hname).
  match goal with H : wf_content _ = true |- _ =>
    unfold wf_content in H; apply andb_true_iff in H as [Hws Hfree] end.
  match goal with H : wf_priority _ = true |- _ => rename H into Hp end.
  match goal with H : forallb _ (labels task) = true |- _ => rename H into Hls end.
  set (cb := if isCompleted task then 120 else 32 : N).
  set (b := match content task with [] => [32] | _ => [] end : list N).
  assert (Hline : buildTaskLine task (35 :: name)
            = lit "- " ++ [91; cb; 93] ++ lit " " ++ b
              ++ lead (content task) ++ ((35 :: name) ++ labelText (labels task))
              ++ tails dd tid (priority task) d k).
  { rewrite buildTaskLine_shape, Hd, Hi. unfold tails, cb, b.
    replace (third tid k) with (tailI match k with O => None | _ => Some tid end)
      by (destruct Hk as [-> | ->]; reflexivity).
    destruct (isCompleted task), (content task) as [|c0 c];
      cbn [lead]; rewrite <- ?app_assoc; reflexivity. }
  assert (Hcb : is_checkbox cb = true) by (unfold cb; destruct (isCompleted task); reflexivity).
  assert (Hb : forallb is_space b = true) by (unfold b; destruct (content task); reflexivity).
  pose proof (T_task (content task) name dd tid (labels task) (priority task) d k) as Htask.
  feed Htask. specialize (Htask cb b Hcb Hb).
  pose proof (T_marked (content task) name dd tid (labels task) (priority task) d k) as Hmark.
  feed Hmark.
  unfold parseTaskLine. rewrite Hline, Htask, Hmark.
  cbn [negb]. eexists. split; [reflexivity|].
  cbn [isCompleted priority dueDate labels todoistId content].
  repeat split.
  - unfold cb. destruct (isCompleted task); reflexivity.
  - apply T_priority; assumption.
  - rewrite Hd. apply T_dueDate; assumption.
  - apply T_labels; assumption.
  - rewrite Hi. apply T_todoistId; assumption.
  - intros Hnone. apply T_content; assumption.
Qed.

(** The round trip of C1 on two tasks: one without labels, whose content
    comes back, and one with two labels, a due date, a priority and an id. *)
Lemma serialised_task_parses_back_witness :
  wf_task plainTask (lit "#todoist") = true
  ∧ (∃ parsed,
      parseTaskLine (buildTaskLine plainTask (lit "#todoist")) 0 (lit "notes.md")
                    (lit "#todoist") 0 = Some parsed
      ∧ isCompleted parsed = isCompleted plainTask
      ∧ priority parsed = priority plainTask
      ∧ dueDate parsed = dueDate plainTask
      ∧ labels parsed = labels plainTask
      ∧ todoistId parsed = todoistId plainTask
      ∧ (labels plainTask = [] → content parsed = content plainTask))
  ∧ wf_task errandTask (lit "#todoist") = true
  ∧ ∃ parsed,
      parseTaskLine (buildTaskLine errandTask (lit "#todoist")) 0 (lit "notes.md")
                    (lit "#todoist") 0 = Some parsed
      ∧ isCompleted parsed = isCompleted errandTask
      ∧ priority parsed = priority errandTask
      ∧ dueDate parsed = dueDate errandTask
      ∧ labels parsed = labels errandTask
      ∧ todoistId parsed = todoistId errandTask
      ∧ (labels errandTask = [] → content parsed = content errandTask).
Proof.
  split; [reflexivity|]. split.
  - apply (serialised_task_parses_back plainTask (lit "#todoist") 0 (lit "notes.md") 0).
    reflexivity.
  - split; [reflexivity|].
    apply (serialised_task_parses_back errandTask (lit "#todoist") 0 (lit "notes.md") 0).
    reflexivity.
Defined.

(** * The codec on concrete lines *)

(** C8 fails on the code.  The two expressions of [updateTaskCompletion]
    are not anchored at the checkbox: the first call ticks the checkbox of the
    line, the second call finds no open checkbox there and rewrites the
    bracket pair in the task's text, so the call is not idempotent and
    changes more than the checkbox.  Unticking does the same to a ticked pair
    in the text of a line whose checkbox is open. *)
Lemma updateTaskCompletion_twice_differs :
  updateTaskCompletion (lit "- [ ] a [ ]") true = lit "- [x] a [ ]"
  ∧ updateTaskCompletion (updateTaskCompletion (lit "- [ ] a [ ]") true) true
    = lit "- [x] a [x]"
  ∧ updateTaskCompletion (updateTaskCompletion (lit "- [ ] a [ ]") true) true
    ≠ updateTaskCompletion (lit "- [ ] a [ ]") true
  ∧ updateTaskCompletion (lit "- [ ] see [x]") false = lit "- [ ] see [ ]".
Proof. vm_compute. repeat split. discriminate. Qed.

(** C1 as stated fails.  A label in upper case comes back in lower case,
    since [extractLabels] lower-cases every label; and whatever the case, the
    hashtags of the labels stay in the parsed content, since [cleanTaskContent]
    removes the marker only. *)
Lemma labels_do_not_round_trip :
  buildTaskLine shoppingTask (lit "#todoist") = lit "- [ ] Buy milk #todoist #Work"
  ∧ (∃ parsed,
      parseTaskLine (buildTaskLine shoppingTask (lit "#todoist")) 0 (lit "notes.md")
                    (lit "#todoist") 0 = Some parsed
      ∧ labels parsed = [lit "work"] ∧ labels parsed ≠ labels shoppingTask
      ∧ content parsed = lit "Buy milk #Work" ∧ content parsed ≠ content shoppingTask)
  ∧ wf_task choreTask (lit "#todoist") = true
  ∧ buildTaskLine choreTask (lit "#todoist") = lit "- [ ] Water plants #todoist #home"
  ∧ ∃ parsed,
      parseTaskLine (buildTaskLine choreTask (lit "#todoist")) 0 (lit "notes.md")
                    (lit "#todoist") 0 = Some parsed
      ∧ labels parsed = labels choreTask
      ∧ content parsed = lit "Water plants #home"
      ∧ content parsed ≠ content choreTask.
Proof.
  split; [vm_compute; reflexivity|]. split.
  { eexists. split; [vm_compute; reflexivity|].
    vm_compute. repeat split; discriminate. }
  split; [vm_compute; reflexivity|]. split; [vm_compute; reflexivity|].
  eexists. split; [vm_compute; reflexivity|].
  vm_compute. repeat split; discriminate.
Qed.

(** * Running the engine *)

Section Runs.

Context {W : Type} (host : Host W).

Lemma run_bind {A B} (p : prog A) (f : A → prog B) e w :
  run host (p ≫= f) e w = let '(a, e', w') := run host p e w in run host (f a) e' w'.
Proof.
  unfold mbind, prog_bind. revert e w.
  induction p as [a|k IH|e' k IH|X c k IH]; intros e w; cbn.
  - reflexivity.
  - apply IH.
  - apply IH.
  - destruct (answer host c w) as [x w']. apply IH.
Qed.

Lemma run_andThen {A B} (p : prog (jsresult A)) (f : A → prog (jsresult B)) e w :
  run host (andThen p f) e w =
  match run host p e w with
  | (Returned a, e', w') => run host (f a) e' w'
  | (Thrown err, e', w') => (Thrown err, e', w')
  end.
Proof.
  unfold andThen. rewrite run_bind.
  destruct (run host p e w) as [[[a|err] e'] w']; reflexivity.
Qed.

Lemma run_tryCatch {A} (p : prog (jsresult A)) (h : list N → prog A) e w :
  run host (tryCatch p h) e w =
  match run host p e w with
  | (Returned a, e', w') => (a, e', w')
  | (Thrown err, e', w') => run host (h err) e' w'
  end.
Proof.
  unfold tryCatch. rewrite run_bind.
  destruct (run host p e w) as [[[a|err] e'] w']; reflexivity.
Qed.

Lemma set_isSyncing_same e : set_isSyncing (isSyncing e) e = e.
Proof. destruct e; reflexivity. Qed.

(** C2: when the engine is idle, the gateway is configured and the fetch of
    the remote tasks fails with [err], [performSync] returns a result with
    the four counters at zero and the one message of the fetch failure, and
    leaves the engine as it was: the records, [lastFullSync], the flag and the
    queue of conflicts.  No call reaches the host after the fetch. *)
Theorem fetch_failure_aborts_pass e w w0 w1 err :
  isSyncing e = false →
  answer host isInitialized w = (true, w0) →
  answer host getTasks w0 = (Thrown err, w1) →
  run host performSync e w =
    ({| created := 0; updated := 0; completed := 0; conflicts := 0;
        errors := [lit "Failed to fetch Todoist tasks: " ++ err] |}, e, w1).
Proof.
  intros Hidle Hinit Hfetch. unfold performSync. cbn.
  rewrite Hidle. cbn. rewrite Hinit. cbn. rewrite Hfetch. cbn.
  unfold set_isSyncing; cbn. destruct e; cbn in *; subst; reflexivity.
Qed.

End Runs.

(** * Conflicts *)

Ltac unfold_engine :=
  unfold syncOne, createOne, dropOrphan, syncExistingTask, createTodoistTask,
    updateObsidianTaskFromTodoist, markObsidianTaskCompleted, updateSyncStateTask,
    updateObsidianTaskLine, replaceLineInFile, tryCatch, andThen, throw, ok,
    perform, modify, get, mbind, prog_bind, mret, prog_ret in *.

Ltac crunch H :=
  repeat first
    [ progress cbn in *
    | match goal with
      | |- context [answer H ?c ?w] =>
          let x := fresh "x" in let w' := fresh "w" in let E := fresh "E" in
          destruct (answer H c w) as [x w'] eqn:E
      | |- context [match ?x with _ => _ end] =>
          lazymatch x with
          | context [run] => fail
          | context [answer] => fail
          | _ => let E := fresh "E" in destruct x eqn:E
          end
      end ].

Section Conflicts.

Context {W : Type} (host : Host W).

Lemma settle_run {A} (p : prog A) e a e' w :
  settle p e = Some (a, e') → run host p e w = (a, e', w).
Proof.
  revert e. induction p as [b|k IH|e1 k IH|X c k IH]; intros e; cbn.
  - intros [= -> ->]. reflexivity.
  - apply IH.
  - apply IH.
  - discriminate.
Qed.

(** C5: for a linked task that the gateway lists, with equal completion
    flags on both sides and a different content, priority or due date, under
    the [ask_user] policy the step makes no call to the host at all, so
    neither the vault nor the remote task changes; the records are as before;
    one conflict is appended to the queue; [conflicts] is one more, [updated]
    and [completed] are as before. *)
Theorem ask_user_queues_conflict todoistTaskMap todoistId obsidianTask todoistTask result e :
  map_get todoistId todoistTaskMap = Some todoistTask →
  isCompleted obsidianTask = task_isCompleted todoistTask →
  (content obsidianTask ≠ task_content todoistTask
   ∨ priority obsidianTask ≠ task_priority todoistTask
   ∨ dueDate obsidianTask ≠ task_due todoistTask) →
  conflictResolution (settings e) = ask_user →
  let conflict :=
    {| c_todoistId := task_id todoistTask;
       c_filePath := filePath obsidianTask;
       c_lineNumber := lineNumber obsidianTask;
       obsidianContent := content obsidianTask;
       todoistContent := task_content todoistTask;
       c_obsidianCompleted := isCompleted obsidianTask;
       c_todoistCompleted := task_isCompleted todoistTask |} in
  settle (syncOne todoistTaskMap (todoistId, obsidianTask) result) e
    = Some (add_conflict result, push_conflict conflict e)
  ∧ (∀ w, run host (syncOne todoistTaskMap (todoistId, obsidianTask) result) e w
          = (add_conflict result, push_conflict conflict e, w))
  ∧ syncState (push_conflict conflict e) = syncState e
  ∧ pendingConflicts (push_conflict conflict e) = pendingConflicts e ++ [conflict]
  ∧ conflicts (add_conflict result) = S (conflicts result)
  ∧ updated (add_conflict result) = updated result
  ∧ completed (add_conflict result) = completed result.
Proof.
  intros Hget Hsame Hdiff Hask conflict.
  assert (Hs : settle (syncOne todoistTaskMap (todoistId, obsidianTask) result) e
               = Some (add_conflict result, push_conflict conflict e)).
  { unfold syncOne. rewrite Hget. unfold_engine. rewrite <- Hsame.
    assert (Hch : bool_decide (content obsidianTask ≠ task_content todoistTask)
                  || bool_decide (priority obsidianTask ≠ task_priority todoistTask)
                  || bool_decide (dueDate obsidianTask ≠ task_due todoistTask) = true).
    { destruct Hdiff as [Hd|[Hd|Hd]]; rewrite (bool_decide_eq_true_2 _ Hd);
        rewrite ?orb_true_r; reflexivity. }
    destruct (isCompleted obsidianTask); cbn; rewrite Hch; cbn; rewrite Hask; cbn;
      subst conflict; rewrite <- Hsame; reflexivity. }
  repeat split; try reflexivity; [exact Hs|].
  intros w. apply settle_run, Hs.
Qed.

End Conflicts.

(** * Completion flags of the records *)

Section Flags.

Context {W : Type} (host : Host W).

(** Rewriting a line never touches the engine's fields. *)
Lemma updateObsidianTaskLine_engine task transform e w :
  (run host (updateObsidianTaskLine task transform) e w).1.2 = e.
Proof. unfold_engine. crunch host; reflexivity. Qed.

Lemma replaceLineInFile_engine p n l e w :
  (run host (replaceLineInFile p n l) e w).1.2 = e.
Proof. unfold_engine. crunch host; reflexivity. Qed.

(** C10: after the reconciliation of one linked task, every record of the
    state is either the record that was there before under that id, or has
    [obsidianCompleted] equal to [todoistCompleted]. *)
Theorem linked_records_have_equal_flags todoistTaskMap entry result e w id rec :
  tasks (syncState (run host (syncOne todoistTaskMap entry result) e w).1.2) !! id = Some rec →
  tasks (syncState e) !! id = Some rec ∨ obsidianCompleted rec = todoistCompleted rec.
Proof.
  destruct entry as [todoistId obsidianTask].
  unfold syncOne. unfold_engine.
  crunch host;
    repeat match goal with
    | |- context [<[?k := ?v]> ?m !! id] =>
        destruct (decide (k = id)) as [->|?];
        [rewrite lookup_insert_eq | rewrite lookup_insert_ne by assumption]
    | |- context [delete ?k ?m !! id] =>
        destruct (decide (k = id)) as [->|?];
        [rewrite lookup_delete_eq | rewrite lookup_delete_ne by assumption]
    end;
    try (intros [= <-]; right; reflexivity);
    try discriminate;
    try (intros ?; left; assumption).
Qed.

End Flags.

(** * Creation *)

Section Creation.

Context {W : Type} (host : Host W).

Lemma run_perform {X} (c : call X) e w :
  run host (perform c) e w = ((answer host c w).1, e, (answer host c w).2).
Proof. cbn. destruct (answer host c w); reflexivity. Qed.

Lemma run_get e w : run host get e w = (e, e, w).
Proof. reflexivity. Qed.

Lemma run_modify f e w : run host (modify f) e w = ((), f e, w).
Proof. reflexivity. Qed.

Lemma run_ret {A} (a : A) e w : run host (Ret a) e w = (a, e, w).
Proof. reflexivity. Qed.

(** C7, as amended: [created] is one more exactly when the whole of
    [createTodoistTask] succeeds.  When the create call fails, when the
    rewrite of the source line fails, or when the close call for a ticked task
    fails, the result is the one before with a message appended and [created]
    as it was, although in the last two cases the remote task exists, and in
    the last the record is written.  When all of them succeed, [created] is
    one more and the record is written. *)
Theorem created_counts_whole_creation task result e w :
  (∀ err w1,
     answer host (createTask (content task) (createOptions e task)) w = (Thrown err, w1) →
     run host (createOne task result) e w
       = (push_error (createFailure task err) result, e, w1))
  ∧ (∀ t w1 err e2 w2,
     answer host (createTask (content task) (createOptions e task)) w = (Returned t, w1) →
     run host (updateObsidianTaskLine task (λ line, addTodoistIdToLine line (task_id t))) e w1
       = (Thrown err, e2, w2) →
     run host (createOne task result) e w
       = (push_error (createFailure task err) result, e2, w2))
  ∧ (∀ t w1 e2 w2 now w3 err w4,
     answer host (createTask (content task) (createOptions e task)) w = (Returned t, w1) →
     run host (updateObsidianTaskLine task (λ line, addTodoistIdToLine line (task_id t))) e w1
       = (Returned (), e2, w2) →
     answer host Date_now w2 = (now, w3) →
     isCompleted task = true →
     answer host (completeTask (task_id t)) w3 = (Thrown err, w4) →
     run host (createOne task result) e w
       = (push_error (createFailure task err) result,
          set_tasks <[task_id t := createdRecord task t now]> e2, w4))
  ∧ (∀ t w1 e2 w2 now w3 w4,
     answer host (createTask (content task) (createOptions e task)) w = (Returned t, w1) →
     run host (updateObsidianTaskLine task (λ line, addTodoistIdToLine line (task_id t))) e w1
       = (Returned (), e2, w2) →
     answer host Date_now w2 = (now, w3) →
     (isCompleted task = false ∧ w4 = w3
      ∨ isCompleted task = true
        ∧ ∃ closed, answer host (completeTask (task_id t)) w3 = (Returned closed, w4)) →
     run host (createOne task result) e w
       = (add_created result,
          set_tasks <[task_id t := createdRecord task t now]> e2, w4)).
Proof.
  unfold createOne, createTodoistTask, createOptions, createFailure.
  repeat split.
  - intros err w1 Hc.
    rewrite run_tryCatch, run_andThen, run_bind, run_get, run_andThen, run_perform, Hc.
    reflexivity.
  - intros t w1 err e2 w2 Hc Hr.
    rewrite run_tryCatch, run_andThen, run_bind, run_get, run_andThen, run_perform, Hc.
    cbn [fst snd]. rewrite run_andThen, Hr. reflexivity.
  - intros t w1 e2 w2 now w3 err w4 Hc Hr Hn Hdone Hclose.
    rewrite run_tryCatch, run_andThen, run_bind, run_get, run_andThen, run_perform, Hc.
    cbn [fst snd]. rewrite run_andThen, Hr.
    rewrite run_bind, run_perform, Hn. cbn [fst snd].
    rewrite run_bind, run_modify, Hdone, run_andThen, run_perform, Hclose.
    unfold createdRecord. rewrite Hdone. reflexivity.
  - intros t w1 e2 w2 now w3 w4 Hc Hr Hn Hcase.
    rewrite run_tryCatch, run_andThen, run_bind, run_get, run_andThen, run_perform, Hc.
    cbn [fst snd]. rewrite run_andThen, Hr.
    rewrite run_bind, run_perform, Hn. cbn [fst snd].
    rewrite run_bind, run_modify.
    destruct Hcase as [[Hopen ->]|[Hdone [closed Hclose]]].
    + rewrite Hopen. unfold createdRecord. rewrite Hopen. reflexivity.
    + rewrite Hdone, run_andThen, run_perform, Hclose.
      unfold createdRecord. rewrite Hdone. reflexivity.
Qed.

End Creation.

(** C7 as stated fails: the create call succeeds and the line gets its
    id, the close call fails, and [created] stays at zero. *)
Lemma created_not_counted_when_close_fails :
  let '(result, e, w) := run mock performSync freshEngine closeFails in
  created result = 0%nat
  ∧ errors result = [lit "Failed to create task: Call mom - Error: HTTP 503"]
  ∧ (task_id <$> remote w) = [lit "555"]
  ∧ file_text (lit "notes.md") w = Some (lit "- [x] Call mom #todoist <!-- todoist-id:555 -->").
Proof. vm_compute. repeat split. Qed.

(** * Remote deletion and orphan cleanup *)

Section Cleanup.

Context {W : Type} (host : Host W).

Lemma markObsidianTaskCompleted_returns task e w e1 w1 :
  run host (markObsidianTaskCompleted task) e w = (Returned (), e1, w1) →
  e1 = e ∧
  ∃ file w0 text w2,
    answer host (getAbstractFileByPath (filePath task)) w = (Some file, w0)
    ∧ answer host (vault_read file) w0 = (Returned text, w2)
    ∧ (lineNumber task < length (split_lines text))%nat
    ∧ answer host (vault_modify file (tickedText task text)) w2 = (Returned (), w1).
Proof.
  unfold tickedText. unfold_engine. cbn.
  destruct (answer host (getAbstractFileByPath (filePath task)) w) as [[file|] w0] eqn:E1; cbn;
    [|discriminate].
  destruct (answer host (vault_read file) w0) as [[text|err] w2] eqn:E2; cbn; [|discriminate].
  destruct (length (split_lines text) <=? lineNumber task)%nat eqn:E3; cbn; [discriminate|].
  destruct (answer host (vault_modify file _) w2) as [[[]|err] w3] eqn:E4; cbn; [|discriminate].
  intros [= <- <-]. split; [reflexivity|].
  exists file, w0, text, w2. repeat split; try assumption.
  apply Nat.leb_gt in E3. exact E3.
Qed.

(** Loop 3 only deletes, and it deletes every key of the remote map that
    has a record and no linked task. *)
Lemma dropOrphans_spec synced (m : list (list N * Task)) e w :
  ∃ e', run host (forEach m (dropOrphan synced) ()) e w = ((), e', w)
    ∧ settings e' = settings e ∧ isSyncing e' = isSyncing e
    ∧ pendingConflicts e' = pendingConflicts e
    ∧ lastFullSync (syncState e') = lastFullSync (syncState e)
    ∧ ∀ id, tasks (syncState e') !! id =
            if bool_decide (id ∈ m.*1) && negb (map_has id synced)
            then None else tasks (syncState e) !! id.
Proof.
  revert e. induction m as [|[k t] m IH]; intros e.
  - exists e. cbn. repeat split; reflexivity.
  - cbn [forEach]. rewrite run_bind.
    assert (Hone : ∃ e1, run host (dropOrphan synced (k, t) ()) e w = ((), e1, w)
              ∧ settings e1 = settings e ∧ isSyncing e1 = isSyncing e
              ∧ pendingConflicts e1 = pendingConflicts e
              ∧ lastFullSync (syncState e1) = lastFullSync (syncState e)
              ∧ ∀ id, tasks (syncState e1) !! id =
                      if bool_decide (id = k) && negb (map_has id synced)
                      then None else tasks (syncState e) !! id).
    { unfold dropOrphan. cbn.
      destruct (tasks (syncState e) !! k) as [rec|] eqn:Hrec; cbn.
      - destruct (map_has k synced) eqn:Hhas; cbn.
        + exists e. repeat split; try reflexivity. intros id.
          case_bool_decide as Hid; [subst id; rewrite Hhas|]; reflexivity.
        + eexists. repeat split; try reflexivity. intros id. cbn.
          case_bool_decide as Hid; [subst id; rewrite Hhas; apply lookup_delete_eq|].
          cbn. apply lookup_delete_ne. congruence.
      - exists e. repeat split; try reflexivity. intros id.
        case_bool_decide as Hid; [subst id|reflexivity].
        destruct (map_has k synced); cbn; congruence. }
    destruct Hone as (e1 & -> & Hs1 & Hi1 & Hp1 & Hl1 & Ht1).
    destruct (IH e1) as (e' & Hrun & Hs & Hi & Hp & Hl & Ht).
    exists e'. rewrite Hrun. repeat split; try congruence.
    intros id. rewrite Ht, Ht1. cbn [fmap list_fmap fst].
    destruct (map_has id synced); cbn; rewrite ?andb_false_r; [reflexivity|].
    rewrite !andb_true_r.
    repeat case_bool_decide; try reflexivity.
    + exfalso. set_solver.
    + exfalso. set_solver.
    + exfalso. set_solver.
Qed.

Lemma map_set_keys {V} k (v : V) m id :
  id ∈ (map_set k v m).*1 ↔ id = k ∨ id ∈ m.*1.
Proof.
  induction m as [|[k' v'] m IH]; cbn.
  - set_solver.
  - destruct (decide (k = k')) as [->|Hne]; cbn; set_solver.
Qed.

Lemma todoistTaskMap_keys (l : list Task) acc id :
  id ∈ (foldl (λ m task, map_set (task_id task) task m) acc l).*1
  ↔ id ∈ acc.*1 ∨ id ∈ task_id <$> l.
Proof.
  revert acc. induction l as [|t l IH]; intros acc; cbn.
  - set_solver.
  - rewrite IH, map_set_keys. set_solver.
Qed.

(** C3, as amended: after a pass that fetched the remote tasks and scanned
    the vault, an id that the gateway lists and that no scanned task carries
    has no record in the state.  The cleanup loop runs over the fetched map,
    so these are the ids it can delete. *)
Theorem orphan_cleanup_removes_unlinked_remote_ids
    e w w0 w1 todoistTasks obsidianTasks e2 w2 id :
  isSyncing e = false →
  answer host isInitialized w = (true, w0) →
  answer host getTasks w0 = (Returned todoistTasks, w1) →
  run host getAllObsidianTasks (set_isSyncing true e) w1 = (Returned obsidianTasks, e2, w2) →
  id ∈ task_id <$> todoistTasks →
  map_has id (groupTasks obsidianTasks).1 = false →
  tasks (syncState (run host performSync e w).1.2) !! id = None.
Proof.
  intros Hidle Hinit Hfetch Hscan Hremote Hunlinked.
  unfold performSync.
  rewrite run_bind, run_get, Hidle, run_bind, run_perform, Hinit. cbn [fst snd negb].
  rewrite run_bind, run_modify, run_bind, run_tryCatch, run_bind, run_perform, Hfetch.
  cbn [fst snd]. unfold syncFetched.
  rewrite run_andThen, Hscan.
  destruct (groupTasks obsidianTasks) as [synced new] eqn:Hgroup. cbn [fst] in Hunlinked.
  rewrite run_bind.
  destruct (run host (forEach new createOne emptyResult) e2 w2) as [[r3 e3] w3].
  rewrite run_bind.
  destruct (run host (forEach synced (syncOne _) r3) e3 w3) as [[r4 e4] w4].
  rewrite run_bind.
  destruct (dropOrphans_spec synced
              (foldl (λ m task, map_set (task_id task) task m) [] todoistTasks) e4 w4)
    as (e5 & -> & _ & _ & _ & _ & Ht).
  rewrite run_bind, run_perform.
  destruct (answer host Date_now w4) as [now w5]. cbn [fst snd].
  rewrite run_bind, run_modify, run_ret, run_bind, run_modify, run_ret. cbn.
  rewrite Ht, Hunlinked. cbn.
  rewrite bool_decide_eq_true_2; [reflexivity|].
  apply todoistTaskMap_keys. right. exact Hremote.
Qed.

End Cleanup.

(** C3 as stated fails: a record whose id is neither listed by the gateway
    nor carried by a line is still in the state after a pass without
    errors. *)
Lemma stale_record_survives_cleanup :
  let '(result, e, w) :=
    run mock performSync staleEngine (quietWorld (lit "plain text") []) in
  errors result = []
  ∧ lastFullSync (syncState e) = 1000%Z
  ∧ tasks (syncState e) !! lit "9" = Some staleRecord.
Proof. vm_compute. repeat split. Qed.

(** C6 as stated fails.  When the write of the file fails, the line is not
    ticked, the record stays and [completed] is not incremented.  When two
    lines carry the id, the pass ticks the last one only.  And when an
    earlier rewrite of the same pass has put a text of two lines in the
    place of one, the line of the task is no longer at the task's index: the
    pass counts the task as completed and removes its record, and the line
    of the task is as it was, its box open. *)
Lemma remote_deletion_without_tick :
  (let '(result, e, w) := run mock performSync engine7 readOnlyVault in
   completed result = 0%nat
   ∧ errors result = [lit "Failed to mark task completed: Pay rent"]
   ∧ tasks (syncState e) !! lit "7" = Some record7
   ∧ file_text (lit "notes.md") w = Some line7)
  ∧
  (let '(result, e, w) :=
     run mock performSync engine7 (quietWorld (line7 ++ [10] ++ line7) []) in
   completed result = 1%nat
   ∧ file_text (lit "notes.md") w
     = Some (line7 ++ [10] ++ lit "- [x] Pay rent #todoist <!-- todoist-id:7 -->"))
  ∧
  (let '(result, e, w) := run mock performSync engine2 shifting in
   completed result = 1%nat
   ∧ errors result = []
   ∧ tasks (syncState engine2) !! lit "2" = Some record2
   ∧ tasks (syncState e) !! lit "2" = None
   ∧ file_text (lit "notes.md") w
     = Some (lit "- [ ] Buy milk" ++ [10] ++ lit "and eggs #todoist <!-- todoist-id:1 -->"
             ++ [10] ++ momLine)).
Proof. vm_compute. repeat split. Qed.

(** * Overlapping invocations *)

Lemma keeps_mono {A} (I : SyncEngine → Prop) (Q Q' : A → SyncEngine → Prop) p e :
  (∀ a e', Q a e' → Q' a e') → keeps I Q p e → keeps I Q' p e.
Proof.
  intros HQ. revert e. induction p as [a|k IH|e1 k IH|X c k IH]; intros e; cbn.
  - apply HQ.
  - apply IH.
  - apply IH.
  - destruct (awaited c).
    + intros [Hi Hk]. split; [exact Hi|]. intros x e' He'. apply IH, Hk, He'.
    + intros Hk x. apply IH, Hk.
Qed.

Lemma keeps_bind {A B} (I : SyncEngine → Prop) (Q : B → SyncEngine → Prop)
    (p : prog A) (f : A → prog B) e :
  keeps I (λ a e', keeps I Q (f a) e') p e → keeps I Q (p ≫= f) e.
Proof.
  unfold mbind, prog_bind. revert e.
  induction p as [a|k IH|e1 k IH|X c k IH]; intros e; cbn.
  - auto.
  - apply IH.
  - apply IH.
  - destruct (awaited c).
    + intros [Hi Hk]. split; [exact Hi|]. intros x e' He'. apply IH, Hk, He'.
    + intros Hk x. apply IH, Hk.
Qed.

Lemma keeps_forEach {A S} (I : SyncEngine → Prop) (l : list A)
    (body : A → S → prog S) s e :
  (∀ a s' e', I e' → keeps I (λ _ e'', I e'') (body a s') e') →
  I e → keeps I (λ _ e', I e') (forEach l body s) e.
Proof.
  intros Hbody. revert s e. induction l as [|a l IH]; intros s e He; cbn [forEach].
  - exact He.
  - apply keeps_bind. eapply keeps_mono; [|apply Hbody, He].
    intros s' e' He'. apply IH, He'.
Qed.

Ltac keeps_auto :=
  repeat first
    [ assumption
    | progress cbn in *
    | progress intros
    | match goal with
      | |- _ ∧ _ => split
      | |- keeps _ _ (match ?x with _ => _ end) _ => destruct x
      | |- context [match ?x with _ => _ end] => destruct x
      end ].

Lemma createOne_keeps task result e :
  syncing e → keeps syncing still_syncing (createOne task result) e.
Proof. unfold syncing, still_syncing. intros He. unfold_engine. keeps_auto. Qed.

Lemma syncOne_keeps m entry result e :
  syncing e → keeps syncing still_syncing (syncOne m entry result) e.
Proof.
  unfold syncing, still_syncing. intros He. destruct entry as [id o].
  unfold syncOne. unfold_engine. keeps_auto.
Qed.

Lemma dropOrphan_keeps synced entry u e :
  syncing e → keeps syncing still_syncing (dropOrphan synced entry u) e.
Proof. unfold syncing, still_syncing. intros He. unfold_engine. keeps_auto. Qed.

Lemma scanFile_keeps file found e :
  syncing e → keeps syncing still_syncing (scanFile file found) e.
Proof. unfold syncing, still_syncing, scanFile. intros He. unfold_engine. keeps_auto. Qed.

Lemma getAllObsidianTasks_keeps e :
  syncing e → keeps syncing still_syncing getAllObsidianTasks e.
Proof.
  intros He. unfold getAllObsidianTasks, andThen, ok, perform.
  cbn. intros [files|err]; [|exact He].
  apply keeps_bind.
  eapply keeps_mono; [|apply keeps_forEach; [intros; apply scanFile_keeps; assumption|exact He]].
  intros found e1 He1. exact He1.
Qed.

Lemma syncFetched_keeps todoistTasks e :
  syncing e → keeps syncing still_syncing (syncFetched todoistTasks) e.
Proof.
  intros He. unfold syncFetched, andThen.
  apply keeps_bind.
  eapply keeps_mono; [|apply getAllObsidianTasks_keeps, He].
  intros [found|err] e1 He1; [|exact He1].
  destruct (groupTasks found) as [synced new].
  apply keeps_bind.
  eapply keeps_mono; [|apply keeps_forEach; [intros; apply createOne_keeps; assumption|exact He1]].
  intros r2 e2 He2. apply keeps_bind.
  eapply keeps_mono; [|apply keeps_forEach; [intros; apply syncOne_keeps; assumption|exact He2]].
  intros r3 e3 He3. apply keeps_bind.
  eapply keeps_mono; [|apply keeps_forEach; [intros; apply dropOrphan_keeps; assumption|exact He3]].
  intros [] e4 He4. cbn. intros now. exact He4.
Qed.

(** Started with the flag down, [performSync] holds the flag up at every
    [await] and ends with the flag down. *)
Lemma performSync_keeps e :
  isSyncing e = false → keeps syncing idle performSync e.
Proof.
  intros He. unfold performSync. cbn -[syncFetched]. rewrite He. cbn -[syncFetched].
  intros [|]; cbn -[syncFetched]; [|exact He].
  split; [reflexivity|]. intros [todoistTasks|err] e1 He1.
  - apply keeps_bind. apply keeps_bind.
    eapply keeps_mono; [|apply syncFetched_keeps, He1].
    intros [result|error] e2 He2; reflexivity.
  - reflexivity.
Qed.

Lemma settle_rejects e :
  isSyncing e = true → settle performSync e = Some (rejectedResult, e).
Proof. intros He. unfold performSync. cbn. rewrite He. reflexivity. Qed.

Section Overlap.

Context {W : Type} (host : Host W).

Lemma settle_advance {A} (p : prog A) e a e' w :
  settle p e = Some (a, e') → advance host p e w = (Resolved a, e', w).
Proof.
  revert e. induction p as [b|k IH|e1 k IH|X c k IH]; intros e; cbn.
  - intros [= -> ->]. reflexivity.
  - apply IH.
  - apply IH.
  - discriminate.
Qed.

Lemma advance_keeps {A} (I : SyncEngine → Prop) (Q : A → SyncEngine → Prop)
    (p : prog A) e w st e' w' :
  keeps I Q p e →
  advance host p e w = (st, e', w') →
  match st with
  | Resolved a => Q a e'
  | Suspended c k => I e' ∧ ∀ x e'', I e'' → keeps I Q (k x) e''
  end.
Proof.
  revert e w. induction p as [a|k IH|e1 k IH|X c k IH]; intros e w; cbn.
  - intros HQ [= <- <- <-]. exact HQ.
  - apply IH.
  - apply IH.
  - destruct (awaited c).
    + intros HI [= <- <- <-]. exact HI.
    + intros Hk. destruct (answer host c w) as [x w1]. apply IH, Hk.
Qed.

Lemma step_guard_invariant s ev r s' :
  guard_invariant s → step host s ev r s' → guard_invariant s'.
Proof.
  unfold guard_invariant. intros Hinv Hstep.
  destruct Hstep as [s st e' w' Hadv|s i pd x w1 st e' w' Hpd Hans Hadv|s e' w' Hflag]; cbn.
  - destruct (inflight s) as [|pd [|pd' rest]] eqn:Hpool; [| |contradiction].
    + pose proof (advance_keeps _ _ _ _ _ _ _ _ (performSync_keeps _ Hinv) Hadv) as Hst.
      destruct st as [a|X c k]; cbn; [exact Hst|].
      destruct Hst as [Hi Hk]. split; [exact Hi|]. intros x e He. apply Hk, He.
    + destruct Hinv as [Hbusy Hhold].
      rewrite (settle_advance _ _ _ _ _ (settle_rejects _ Hbusy)) in Hadv.
      injection Hadv as <- <- <-. cbn. split; assumption.
  - destruct (inflight s) as [|pd0 [|pd' rest]] eqn:Hpool; [discriminate| |contradiction].
    destruct i as [|i]; [|discriminate]. injection Hpd as ->.
    destruct Hinv as [Hbusy Hhold]. cbn.
    pose proof (advance_keeps _ _ _ _ _ _ _ _ (Hhold x _ Hbusy) Hadv) as Hst.
    destruct st as [a|X c k]; cbn; [exact Hst|].
    destruct Hst as [Hi Hk]. split; [exact Hi|]. intros y e He. apply Hk, He.
  - destruct (inflight s) as [|pd [|pd' rest]]; [congruence| |contradiction].
    destruct Hinv as [Hbusy Hhold]. split; [congruence|exact Hhold].
Qed.

Lemma reachable_guard_invariant s : reachable host s → guard_invariant s.
Proof.
  induction 1 as [e w He|s ev r s' _ IH Hstep].
  - exact He.
  - eapply step_guard_invariant; eassumption.
Qed.

(** C4: in every reachable state with an invocation in flight, a new
    invocation of [performSync] resolves at once, without any call to the
    host, with the four counters at zero and one error entry; the engine, the
    world and the invocation in flight are as before. *)
Theorem overlapping_invocation_is_rejected s r s' :
  reachable host s →
  inflight s ≠ [] →
  step host s Invoke r s' →
  settle performSync (engine s) = Some (rejectedResult, engine s)
  ∧ r = Some rejectedResult
  ∧ engine s' = engine s ∧ world s' = world s ∧ inflight s' = inflight s
  ∧ created rejectedResult = 0%nat ∧ updated rejectedResult = 0%nat
  ∧ completed rejectedResult = 0%nat ∧ conflicts rejectedResult = 0%nat
  ∧ length (errors rejectedResult) = 1%nat.
Proof.
  intros Hreach Hbusy Hstep.
  pose proof (reachable_guard_invariant _ Hreach) as Hinv. unfold guard_invariant in Hinv.
  destruct (inflight s) as [|pd [|pd' rest]] eqn:Hpool; [congruence| |contradiction].
  destruct Hinv as [Hflag _].
  pose proof (settle_rejects _ Hflag) as Hsettle.
  split; [exact Hsettle|].
  inversion Hstep as [s0 st e' w' Hadv| |]; subst.
  rewrite (settle_advance _ _ _ _ _ Hsettle) in Hadv. injection Hadv as <- <- <-.
  cbn. rewrite Hpool, app_nil_r. repeat split; reflexivity.
Qed.

(** C9, as amended: in every reachable state with no invocation in flight
    the flag is down; and when an invocation resolves, either it is one that
    met the guard, and then it returned the rejection with the flag still up
    and the first invocation still in flight, or the flag is down and nothing
    is in flight. *)
Theorem flag_is_down_when_nothing_is_in_flight s :
  reachable host s →
  (inflight s = [] → isSyncing (engine s) = false)
  ∧ (∀ ev r s', step host s ev (Some r) s' →
       if meets_guard s ev
       then r = rejectedResult ∧ engine s' = engine s
            ∧ isSyncing (engine s') = true ∧ inflight s' ≠ []
       else isSyncing (engine s') = false ∧ inflight s' = []).
Proof.
  intros Hreach.
  pose proof (reachable_guard_invariant _ Hreach) as Hinv.
  split.
  - intros Hidle. unfold guard_invariant in Hinv. rewrite Hidle in Hinv. exact Hinv.
  - intros ev r s' Hstep.
    pose proof (step_guard_invariant _ _ _ _ Hinv Hstep) as Hinv'.
    unfold guard_invariant in Hinv, Hinv'.
    inversion Hstep as [s0 st e' w' Hadv Hs Hev Hres|s0 i pd x w1 st e' w' Hpd Hans Hadv Hs Hev Hres|];
      subst s0 ev s'; cbn [meets_guard engine inflight world] in *.
    + destruct st as [a|X c k]; [|discriminate]. injection Hres as ->.
      cbn [pending_of] in *. rewrite app_nil_r in *.
      destruct (isSyncing (engine s)) eqn:Hflag.
      * rewrite (settle_advance _ _ _ _ _ (settle_rejects _ Hflag)) in Hadv.
        injection Hadv as <- <- <-. repeat split; try assumption.
        destruct (inflight s) as [|pd rest]; [congruence|discriminate].
      * destruct (inflight s) as [|pd [|pd' rest]]; [|destruct Hinv; congruence|contradiction].
        split; [exact Hinv'|reflexivity].
    + destruct st as [a|X c k]; [|discriminate]. injection Hres as ->.
      cbn [pending_of] in *. rewrite app_nil_r in *.
      destruct (inflight s) as [|pd0 [|pd' rest]]; [discriminate| |contradiction].
      destruct i as [|i]; [|discriminate]. cbn in Hinv'. split; [exact Hinv'|reflexivity].
Qed.

End Overlap.

Lemma firstWaiting_step : step mock startSystem Invoke None firstWaiting.
Proof.
  pose proof (step_invoke mock startSystem) as Hs.
  specialize (Hs _ _ _ eq_refl). exact Hs.
Qed.

Lemma firstWaiting_reachable : reachable mock firstWaiting.
Proof.
  eapply reach_step; [|exact firstWaiting_step]. apply reach_start. reflexivity.
Qed.

Lemma firstWaiting_rejects :
  step mock firstWaiting Invoke (Some rejectedResult) firstWaiting.
Proof.
  pose proof (step_invoke mock firstWaiting) as Hs.
  specialize (Hs _ _ _ eq_refl). exact Hs.
Qed.

Lemma noteWaiting_step : step mock firstWaiting (Deliver 0) None noteWaiting.
Proof.
  pose proof (step_deliver mock firstWaiting 0) as Hs.
  specialize (Hs _ _ _ _ _ _ eq_refl eq_refl eq_refl). exact Hs.
Qed.

Lemma noteWaiting_reachable : reachable mock noteWaiting.
Proof. eapply reach_step; [exact firstWaiting_reachable|exact noteWaiting_step]. Qed.

Lemma passDone_step : step mock noteWaiting (Deliver 0) (Some emptyResult) passDone.
Proof.
  pose proof (step_deliver mock noteWaiting 0) as Hs.
  specialize (Hs _ _ _ _ _ _ eq_refl eq_refl eq_refl). exact Hs.
Qed.

Lemma offlineWaiting_reachable : reachable mock offlineWaiting.
Proof.
  eapply reach_step; [apply (reach_start mock engine7 offline); reflexivity|].
  pose proof (step_invoke mock {| engine := engine7; world := offline; inflight := [] |}) as Hs.
  specialize (Hs _ _ _ eq_refl). exact Hs.
Qed.

Lemma offlineDone_step :
  step mock offlineWaiting (Deliver 0) (Some fetchFailedResult) offlineDone.
Proof.
  pose proof (step_deliver mock offlineWaiting 0) as Hs.
  specialize (Hs _ _ _ _ _ _ eq_refl eq_refl eq_refl). exact Hs.
Qed.

Lemma unconfiguredStart_reachable : reachable mock unconfiguredStart.
Proof. apply reach_start. reflexivity. Qed.

Lemma unconfiguredStart_step :
  step mock unconfiguredStart Invoke (Some notConfiguredResult) unconfiguredStart.
Proof.
  pose proof (step_invoke mock unconfiguredStart) as Hs.
  specialize (Hs _ _ _ eq_refl). exact Hs.
Qed.

(** C9 as stated fails: the rejected invocation has resolved, and the flag
    is up. *)
Lemma flag_still_up_after_rejection :
  reachable mock firstWaiting
  ∧ step mock firstWaiting Invoke (Some rejectedResult) firstWaiting
  ∧ isSyncing (engine firstWaiting) = true.
Proof.
  split; [exact firstWaiting_reachable|]. split; [exact firstWaiting_rejects|]. reflexivity.
Qed.

(** * The theorems at concrete inputs *)

(** C2 on a gateway that answers the fetch with HTTP 500, the state
    holding the record of task 7. *)
Lemma fetch_failure_aborts_pass_witness :
  run mock performSync engine7 offline =
    ({| created := 0; updated := 0; completed := 0; conflicts := 0;
        errors := [lit "Failed to fetch Todoist tasks: " ++ lit "Error: HTTP 500"] |},
     engine7, offline).
Proof.
  apply (fetch_failure_aborts_pass mock engine7 offline offline offline
           (lit "Error: HTTP 500")); vm_compute; reflexivity.
Defined.

(** C3 on task 7, listed by the gateway, with a record and no line that
    carries its id. *)
Lemma orphan_cleanup_witness :
  tasks (syncState engine7) !! lit "7" = Some record7
  ∧ tasks (syncState (run mock performSync engine7 untagged).1.2) !! lit "7" = None.
Proof.
  split; [vm_compute; reflexivity|].
  apply (orphan_cleanup_removes_unlinked_remote_ids mock engine7 untagged untagged untagged
           [task7] [] (set_isSyncing true engine7) untagged (lit "7")).
  - vm_compute; reflexivity.
  - vm_compute; reflexivity.
  - vm_compute; reflexivity.
  - vm_compute; reflexivity.
  - apply list_elem_of_here.
  - vm_compute; reflexivity.
Defined.

(** C4 while a first invocation waits for the list of remote tasks. *)
Lemma overlapping_invocation_witness :
  inflight firstWaiting ≠ []
  ∧ settle performSync (engine firstWaiting) = Some (rejectedResult, engine firstWaiting).
Proof.
  assert (Hbusy : inflight firstWaiting ≠ []) by discriminate.
  split; [exact Hbusy|].
  apply (overlapping_invocation_is_rejected mock firstWaiting (Some rejectedResult)
           firstWaiting firstWaiting_reachable Hbusy firstWaiting_rejects).
Defined.

(** C5 on task 7, whose local text was edited. *)
Lemma ask_user_queues_conflict_witness :
  content rentTask ≠ task_content task7
  ∧ settle (syncOne [(lit "7", task7)] (lit "7", rentTask) emptyResult) askingEngine
    = Some (add_conflict emptyResult, push_conflict rentConflict askingEngine).
Proof.
  assert (Hdiff : content rentTask ≠ task_content task7) by (vm_compute; discriminate).
  split; [exact Hdiff|].
  apply (ask_user_queues_conflict mock [(lit "7", task7)] (lit "7") rentTask task7
           emptyResult askingEngine); [vm_compute; reflexivity | reflexivity
           | left; exact Hdiff | reflexivity].
Defined.

(** C9 on three resolutions: a pass that runs to its end, a pass that the
    gateway refuses the list of remote tasks, and an invocation without a
    token. *)
Lemma flag_is_down_witness :
  (reachable mock noteWaiting
   ∧ step mock noteWaiting (Deliver 0) (Some emptyResult) passDone
   ∧ isSyncing (engine noteWaiting) = true
   ∧ isSyncing (engine passDone) = false ∧ inflight passDone = [])
  ∧ (reachable mock offlineWaiting
     ∧ step mock offlineWaiting (Deliver 0) (Some fetchFailedResult) offlineDone
     ∧ isSyncing (engine offlineWaiting) = true
     ∧ isSyncing (engine offlineDone) = false ∧ inflight offlineDone = [])
  ∧ (reachable mock unconfiguredStart
     ∧ step mock unconfiguredStart Invoke (Some notConfiguredResult) unconfiguredStart
     ∧ isSyncing (engine unconfiguredStart) = false ∧ inflight unconfiguredStart = []).
Proof.
  split; [|split].
  - split; [exact noteWaiting_reachable|]. split; [exact passDone_step|].
    split; [reflexivity|].
    exact (proj2 (flag_is_down_when_nothing_is_in_flight mock noteWaiting
                    noteWaiting_reachable)
             (Deliver 0) emptyResult passDone passDone_step).
  - split; [exact offlineWaiting_reachable|]. split; [exact offlineDone_step|].
    split; [reflexivity|].
    exact (proj2 (flag_is_down_when_nothing_is_in_flight mock offlineWaiting
                    offlineWaiting_reachable)
             (Deliver 0) fetchFailedResult offlineDone offlineDone_step).
  - split; [exact unconfiguredStart_reachable|]. split; [exact unconfiguredStart_step|].
    exact (proj2 (flag_is_down_when_nothing_is_in_flight mock unconfiguredStart
                    unconfiguredStart_reachable)
             Invoke notConfiguredResult unconfiguredStart unconfiguredStart_step).
Defined.

(** C10 on task 7, whose remote text wins: the record written has both
    flags down. *)
Lemma linked_records_witness :
  tasks (syncState (run mock (syncOne [(lit "7", task7)] (lit "7", rentTask) emptyResult)
                        engine7 tickable).1.2) !! lit "7" = Some syncedRecord
  ∧ (tasks (syncState engine7) !! lit "7" = Some syncedRecord
     ∨ obsidianCompleted syncedRecord = todoistCompleted syncedRecord).
Proof.
  assert (Hrec : tasks (syncState (run mock (syncOne [(lit "7", task7)] (lit "7", rentTask)
                          emptyResult) engine7 tickable).1.2) !! lit "7" = Some syncedRecord)
    by (vm_compute; reflexivity).
  split; [exact Hrec|].
  apply (linked_records_have_equal_flags mock [(lit "7", task7)] (lit "7", rentTask)
           emptyResult engine7 tickable (lit "7") syncedRecord Hrec).
Defined.

(** * Further properties of the codec *)

(** ** What [trim] and the white-space collapse leave *)

Lemma span_app p s : s = (span p s).1 ++ (span p s).2.
Proof.
  induction s as [|c s IH]; [reflexivity|]. cbn.
  destruct (p c); [|reflexivity]. destruct (span p s) as [a b]. cbn in *. congruence.
Qed.

Lemma span_class p s : forallb p (span p s).1 = true.
Proof.
  induction s as [|c s IH]; [reflexivity|]. cbn.
  destruct (p c) eqn:E; [|reflexivity]. destruct (span p s) as [a b]. cbn in *.
  rewrite E. exact IH.
Qed.

Lemma skip_starts_dark p s : match skip p s with [] => True | c :: _ => p c = false end.
Proof.
  unfold skip. induction s as [|c s IH]; [exact I|]. cbn.
  destruct (p c) eqn:E; [|exact E]. destruct (span p s) as [a b]. exact IH.
Qed.

(** [trim s] is [s] without the white space at its two ends. *)
Lemma trim_spec s :
  ∃ a b, s = a ++ trim s ++ b
         ∧ forallb is_space a = true ∧ forallb is_space b = true
         ∧ match trim s with [] => True | c :: _ => is_space c = false end
         ∧ match rev (trim s) with [] => True | c :: _ => is_space c = false end.
Proof.
  unfold trim.
  set (t := skip is_space s).
  exists (span is_space s).1, (rev (span is_space (rev t)).1).
  pose proof (span_app is_space s) as Hs. fold (skip is_space s) in Hs. fold t in Hs.
  pose proof (span_app is_space (rev t)) as Ht. fold (skip is_space (rev t)) in Ht.
  set (u := skip is_space (rev t)) in *.
  assert (Et : t = rev u ++ rev (span is_space (rev t)).1).
  { rewrite <- rev_app_distr, <- Ht, rev_involutive. reflexivity. }
  split; [rewrite <- Et; exact Hs|].
  split; [apply span_class|].
  split; [rewrite forallb_rev; apply span_class|].
  split.
  - pose proof (skip_starts_dark is_space s) as Hh. fold t in Hh.
    destruct (rev u) as [|c r] eqn:Er; [exact I|].
    rewrite Et in Hh. exact Hh.
  - rewrite rev_involutive. apply skip_starts_dark.
Qed.

Lemma collapse_run_head s :
  match collapse_from true s with [] => True | d :: _ => is_space d = false end.
Proof.
  induction s as [|c s IH]; [exact I|]. cbn.
  destruct (is_space c) eqn:E; [exact IH|exact E].
Qed.

Lemma collapse_blank_separated b s : blank_separated (collapse_from b s) = true.
Proof.
  revert b. induction s as [|c s IH]; intros b; [reflexivity|]. cbn [collapse_from].
  destruct (is_space c) eqn:E.
  - destruct b; cbn [app]; [apply IH|].
    cbn [blank_separated]. change (is_space 32) with true. cbn [N.eqb Pos.eqb andb].
    rewrite IH, andb_true_r. pose proof (collapse_run_head s) as Hh.
    destruct (collapse_from true s); [reflexivity|]. rewrite Hh. reflexivity.
  - cbn [blank_separated]. rewrite E, IH. reflexivity.
Qed.

Lemma blank_separated_app_r a b : blank_separated (a ++ b) = true → blank_separated b = true.
Proof.
  induction a as [|c a IH]; [tauto|]. cbn. intros H.
  apply andb_true_iff in H as [_ H]. apply IH, H.
Qed.

Lemma blank_separated_app_l a b : blank_separated (a ++ b) = true → blank_separated a = true.
Proof.
  induction a as [|c a IH]; [reflexivity|]. cbn [app blank_separated]. intros H.
  apply andb_true_iff in H as [Hc H]. rewrite (IH H), andb_true_r.
  destruct (is_space c); [|reflexivity].
  apply andb_true_iff in Hc as [-> Hn]. destruct a as [|d a]; [reflexivity|exact Hn].
Qed.

Lemma blank_separated_single c x :
  blank_separated (c ++ [x]) = true → is_space x = false →
  single_spaced (c ++ [x]) = true.
Proof.
  intros H Hx. induction c as [|a c IH].
  - cbn. rewrite Hx. reflexivity.
  - cbn [app blank_separated single_spaced] in *.
    apply andb_true_iff in H as [Ha H]. rewrite (IH H), andb_true_r.
    destruct (is_space a); [|reflexivity].
    destruct (c ++ [x]) eqn:Ec; [destruct c; discriminate|exact Ha].
Qed.

Lemma tidy_ws_normal s : ws_normal (trim (collapse_ws s)) = true.
Proof.
  destruct (trim_spec (collapse_ws s)) as (a & b & Hs & _ & _ & Hhead & Hlast).
  pose proof (collapse_blank_separated false s) as Hbs. fold (collapse_ws s) in Hbs.
  rewrite Hs in Hbs. apply blank_separated_app_r, blank_separated_app_l in Hbs.
  destruct (trim (collapse_ws s)) as [|c0 c] eqn:Et; [reflexivity|].
  cbn [ws_normal]. rewrite Hhead. cbn [negb andb].
  destruct (exists_last (l := c0 :: c)) as (c' & z & Hz); [discriminate|].
  rewrite Hz in *. rewrite rev_app_distr in Hlast. cbn in Hlast.
  apply blank_separated_single; assumption.
Qed.

(** X1: The content of a parsed task has no white space at its ends, and
    inside it only single blanks. *)
Theorem cleanTaskContent_is_normalised taskContent syncTag :
  ws_normal (cleanTaskContent taskContent syncTag) = true.
Proof. unfold cleanTaskContent. apply tidy_ws_normal. Qed.

(** ** What a search finds *)

Lemma search_found {A} (m : matcher A) s pre a post :
  search m s = Some (pre, a, post) → ∃ t, s = pre ++ t ∧ m t = Some (a, post).
Proof.
  revert pre. induction s as [|c s IH]; intros pre; cbn.
  - destruct (m []) as [[a' r]|] eqn:E; [|discriminate].
    intros [= <- <- <-]. exists []. split; [reflexivity|exact E].
  - destruct (m (c :: s)) as [[a' r]|] eqn:E.
    + intros [= <- <- <-]. exists (c :: s). split; [reflexivity|exact E].
    + destruct (search m s) as [[[pre' a'] post']|]; [|discriminate].
      intros [= <- <- <-]. destruct (IH pre' eq_refl) as (t & -> & Ht).
      exists t. split; [reflexivity|exact Ht].
Qed.

Lemma exec_all_fuel_Forall {A} (P : A → Prop) (m : matcher A) fuel s :
  (∀ t a r, m t = Some (a, r) → P a) → Forall P (exec_all_fuel fuel m s).
Proof.
  intros Hm. revert s. induction fuel as [|fuel IH]; intros s; cbn; [constructor|].
  destruct (search m s) as [[[pre a] post]|] eqn:E; [|constructor].
  destruct (search_found _ _ _ _ _ E) as (t & _ & Ht).
  constructor; [eapply Hm, Ht|apply IH].
Qed.

Lemma some_class_spec p s a r :
  some_class p s = Some (a, r) → a ≠ [] ∧ forallb p a = true ∧ s = a ++ r.
Proof.
  unfold some_class. pose proof (span_class p s) as Hc. pose proof (span_app p s) as Hs.
  destruct (span p s) as [[|c x] y]; [discriminate|].
  intros [= <- <-]. cbn [fst snd] in *. repeat split; [discriminate|exact Hc|exact Hs].
Qed.

Lemma match_hashtag_name t a r :
  match_hashtag t = Some (a, r) → a ≠ [] ∧ forallb is_tagchar a = true.
Proof.
  unfold match_hashtag. destruct (strip (lit "#") t) as [s1|]; [|discriminate]. bind_step.
  intros H. apply some_class_spec in H as (Hne & Hc & _). split; assumption.
Qed.

Lemma lower_of_tagchar c : is_tagchar c = true → is_lower_tagchar (lower c) = true.
Proof.
  intros H. unfold lower.
  destruct ((65 <=? c) && (c <=? 90)) eqn:E.
  - apply andb_true_iff in E as [E1 E2]. apply N.leb_le in E1, E2.
    unfold is_lower_tagchar.
    replace (97 <=? c + 32) with true by (symmetry; apply N.leb_le; lia).
    replace (c + 32 <=? 122) with true by (symmetry; apply N.leb_le; lia).
    reflexivity.
  - unfold is_tagchar in H. rewrite E in H. unfold is_lower_tagchar.
    rewrite orb_false_r in H. exact H.
Qed.

(** X2: For a marker of ASCII characters, every label that [extractLabels]
    returns is a hashtag name in lower case, not empty, and not the marker's
    name.  (The hypothesis is the range in which [toLowerCase] is
    JavaScript's on the marker's name.) *)
Theorem extractLabels_are_lower_case_names content syncTag :
  is_ascii syncTag = true →
  forallb (wf_label syncTag) (extractLabels content syncTag) = true.
Proof.
  intros _. unfold extractLabels, exec_all.
  pose proof (exec_all_fuel_Forall (λ a, a ≠ [] ∧ forallb is_tagchar a = true)
                match_hashtag (S (length content)) content match_hashtag_name) as Hall.
  apply forallb_forall. intros l Hl. apply list_elem_of_In in Hl.
  apply list_elem_of_filter in Hl as [Hdiff Hl].
  apply list_elem_of_fmap in Hl as (a & -> & Ha).
  rewrite Forall_forall in Hall. destruct (Hall a Ha) as [Hne Hc].
  unfold wf_label. rewrite bool_decide_eq_false_2 by exact Hdiff.
  cbn [negb]. rewrite andb_true_r. apply andb_true_iff. split.
  - destruct a; [contradiction|reflexivity].
  - unfold toLowerCase. rewrite forallb_forall. intros c Hin.
    apply list_elem_of_In, list_elem_of_fmap in Hin as (c' & -> & Hc').
    apply lower_of_tagchar. rewrite forallb_forall in Hc. apply Hc, list_elem_of_In, Hc'.
Qed.

(** ** The shape of a task line *)

Lemma span_rest_head p s : (span p (span p s).2).1 = [].
Proof.
  induction s as [|c s IH]; [reflexivity|]. cbn.
  destruct (p c) eqn:E.
  - destruct (span p s) as [a b]. exact IH.
  - cbn. rewrite E. reflexivity.
Qed.

Lemma span_fixed p s : (span p s).1 = [] → (span p s).2 = s.
Proof.
  destruct s as [|c s]; [reflexivity|]. cbn. destruct (p c); [|reflexivity].
  destruct (span p s); discriminate.
Qed.

(** What [PATTERNS.task] matches: the indentation, a bullet, white space,
    the checkbox, white space, and the content up to the end of the line. *)
Lemma match_task_shape line indent cb content :
  match_task line = Some (indent, cb, content) ↔
  ∃ b ws1 ws2,
    line = indent ++ b :: ws1 ++ 91 :: cb :: 93 :: ws2 ++ content
    ∧ forallb is_space indent = true ∧ is_bullet b = true
    ∧ ws1 ≠ [] ∧ forallb is_space ws1 = true
    ∧ is_checkbox cb = true
    ∧ ws2 ≠ [] ∧ forallb is_space ws2 = true
    ∧ (span is_space content).1 = []
    ∧ forallb (λ c, negb (is_line_terminator c)) content = true.
Proof.
  split.
  - unfold match_task.
    pose proof (span_app is_space line) as Hline.
    pose proof (span_class is_space line) as Hind.
    destruct (span is_space line) as [ind s1]. cbn [fst snd] in *.
    destruct s1 as [|b s2]; [discriminate|].
    destruct (is_bullet b) eqn:Hb; [|discriminate].
    destruct (some_class is_space s2) as [[ws1 s3]|] eqn:H1; [|discriminate]. bind_step.
    destruct s3 as [|x1 s3]; [intros; discriminate|].
    destruct x1 as [|p]; [intros; discriminate|].
    do 7 (destruct p as [p|p|]; try (intros; discriminate)).
    destruct s3 as [|cb' s3]; [intros; discriminate|].
    destruct s3 as [|x3 s4]; [intros; discriminate|].
    destruct x3 as [|p]; [intros; discriminate|].
    do 7 (destruct p as [p|p|]; try (intros; discriminate)).
    destruct (is_checkbox cb') eqn:Hcb; [|discriminate].
    destruct (some_class is_space s4) as [[ws2 s5]|] eqn:H2; [|discriminate]. bind_step.
    destruct (forallb _ s5) eqn:Hlt; [|discriminate].
    intros [= <- <- <-].
    pose proof H2 as H2'. unfold some_class in H2'.
    pose proof (span_rest_head is_space s4) as Hrest.
    destruct (span is_space s4) as [[|y ys] z]; [discriminate|].
    injection H2' as <- <-. cbn [snd] in Hrest.
    apply some_class_spec in H1 as (Hne1 & Hc1 & ->).
    apply some_class_spec in H2 as (Hne2 & Hc2 & ->).
    exists b, ws1, (y :: ys). repeat split; try assumption; try discriminate.
  - intros (b & ws1 & ws2 & -> & Hind & Hb & Hne1 & Hc1 & Hcb & Hne2 & Hc2 & Hhead & Hlt).
    unfold match_task. rewrite (span_all is_space indent) by exact Hind.
    assert (Hbs : is_space b = false).
    { unfold is_bullet in Hb. apply orb_true_iff in Hb as [Hb|Hb];
        apply N.eqb_eq in Hb as ->; reflexivity. }
    rewrite (span_stop is_space b) by exact Hbs. cbn [fst snd]. rewrite app_nil_r, Hb.
    rewrite (some_class_all is_space ws1 (91 :: cb :: 93 :: ws2 ++ content))
      by (try assumption; reflexivity).
    rewrite (span_stop is_space 91) by reflexivity. cbn [snd]. bind_step. rewrite Hcb.
    rewrite (some_class_all is_space ws2 content) by assumption. bind_step.
    rewrite (span_fixed _ _ Hhead), Hlt. reflexivity.
Qed.

Lemma open_box_head c s : (c =? 91) = false → match_open_box (c :: s) = None.
Proof.
  intros Hc. unfold match_open_box. destruct c as [|p]; [reflexivity|].
  do 7 (destruct p as [p|p|]; try reflexivity). discriminate.
Qed.

Lemma done_box_head c s : (c =? 91) = false → match_done_box (c :: s) = None.
Proof.
  intros Hc. unfold match_done_box. destruct c as [|p]; [reflexivity|].
  do 7 (destruct p as [p|p|]; try reflexivity). discriminate.
Qed.

Lemma space_not_bracket c : is_space c = true → (c =? 91) = false.
Proof. class_solve. Qed.

Lemma bullet_not_bracket c : is_bullet c = true → (c =? 91) = false.
Proof.
  unfold is_bullet. intros H. apply orb_true_iff in H as [H|H];
    apply N.eqb_eq in H as ->; reflexivity.
Qed.

Lemma before_checkbox indent b ws1 :
  forallb is_space indent = true → is_bullet b = true → forallb is_space ws1 = true →
  forallb (λ c, negb (c =? 91)) (indent ++ b :: ws1) = true.
Proof.
  intros Hi Hb Hw. rewrite forallb_app. cbn [forallb].
  rewrite (bullet_not_bracket _ Hb). cbn [negb andb].
  apply andb_true_iff. split; apply forallb_forall; intros c Hc.
  - rewrite forallb_forall in Hi. rewrite (space_not_bracket _ (Hi c Hc)). reflexivity.
  - rewrite forallb_forall in Hw. rewrite (space_not_bracket _ (Hw c Hc)). reflexivity.
Qed.

Lemma flip_checkbox line indent cb content (isCompleted : bool) :
  match_task line = Some (indent, cb, content) →
  (lower cb =? 120) = negb isCompleted →
  let glyph := if isCompleted then 120 else 32 in
  (∃ pre post,
     line = pre ++ [91; cb; 93] ++ post
     ∧ updateTaskCompletion line isCompleted = pre ++ [91; glyph; 93] ++ post)
  ∧ match_task (updateTaskCompletion line isCompleted) = Some (indent, glyph, content).
Proof.
  intros Hm Hcb glyph.
  apply match_task_shape in Hm
    as (b & ws1 & ws2 & -> & Hind & Hb & Hne1 & Hc1 & Hbox & Hne2 & Hc2 & Hhead & Hlt).
  pose proof (before_checkbox indent b ws1 Hind Hb Hc1) as Hpre.
  assert (Hupd : updateTaskCompletion
                   (indent ++ b :: ws1 ++ 91 :: cb :: 93 :: ws2 ++ content) isCompleted
                 = (indent ++ b :: ws1) ++ [91; glyph; 93] ++ ws2 ++ content).
  { unfold updateTaskCompletion, replace_first.
    replace (indent ++ b :: ws1 ++ 91 :: cb :: 93 :: ws2 ++ content)
      with ((indent ++ b :: ws1) ++ 91 :: cb :: 93 :: ws2 ++ content)
      by (rewrite <- app_assoc; reflexivity).
    destruct isCompleted; cbn [negb] in Hcb.
    - rewrite (search_skip_chars match_open_box (λ c, negb (c =? 91)))
        by (try exact Hpre; intros c s Hc; apply open_box_head, negb_true_iff, Hc).
      assert (Hsp : is_space cb = true).
      { unfold is_checkbox in Hbox.
        apply orb_true_iff in Hbox as [Hbox|Hbox]; [apply orb_true_iff in Hbox as [Hbox|Hbox]|];
          apply N.eqb_eq in Hbox; subst cb; [reflexivity|discriminate|discriminate]. }
      rewrite (search_here match_open_box _ () (ws2 ++ content))
        by (cbn; rewrite Hsp; reflexivity).
      cbn [shift]. rewrite app_nil_r. reflexivity.
    - rewrite (search_skip_chars match_done_box (λ c, negb (c =? 91)))
        by (try exact Hpre; intros c s Hc; apply done_box_head, negb_true_iff, Hc).
      assert (Hx : (cb =? 120) || (cb =? 88) = true).
      { unfold is_checkbox in Hbox.
        apply orb_true_iff in Hbox as [Hbox|Hbox]; [apply orb_true_iff in Hbox as [Hbox|Hbox]|];
          apply N.eqb_eq in Hbox; subst cb; [discriminate|reflexivity|reflexivity]. }
      rewrite (search_here match_done_box _ () (ws2 ++ content))
        by (cbn; rewrite Hx; reflexivity).
      cbn [shift]. rewrite app_nil_r. reflexivity. }
  split.
  - exists (indent ++ b :: ws1), (ws2 ++ content). split; [|exact Hupd].
    rewrite <- app_assoc. reflexivity.
  - rewrite Hupd. apply match_task_shape. exists b, ws1, ws2.
    repeat split; try assumption; [rewrite <- app_assoc; reflexivity|].
    unfold glyph. destruct isCompleted; reflexivity.
Qed.

(** X3: On a task line [updateTaskCompletion] rewrites the checkbox and nothing
    else: ticking a line whose checkbox is open, or unticking a line whose
    checkbox is ticked, gives the same line with the other glyph in the
    checkbox, which is again a task line with the same indentation and
    content. *)
Theorem updateTaskCompletion_flips_checkbox line indent cb content (isCompleted : bool) :
  match_task line = Some (indent, cb, content) →
  (lower cb =? 120) = negb isCompleted →
  let glyph := if isCompleted then 120 else 32 in
  (∃ pre post,
     line = pre ++ [91; cb; 93] ++ post
     ∧ updateTaskCompletion line isCompleted = pre ++ [91; glyph; 93] ++ post)
  ∧ match_task (updateTaskCompletion line isCompleted) = Some (indent, glyph, content).
Proof. apply flip_checkbox. Qed.

(** X25: Ticking or unticking the line of a parsed task changes nothing of what
    the parser reads from the line but the completion: the marker, the id,
    the due date, the priority, the labels and the content are as before. *)
Theorem updateTaskCompletion_changes_only_completion
    line lineNo path syncTag modified task (completed : bool) :
  parseTaskLine line lineNo path syncTag modified = Some task →
  isCompleted task = negb completed →
  parseTaskLine (updateTaskCompletion line completed) lineNo path syncTag modified
  = Some {| originalLine := updateTaskCompletion line completed;
            lineNumber := lineNumber task; filePath := filePath task;
            content := content task; isCompleted := completed;
            todoistId := todoistId task; dueDate := dueDate task;
            priority := priority task; labels := labels task;
            description := description task; lastModified := lastModified task |}.
Proof.
  intros Hparse Hdone. unfold parseTaskLine in Hparse.
  destruct (match_task line) as [[[indent cb] taskContent]|] eqn:Htask; [|discriminate].
  destruct (test (match_syncTag syncTag) taskContent) eqn:Hmarked; [|discriminate].
  cbn [negb] in Hparse. injection Hparse as <-. cbn [isCompleted] in Hdone.
  destruct (flip_checkbox line indent cb taskContent completed Htask Hdone) as [_ Hflip].
  unfold parseTaskLine. rewrite Hflip, Hmarked. cbn [negb]. f_equal. f_equal.
  destruct completed; reflexivity.
Qed.

(** ** The tasks of a file *)

Lemma parseTaskLine_fields line i path tag mt t :
  parseTaskLine line i path tag mt = Some t →
  originalLine t = line ∧ lineNumber t = i ∧ filePath t = path ∧ lastModified t = mt
  ∧ description t = [].
Proof.
  unfold parseTaskLine. destruct (match_task line) as [[[ind cb] c]|]; [|discriminate].
  destruct (negb _); [discriminate|]. intros [= <-]. repeat split.
Qed.

Lemma omap_seq_sorted {A} (f : nat → option A) (key : A → nat) a n :
  (∀ i x, f i = Some x → key x = i) →
  (∀ i j x y, omap f (seq a n) !! i = Some x → omap f (seq a n) !! j = Some y →
              (i < j)%nat → (key x < key y)%nat)
  ∧ Forall (λ x, (a ≤ key x)%nat) (omap f (seq a n)).
Proof.
  intros Hkey. revert a. induction n as [|n IH]; intros a; cbn.
  - split; [intros i j x y Hx; rewrite lookup_nil in Hx; discriminate|constructor].
  - destruct (IH (S a)) as [Hs Hb].
    assert (Hb' : Forall (λ x, (a ≤ key x)%nat) (omap f (seq (S a) n))).
    { eapply Forall_impl; [exact Hb|]. cbn. intros; lia. }
    destruct (f a) as [x0|] eqn:E; [|split; assumption].
    split.
    + intros i j x y Hx Hy Hij. destruct j as [|j]; [lia|]. cbn in Hy.
      destruct i as [|i].
      * cbn in Hx. injection Hx as <-. rewrite (Hkey _ _ E).
        rewrite Forall_forall in Hb. apply list_elem_of_lookup_2, Hb in Hy. lia.
      * cbn in Hx. apply (Hs i j); [assumption|assumption|lia].
    + constructor; [rewrite (Hkey _ _ E); lia|exact Hb'].
Qed.

Lemma parseTasksFromContent_elem text path tag mt t :
  t ∈ parseTasksFromContent text path tag mt →
  ∃ line t0,
    split_lines text !! lineNumber t = Some line
    ∧ parseTaskLine line (lineNumber t) path tag mt = Some t0
    ∧ t = with_description t0 (extractDescription (split_lines text) (lineNumber t)).
Proof.
  unfold parseTasksFromContent. intros Ht.
  apply list_elem_of_omap in Ht as (i & _ & Hi).
  destruct (split_lines text !! i) as [line|] eqn:Hl; [|discriminate]. cbn in Hi.
  destruct (parseTaskLine line i path tag mt) as [t0|] eqn:Hp; [|discriminate]. cbn in Hi.
  injection Hi as <-.
  pose proof (parseTaskLine_fields _ _ _ _ _ _ Hp) as (_ & Hn & _).
  cbn [lineNumber with_description]. rewrite Hn. exists line, t0. repeat split; assumption.
Qed.

Lemma parseTasksFromContent_complete text path tag mt i line t0 :
  split_lines text !! i = Some line →
  parseTaskLine line i path tag mt = Some t0 →
  with_description t0 (extractDescription (split_lines text) i)
  ∈ parseTasksFromContent text path tag mt.
Proof.
  intros Hl Hp. unfold parseTasksFromContent. apply list_elem_of_omap. exists i. split.
  - apply elem_of_seq. apply lookup_lt_Some in Hl. lia.
  - rewrite Hl. cbn. rewrite Hp. reflexivity.
Qed.

(** X4: [parseTasksFromContent] returns one task for every line that
    [parseTaskLine] accepts, in the order of the lines: the line numbers are
    strictly increasing, every task carries the path and the modification
    time given, and the line of the content at the task's line number is the
    task's [originalLine]. *)
Theorem parseTasksFromContent_tasks_point_at_their_lines text path tag mt :
  let found := parseTasksFromContent text path tag mt in
  (∀ i j t u, found !! i = Some t → found !! j = Some u → (i < j)%nat →
              (lineNumber t < lineNumber u)%nat)
  ∧ (∀ t, t ∈ found →
       split_lines text !! lineNumber t = Some (originalLine t)
       ∧ filePath t = path ∧ lastModified t = mt
       ∧ description t = extractDescription (split_lines text) (lineNumber t)
       ∧ parseTaskLine (originalLine t) (lineNumber t) path tag mt
         = Some (with_description t []))
  ∧ (∀ i line t0,
       split_lines text !! i = Some line →
       parseTaskLine line i path tag mt = Some t0 →
       with_description t0 (extractDescription (split_lines text) i) ∈ found).
Proof.
  intros found. unfold found, parseTasksFromContent.
  set (lines := split_lines text).
  set (f := λ i : nat,
         line ← lines !! i;
         task ← parseTaskLine line i path tag mt;
         Some (with_description task (extractDescription lines i))).
  assert (Hf : ∀ i t, f i = Some t →
            ∃ line t0, lines !! i = Some line ∧ parseTaskLine line i path tag mt = Some t0
                       ∧ t = with_description t0 (extractDescription lines i)).
  { intros i t. unfold f. destruct (lines !! i) as [line|]; [|discriminate]. cbn.
    destruct (parseTaskLine line i path tag mt) as [t0|] eqn:E; [|discriminate]. cbn.
    intros [= <-]. exists line, t0. repeat split. exact E. }
  split; [|split].
  - apply (omap_seq_sorted f lineNumber 0 (length lines)).
    intros i t Ht. destruct (Hf i t Ht) as (line & t0 & _ & Hp & ->).
    apply parseTaskLine_fields in Hp as (_ & Hn & _). exact Hn.
  - intros t Ht. apply list_elem_of_omap in Ht as (i & _ & Hi).
    destruct (Hf i t Hi) as (line & t0 & Hl & Hp & ->).
    pose proof (parseTaskLine_fields _ _ _ _ _ _ Hp) as (Ho & Hn & Hpath & Hmt & Hd).
    cbn [lineNumber originalLine filePath lastModified description with_description].
    rewrite Ho, Hn. repeat split; try assumption.
    rewrite Hp. f_equal. destruct t0; cbn in *. subst. reflexivity.
  - intros i line t0 Hl Hp. apply list_elem_of_omap. exists i. split.
    + apply elem_of_seq. apply lookup_lt_Some in Hl. lia.
    + unfold f. rewrite Hl. cbn. rewrite Hp. reflexivity.
Qed.

(** ** Lines *)

Lemma split_lines_cons s : ∃ l ls, split_lines s = l :: ls.
Proof.
  induction s as [|c s (l & ls & IH)]; cbn; [eauto|].
  destruct (c =? 10); [eauto|]. rewrite IH. eauto.
Qed.

Lemma split_lines_no_newline s : Forall (λ l, forallb (λ c, negb (c =? 10)) l = true) (split_lines s).
Proof.
  induction s as [|c s IH]; cbn; [repeat constructor|].
  destruct (c =? 10) eqn:E; [constructor; [reflexivity|exact IH]|].
  destruct (split_lines s) as [|l ls]; [repeat constructor; cbn; rewrite E; reflexivity|].
  inversion IH; subst. constructor; [cbn; rewrite E; assumption|assumption].
Qed.

Lemma split_lines_line l s :
  forallb (λ c, negb (c =? 10)) l = true →
  split_lines (l ++ 10 :: s) = l :: split_lines s.
Proof.
  induction l as [|c l IH]; cbn; [reflexivity|]. intros H.
  apply andb_true_iff in H as [Hc Hl]. apply negb_true_iff in Hc. rewrite Hc, (IH Hl).
  reflexivity.
Qed.

Lemma split_lines_last l :
  forallb (λ c, negb (c =? 10)) l = true → split_lines l = [l].
Proof.
  induction l as [|c l IH]; cbn; [reflexivity|]. intros H.
  apply andb_true_iff in H as [Hc Hl]. apply negb_true_iff in Hc. rewrite Hc, (IH Hl).
  reflexivity.
Qed.

(** [lines.join('\n').split('\n')] gives the lines back. *)
Lemma split_join ls :
  ls ≠ [] → Forall (λ l, forallb (λ c, negb (c =? 10)) l = true) ls →
  split_lines (join_lines ls) = ls.
Proof.
  induction ls as [|l ls IH]; [congruence|]. intros _ H. inversion H as [|? ? Hl Hls]; subst.
  destruct ls as [|l' ls]; [apply split_lines_last, Hl|].
  change (join_lines (l :: l' :: ls)) with (l ++ 10 :: join_lines (l' :: ls)).
  rewrite split_lines_line by exact Hl. rewrite IH; [reflexivity|discriminate|exact Hls].
Qed.

(** [content.split('\n').join('\n')] gives the content back. *)
Lemma join_split s : join_lines (split_lines s) = s.
Proof.
  induction s as [|c s IH]; [reflexivity|]. cbn [split_lines].
  destruct (split_lines_cons s) as (l & ls & E). rewrite E in *.
  destruct (c =? 10) eqn:Ec.
  - apply N.eqb_eq in Ec as ->. change (join_lines ([] :: l :: ls)) with (10 :: join_lines (l :: ls)).
    rewrite IH. reflexivity.
  - destruct ls; cbn in *; rewrite <- IH; reflexivity.
Qed.

Lemma forallb_app_inv {A} (p : A → bool) a b c :
  forallb p (a ++ b ++ c) = true → forallb p b = true.
Proof.
  rewrite !forallb_app. intros H. apply andb_true_iff in H as [_ H].
  apply andb_true_iff in H as [H _]. exact H.
Qed.

Lemma trim_no_newline l :
  forallb (λ c, negb (c =? 10)) l = true → forallb (λ c, negb (c =? 10)) (trim l) = true.
Proof.
  intros H. destruct (trim_spec l) as (a & b & Hl & _). rewrite Hl in H.
  eapply forallb_app_inv, H.
Qed.

(** ** The description of a task *)

Lemma description_lines_from n following d :
  d ∈ description_lines n following →
  ∃ j line,
    following !! j = Some line ∧ d = trim line ∧ d ≠ []
    ∧ (n < indent_of line)%nat ∧ match_task line = None
    ∧ ∀ k l, (k < j)%nat → following !! k = Some l →
        match_task l = None ∧ (trim l = [] ∨ (n < indent_of l)%nat).
Proof.
  induction following as [|line following IH]; cbn [description_lines].
  - intros H. apply elem_of_nil in H. contradiction.
  - destruct (nonempty (trim line) && (indent_of line <=? n)%nat) eqn:Estop;
      [intros H; apply elem_of_nil in H; contradiction|].
    destruct (bool_decide (is_Some (match_task line))) eqn:Etask;
      [intros H; apply elem_of_nil in H; contradiction|].
    apply bool_decide_eq_false in Etask.
    assert (Hnone : match_task line = None).
    { destruct (match_task line); [exfalso; apply Etask; eauto|reflexivity]. }
    assert (Hdeep : trim line = [] ∨ (n < indent_of line)%nat).
    { destruct (trim line); [left; reflexivity|]. cbn in Estop.
      apply Nat.leb_gt in Estop. right. exact Estop. }
    assert (Hrest : d ∈ description_lines n following →
              ∃ j line0, (line :: following) !! j = Some line0 ∧ d = trim line0 ∧ d ≠ []
                ∧ (n < indent_of line0)%nat ∧ match_task line0 = None
                ∧ ∀ k l, (k < j)%nat → (line :: following) !! k = Some l →
                    match_task l = None ∧ (trim l = [] ∨ (n < indent_of l)%nat)).
    { intros Hd. destruct (IH Hd) as (j & line0 & Hj & Ht & Hne & Hind & Hm & Hbefore).
      exists (S j), line0. repeat split; try assumption.
      - destruct k as [|k]; cbn in H0; [injection H0 as <-; exact Hnone|].
        apply (Hbefore k l); [lia|exact H0].
      - destruct k as [|k]; cbn in H0; [injection H0 as <-; exact Hdeep|].
        apply (Hbefore k l); [lia|exact H0]. }
    destruct (nonempty (trim line)) eqn:Ene; [|exact Hrest].
    intros Hd. apply elem_of_cons in Hd as [->|Hd]; [|apply Hrest, Hd].
    exists 0%nat, line. repeat split; try assumption; try lia.
    + intros E. rewrite E in Ene. discriminate.
    + destruct Hdeep as [E|Hlt]; [rewrite E in Ene; discriminate|exact Hlt].
Qed.

Lemma description_lines_no_newline n following :
  Forall (λ l, forallb (λ c, negb (c =? 10)) l = true) following →
  Forall (λ l, forallb (λ c, negb (c =? 10)) l = true) (description_lines n following).
Proof.
  induction 1 as [|line following Hl Hf IH]; cbn [description_lines]; [constructor|].
  destruct (_ && _); [constructor|]. destruct (bool_decide _); [constructor|].
  destruct (nonempty (trim line)); [|exact IH].
  constructor; [apply trim_no_newline, Hl|exact IH].
Qed.

(** X5: Every line of a task's description is the trimmed text of a line below
    the task that is not blank, is indented deeper than the task and is not a
    checkbox item; and every line between the task and that line is either
    blank or indented deeper, and is no checkbox item. *)
Theorem extractDescription_takes_deeper_lines text i d :
  let lines := split_lines text in
  extractDescription lines i ≠ [] →
  d ∈ split_lines (extractDescription lines i) →
  ∃ j line,
    (i < j)%nat ∧ lines !! j = Some line ∧ d = trim line ∧ d ≠ []
    ∧ (indent_of (default [] (lines !! i)) < indent_of line)%nat
    ∧ match_task line = None
    ∧ ∀ k l, (i < k < j)%nat → lines !! k = Some l →
        match_task l = None
        ∧ (trim l = [] ∨ (indent_of (default [] (lines !! i)) < indent_of l)%nat).
Proof.
  intros lines Hne Hd. unfold extractDescription in *.
  set (n := indent_of (default [] (lines !! i))) in *.
  set (ds := description_lines n (drop (S i) lines)) in *.
  assert (Hds : ds ≠ []) by (intros E; rewrite E in Hne; apply Hne; reflexivity).
  rewrite split_join in Hd; [|exact Hds|].
  2:{ apply description_lines_no_newline, Forall_drop, split_lines_no_newline. }
  apply description_lines_from in Hd as (j & line & Hj & Ht & Hnb & Hind & Hm & Hbefore).
  rewrite lookup_drop in Hj.
  exists (S i + j)%nat, line. repeat split; try assumption; try lia.
  - apply (Hbefore (k - S i)%nat l); [lia|].
    rewrite lookup_drop. replace (S i + (k - S i))%nat with k by lia. assumption.
  - apply (Hbefore (k - S i)%nat l); [lia|].
    rewrite lookup_drop. replace (S i + (k - S i))%nat with k by lia. assumption.
Qed.

(** * The editor's line *)

Lemma search_suffix {A} (m : matcher A) a s x r :
  m s = Some (x, r) → test m (a ++ s) = true.
Proof.
  intros Hm. unfold test. induction a as [|c a IH]; cbn [app].
  - rewrite (search_here m s x r Hm). reflexivity.
  - cbn [search]. destruct (m (c :: a ++ s)) as [[y t]|]; [reflexivity|].
    destruct (search m (a ++ s)) as [[[pre y] post]|]; [reflexivity|discriminate].
Qed.

Lemma marker_appended syncTag a :
  test (match_syncTag syncTag) (a ++ lit " " ++ syncTag) = true.
Proof.
  rewrite app_assoc. apply (search_suffix _ _ _ () []).
  unfold match_syncTag. rewrite <- (app_nil_r syncTag) at 2.
  rewrite strip_ci_self. reflexivity.
Qed.

Lemma ends_dark_suffix a r : ends_dark (a ++ r) → r ≠ [] → ends_dark r.
Proof.
  unfold ends_dark. rewrite rev_app_distr. intros H Hr.
  destruct (rev r) as [|c t] eqn:E; [|exact H].
  apply (f_equal (@rev N)) in E. rewrite rev_involutive in E. contradiction.
Qed.

Lemma ends_dark_blank a sp : sp ≠ [] → forallb is_space sp = true → ¬ ends_dark (a ++ sp).
Proof.
  unfold ends_dark. rewrite rev_app_distr. intros Hne Hsp.
  rewrite <- forallb_rev in Hsp.
  destruct (rev sp) as [|c t] eqn:E.
  - apply (f_equal (@rev N)) in E. rewrite rev_involutive in E. contradiction.
  - cbn in *. apply andb_true_iff in Hsp as [Hc _]. congruence.
Qed.

Lemma drop_bullet_dark s : ends_dark s → ends_dark (drop_bullet s).
Proof.
  intros Hs. unfold drop_bullet. destruct s as [|c s]; [exact Hs|].
  destruct (is_listbullet c); [|exact Hs].
  destruct (some_class is_space s) as [[sp rest]|] eqn:E; [|exact Hs].
  apply some_class_spec in E as (Hne & Hsp & ->).
  destruct rest as [|x rest].
  - exfalso. rewrite app_nil_r in Hs. apply (ends_dark_blank [c] sp Hne Hsp). exact Hs.
  - apply (ends_dark_suffix (c :: sp)); [exact Hs|discriminate].
Qed.

Lemma drop_number_dark s : ends_dark s → ends_dark (drop_number s).
Proof.
  intros Hs. unfold drop_number.
  destruct (some_class is_digit s) as [[ds [|c s1]]|] eqn:E; try exact Hs.
  destruct c as [|p]; [exact Hs|].
  do 6 (destruct p as [p|p|]; try exact Hs).
  destruct (some_class is_space s1) as [[sp rest]|] eqn:E1; [|exact Hs].
  apply some_class_spec in E as (_ & _ & ->).
  apply some_class_spec in E1 as (Hne & Hsp & ->).
  destruct rest as [|x rest].
  - exfalso. rewrite app_nil_r in Hs. apply (ends_dark_blank (ds ++ [46]) sp Hne Hsp).
    rewrite <- app_assoc. exact Hs.
  - apply (ends_dark_suffix (ds ++ 46 :: sp)); [|discriminate].
    rewrite <- app_assoc. exact Hs.
Qed.

Lemma trim_dark s : trim s ≠ [] → ends_dark (trim s).
Proof.
  intros Hne. destruct (trim_spec s) as (a & b & _ & _ & _ & _ & Hlast).
  unfold ends_dark. destruct (rev (trim s)) as [|c t] eqn:E; [|exact Hlast].
  apply (f_equal (@rev N)) in E. rewrite rev_involutive in E. contradiction.
Qed.

Lemma dark_trim s : ends_dark s → trim s ≠ [].
Proof.
  intros Hs Ht. destruct (trim_spec s) as (a & b & Hsplit & Ha & Hb & _).
  rewrite Ht in Hsplit. cbn in Hsplit. unfold ends_dark in Hs.
  assert (Hall : forallb is_space (rev s) = true).
  { rewrite forallb_rev, Hsplit, forallb_app, Ha, Hb. reflexivity. }
  destruct (rev s) as [|c t]; [exact Hs|]. cbn in Hall.
  apply andb_true_iff in Hall as [Hc _]. congruence.
Qed.

(** X6: What [createTaskFromLine] makes of a line.  The return "Cannot create
    task from empty bullet." is never taken: once the line is not blank,
    what is left after the list marker is not blank either.  The content it
    goes on with always carries the marker; for a line that is a checkbox
    item the prefix is the indentation of the item, and such a line is turned
    down exactly when it carries an id comment. *)
Theorem lineTaskOf_never_finds_an_empty_bullet syncTag lineContent :
  lineTaskOf syncTag lineContent ≠ noTask (lit "Cannot create task from empty bullet.")
  ∧ (∀ isTask prefix content,
       lineTaskOf syncTag lineContent = lineTask isTask prefix content →
       test (match_syncTag syncTag) content = true
       ∧ prefix = (span is_space lineContent).1
       ∧ isTask = bool_decide (is_Some (match_task lineContent)))
  ∧ (∀ indent cb content,
       match_task lineContent = Some (indent, cb, content) →
       (lineTaskOf syncTag lineContent = noTask (lit "Task is already synced with Todoist.")
        ↔ is_Some (capture match_todoistId content))).
Proof.
  unfold lineTaskOf.
  destruct (match_task lineContent) as [[[indent cb] content]|] eqn:Htask.
  - assert (Hind : indent = (span is_space lineContent).1).
    { apply match_task_shape in Htask as (b & ws1 & ws2 & -> & Hsp & Hb & _).
      rewrite (span_all is_space indent) by exact Hsp.
      assert (Hbs : is_space b = false).
      { unfold is_bullet in Hb. apply orb_true_iff in Hb as [Hb|Hb];
          apply N.eqb_eq in Hb as ->; reflexivity. }
      rewrite (span_stop is_space b) by exact Hbs. cbn. rewrite app_nil_r. reflexivity. }
    split; [|split].
    + destruct (bool_decide _); [discriminate|]. destruct (negb _); discriminate.
    + intros isTask prefix c. case_bool_decide as Hid; [discriminate|].
      destruct (test (match_syncTag syncTag) content) eqn:Htag; cbn [negb];
        intros [= <- <- <-]; (split; [|split; [exact Hind|]]).
      * exact Htag.
      * symmetry. apply bool_decide_eq_true. eauto.
      * apply marker_appended.
      * symmetry. apply bool_decide_eq_true. eauto.
    + intros indent' cb' content' [= <- <- <-]. case_bool_decide as Hid.
      * split; [intros _; exact Hid|reflexivity].
      * split; [|contradiction]. destruct (negb _); discriminate.
  - split; [|split].
    + destruct (nonempty (trim lineContent)) eqn:Hne; cbn [negb]; [|discriminate].
      assert (Hdark : ends_dark (drop_number (drop_bullet (trim lineContent)))).
      { apply drop_number_dark, drop_bullet_dark, trim_dark.
        destruct (trim lineContent); [discriminate|discriminate]. }
      apply dark_trim in Hdark.
      destruct (trim (drop_number (drop_bullet (trim lineContent)))); [contradiction|].
      cbn. discriminate.
    + intros isTask prefix c.
      destruct (negb (nonempty (trim lineContent))); [discriminate|].
      destruct (negb (nonempty _)); [discriminate|].
      intros [= <- <- <-]. split; [apply marker_appended|]. split; [reflexivity|].
      symmetry. apply bool_decide_eq_false. intros [x Hx]. discriminate.
    + intros indent cb content. discriminate.
Qed.

(** * The id comment *)

Lemma skip_spec s : ∃ sp, s = sp ++ skip is_space s ∧ forallb is_space sp = true.
Proof.
  exists (span is_space s).1. split; [apply span_app|apply span_class].
Qed.

Lemma space_not_digit c : is_space c = true → is_digit c = false.
Proof. class_solve. Qed.

Lemma digit_not_space c : is_digit c = true → is_space c = false.
Proof. class_solve. Qed.

Lemma span_blocked p a b :
  forallb p a = true → match b with c :: _ => p c = false | [] => True end →
  span p (a ++ b) = (a, b).
Proof.
  intros Ha Hb. rewrite span_all by exact Ha.
  destruct b as [|c b]; [cbn; rewrite app_nil_r; reflexivity|].
  rewrite (span_stop p c b Hb). cbn. rewrite app_nil_r. reflexivity.
Qed.

(** What [PATTERNS.todoistId] matches at the head of a string. *)
Lemma match_todoistId_shape s ds r :
  match_todoistId s = Some (ds, r) ↔
  ∃ w1 w2 w3,
    s = lit "<!--" ++ w1 ++ lit "todoist-id:" ++ w2 ++ ds ++ w3 ++ lit "-->" ++ r
    ∧ forallb is_space w1 = true ∧ forallb is_space w2 = true
    ∧ forallb is_space w3 = true ∧ ds ≠ [] ∧ forallb is_digit ds = true.
Proof.
  split.
  - unfold match_todoistId.
    destruct (strip (lit "<!--") s) as [s1|] eqn:E1; [|discriminate]. bind_step.
    destruct (skip_spec s1) as (w1 & Hs1 & Hw1).
    remember (skip is_space s1) as k1 eqn:Hk1. clear Hk1.
    destruct (strip (lit "todoist-id:") k1) as [s2|] eqn:E2; [|discriminate].
    bind_step.
    destruct (skip_spec s2) as (w2 & Hs2 & Hw2).
    remember (skip is_space s2) as k2 eqn:Hk2. clear Hk2.
    destruct (some_class is_digit k2) as [[ds' s3]|] eqn:E3; [|discriminate].
    bind_step.
    destruct (skip_spec s3) as (w3 & Hs3 & Hw3).
    remember (skip is_space s3) as k3 eqn:Hk3. clear Hk3.
    destruct (strip (lit "-->") k3) as [s4|] eqn:E4; [|discriminate].
    bind_step. intros [= <- <-].
    apply strip_with_spec in E1, E2, E4.
    apply some_class_spec in E3 as (Hne & Hds & E3).
    exists w1, w2, w3. repeat split; try assumption.
    subst. rewrite <- ?app_assoc. reflexivity.
  - intros (w1 & w2 & w3 & -> & Hw1 & Hw2 & Hw3 & Hne & Hds).
    unfold match_todoistId. rewrite (strip_self (lit "<!--")). bind_step.
    rewrite skip_all by exact Hw1. rewrite skip_head by reflexivity.
    rewrite (strip_self (lit "todoist-id:")). bind_step.
    rewrite skip_all by exact Hw2.
    assert (Hskip : skip is_space (ds ++ w3 ++ lit "-->" ++ r) = ds ++ w3 ++ lit "-->" ++ r).
    { destruct ds as [|c ds]; [congruence|]. cbn [app]. apply skip_stop.
      cbn in Hds. apply andb_true_iff in Hds as [Hc _]. apply digit_not_space, Hc. }
    rewrite Hskip. unfold some_class.
    rewrite (span_blocked is_digit ds (w3 ++ lit "-->" ++ r)); [|exact Hds|].
    2:{ destruct w3 as [|c w3]; [reflexivity|]. cbn in Hw3.
        apply andb_true_iff in Hw3 as [Hc _]. apply space_not_digit, Hc. }
    destruct ds as [|c ds]; [congruence|]. bind_step.
    rewrite skip_all by exact Hw3. rewrite skip_head by reflexivity.
    rewrite (strip_self (lit "-->")). reflexivity.
Qed.

(** The text of a match has one [<], its first character, and ends with [>]. *)
Lemma comment_text w1 w2 w3 ds :
  forallb is_space w1 = true → forallb is_space w2 = true → forallb is_space w3 = true →
  forallb is_digit ds = true →
  ∃ M', lit "<!--" ++ w1 ++ lit "todoist-id:" ++ w2 ++ ds ++ w3 ++ lit "-->" = 60 :: M' ++ [62]
        ∧ forallb (λ c, negb (c =? 60)) (M' ++ [62]) = true.
Proof.
  intros H1 H2 H3 Hd.
  exists (lit "!--" ++ w1 ++ lit "todoist-id:" ++ w2 ++ ds ++ w3 ++ lit "--").
  split.
  - change (lit "<!--") with (60 :: lit "!--"). change (lit "-->") with (lit "--" ++ [62]).
    cbn [app]. rewrite <- !app_assoc. reflexivity.
  - assert (Hsp : ∀ w, forallb is_space w = true → forallb (λ c, negb (c =? 60)) w = true).
    { intros w Hw. apply forallb_forall. intros c Hc.
      rewrite forallb_forall in Hw. specialize (Hw c Hc). class_solve. }
    assert (Hdg : forallb (λ c, negb (c =? 60)) ds = true).
    { apply forallb_forall. intros c Hc.
      rewrite forallb_forall in Hd. specialize (Hd c Hc). class_solve. }
    rewrite !forallb_app, (Hsp _ H1), (Hsp _ H2), (Hsp _ H3), Hdg. reflexivity.
Qed.

(** A match that starts before the blank and the [<] of an appended id
    comment ends before them. *)
Lemma todoistId_no_straddle t Z ds r :
  t ≠ [] → match_todoistId (t ++ 32 :: 60 :: Z) = Some (ds, r) →
  ∃ k, r = k ++ 32 :: 60 :: Z ∧ ∀ B, match_todoistId (t ++ B) = Some (ds, k ++ B).
Proof.
  intros Ht Hm. apply match_todoistId_shape in Hm
    as (w1 & w2 & w3 & Hs & Hw1 & Hw2 & Hw3 & Hne & Hds).
  destruct (comment_text w1 w2 w3 ds Hw1 Hw2 Hw3 Hds) as (M' & HM & Hfree).
  assert (Hs' : t ++ 32 :: 60 :: Z = (60 :: M' ++ [62]) ++ r).
  { rewrite <- HM, <- !app_assoc. exact Hs. }
  assert (Hshape : ∀ k B, t = (60 :: M' ++ [62]) ++ k →
            match_todoistId (t ++ B) = Some (ds, k ++ B)).
  { intros k B ->. apply match_todoistId_shape. exists w1, w2, w3.
    repeat split; try assumption. rewrite <- HM, <- !app_assoc. reflexivity. }
  apply app_eq_inv in Hs' as [(k & Hk & Hr)|(k & Hk & Hr)].
  - exists k. split; [exact Hr|]. intros B. apply Hshape, Hk.
  - destruct k as [|x k].
    + rewrite app_nil_r in Hk. cbn in Hr. exists []. split; [symmetry; exact Hr|].
      intros B. apply Hshape. rewrite app_nil_r. symmetry. exact Hk.
    + exfalso. injection Hr as <- Hr.
      destruct t as [|c t]; [congruence|]. injection Hk as <- Hk.
      destruct k as [|y k].
      * apply (f_equal (@rev N)) in Hk. rewrite !rev_app_distr in Hk. discriminate.
      * injection Hr as <- Hr. rewrite Hk in Hfree.
        rewrite forallb_app in Hfree. apply andb_true_iff in Hfree as [_ Hfree].
        cbn in Hfree. discriminate.
Qed.

Lemma search_none_suffix {A} (m : matcher A) a s :
  search m (a ++ s) = None → m s = None.
Proof.
  induction a as [|c a IH]; cbn [app].
  - destruct s as [|c s]; cbn; destruct (m _) as [[x r]|]; try discriminate; reflexivity.
  - cbn [search]. destruct (m (c :: a ++ s)) as [[x r]|]; [discriminate|].
    destruct (search m (a ++ s)) as [[[pre x] post]|]; [discriminate|].
    intros _. apply IH. reflexivity.
Qed.

Lemma search_None_here {A} (m : matcher A) s : search m s = None → m s = None.
Proof. apply (search_none_suffix m []). Qed.

(** [trim] of a string whose end is known. *)
Lemma trim_core a x b :
  forallb is_space a = true → forallb is_space b = true →
  (x = [] ∨ (match x with c :: _ => is_space c = false | [] => True end ∧ ends_dark x)) →
  trim (a ++ x ++ b) = x.
Proof.
  intros Ha Hb Hx. unfold trim. rewrite skip_all by exact Ha.
  destruct Hx as [->|[Hhead Hlast]].
  - cbn [app]. rewrite <- (app_nil_r b), skip_all by exact Hb. reflexivity.
  - destruct x as [|c x]; [destruct Hlast|]. cbn [app]. rewrite skip_stop by exact Hhead.
    change (c :: x ++ b) with ((c :: x) ++ b). rewrite rev_app_distr.
    rewrite skip_all by (rewrite forallb_rev; exact Hb).
    unfold ends_dark in Hlast. destruct (rev (c :: x)) as [|z t] eqn:E; [destruct Hlast|].
    rewrite skip_stop by exact Hlast. rewrite <- E. apply rev_involutive.
Qed.

Lemma span_head_dark s :
  (span is_space s).1 = [] → match s with c :: _ => is_space c = false | [] => True end.
Proof.
  destruct s as [|c s]; [intros; exact I|]. cbn. destruct (is_space c); [|reflexivity].
  destruct (span is_space s); discriminate.
Qed.

Lemma dark_head_span s :
  match s with c :: _ => is_space c = false | [] => True end → (span is_space s).1 = [].
Proof. destruct s as [|c s]; [reflexivity|]. cbn. intros ->. reflexivity. Qed.

(** A string that starts with a character that is no white space is its
    trimmed text followed by white space. *)
Lemma trim_right s :
  (span is_space s).1 = [] → s ≠ [] →
  ∃ B, s = trim s ++ B ∧ forallb is_space B = true ∧ trim s ≠ []
       ∧ match trim s with c :: _ => is_space c = false | [] => True end
       ∧ ends_dark (trim s).
Proof.
  intros Hhead Hne. apply span_head_dark in Hhead.
  destruct (trim_spec s) as (a & b & Hs & Ha & Hb & Hh & Hl).
  destruct a as [|x a].
  - assert (Ht : trim s ≠ []).
    { intros E. rewrite E in Hs. cbn in Hs. subst s.
      destruct b as [|y b]; [congruence|]. cbn in Hb.
      apply andb_true_iff in Hb as [Hy _]. congruence. }
    exists b. repeat split; try assumption. apply trim_dark, Ht.
  - exfalso. rewrite Hs in Hhead. cbn in Hhead, Ha.
    apply andb_true_iff in Ha as [Hx _]. congruence.
Qed.

Lemma suffix_of_snoc {A} (X1 X2 C : list A) (x : A) :
  X1 ++ X2 = C ++ [x] → X2 ≠ [] → ∃ t, X2 = t ++ [x] ∧ C = X1 ++ t.
Proof.
  intros H Hne. apply app_eq_inv in H as [(k & Hk & Hx)|(k & Hk & Hx)].
  - destruct k as [|y k].
    + cbn in Hx. exists []. split; [symmetry; exact Hx|]. rewrite app_nil_r. symmetry.
      rewrite app_nil_r in Hk. exact Hk.
    + destruct k; [|destruct k; discriminate]. injection Hx as -> Hx. symmetry in Hx.
      contradiction.
  - exists k. split; [exact Hx|exact Hk].
Qed.

Lemma eq_ci_space a b : eq_ci a b = true → is_space b = false → is_space a = false.
Proof.
  unfold eq_ci, lower. intros H Hb.
  destruct ((65 <=? a) && (a <=? 90)) eqn:Ea.
  - apply andb_true_iff in Ea as [E1 E2]. apply N.leb_le in E1, E2. class_solve.
  - destruct ((65 <=? b) && (b <=? 90)) eqn:Eb.
    + apply andb_true_iff in Eb as [E1 E2]. apply N.leb_le in E1, E2.
      apply N.eqb_eq in H. subst a. class_solve.
    + apply N.eqb_eq in H. subst a. exact Hb.
Qed.

(** What a literal matched: a text of the same shape, which ends with a
    character that is no white space when the literal does. *)
Lemma strip_ci_found l s r :
  strip_with eq_ci l s = Some r →
  ∃ l', s = l' ++ r ∧ (∀ t, strip_with eq_ci l (l' ++ t) = Some t)
        ∧ Forall2 (λ a b, eq_ci a b = true) l l'.
Proof.
  revert s. induction l as [|a l IH]; intros s; cbn.
  - intros [= <-]. exists []. repeat split. constructor.
  - destruct s as [|b s]; [discriminate|]. destruct (eq_ci a b) eqn:E; [|discriminate].
    intros Hs. destruct (IH _ Hs) as (l' & -> & Hmatch & Hall).
    exists (b :: l'). repeat split.
    + intros t. cbn. rewrite E. apply Hmatch.
    + constructor; assumption.
Qed.

Lemma Forall2_rev {A B} (P : A → B → Prop) l k :
  Forall2 P l k → Forall2 P (rev l) (rev k).
Proof.
  induction 1 as [|x y l k Hxy _ IH]; cbn; [constructor|].
  apply Forall2_app; [exact IH|repeat constructor; exact Hxy].
Qed.

Lemma ends_dark_ci l l' :
  Forall2 (λ a b, eq_ci a b = true) l l' → ends_dark l → ends_dark l'.
Proof.
  intros Hall. apply Forall2_rev in Hall.
  unfold ends_dark. destruct Hall as [|z z' t t' Hz _]; [tauto|].
  intros Hdark. apply (eq_ci_space z' z); [|exact Hdark].
  unfold eq_ci in *. rewrite N.eqb_sym. exact Hz.
Qed.

Lemma ends_dark_inside u post C B :
  u ++ post = C ++ B → ends_dark u → forallb is_space B = true →
  ∃ k, C = u ++ k.
Proof.
  intros H Hu HB. apply app_eq_inv in H as [(k & Hk & Hx)|(k & Hk & Hx)].
  - destruct k as [|y k]; [exists []; rewrite app_nil_r in *; symmetry; exact Hk|].
    exfalso. rewrite Hk in Hu. apply (ends_dark_blank C (y :: k)); [discriminate| |exact Hu].
    rewrite Hx, forallb_app in HB. apply andb_true_iff in HB as [HB _]. exact HB.
  - exists k. exact Hk.
Qed.

(** The marker found in a text is found in the trimmed text with anything
    appended. *)
Lemma marker_survives_trim syncTag C B tail :
  (syncTag = [] ∨ ends_dark syncTag) → forallb is_space B = true →
  test (match_syncTag syncTag) (C ++ B) = true →
  test (match_syncTag syncTag) (C ++ tail) = true.
Proof.
  intros [->|Hdark] HB Htest.
  - apply (search_suffix _ [] _ () (C ++ tail)). reflexivity.
  - unfold test in Htest.
    destruct (search (match_syncTag syncTag) (C ++ B)) as [[[pre []] post]|] eqn:E;
      [|discriminate].
    apply search_found in E as (t & Ht & Hm). unfold match_syncTag in Hm.
    destruct (strip_with eq_ci syncTag t) as [r|] eqn:Es; [|discriminate].
    injection Hm as ->.
    destruct (strip_ci_found _ _ _ Es) as (tag' & -> & Hmatch & Hall).
    pose proof (ends_dark_ci _ _ Hall) as Hd.
    assert (Hin : ∃ k, C = (pre ++ tag') ++ k).
    { apply (ends_dark_inside _ post _ B); [rewrite <- app_assoc; symmetry; exact Ht| |exact HB].
      specialize (Hd Hdark). unfold ends_dark in *. rewrite rev_app_distr.
      destruct (rev tag'); [destruct Hd|exact Hd]. }
    destruct Hin as (k & ->). rewrite <- !app_assoc.
    apply (search_suffix _ pre _ () (k ++ tail)).
    unfold match_syncTag. rewrite Hmatch. reflexivity.
Qed.

Lemma ends_dark_app a r : ends_dark r → ends_dark (a ++ r).
Proof.
  unfold ends_dark. rewrite rev_app_distr. destruct (rev r); [tauto|]. cbn. tauto.
Qed.

Lemma digits_one_line id :
  forallb is_digit id = true → forallb (λ c, negb (is_line_terminator c)) id = true.
Proof.
  intros H. apply forallb_forall. intros c Hc. rewrite forallb_forall in H.
  specialize (H c Hc). class_solve.
Qed.

Lemma comment_one_line id :
  forallb is_digit id = true →
  forallb (λ c, negb (is_line_terminator c)) (lit "<!-- todoist-id:" ++ id ++ lit " -->") = true.
Proof.
  intros H. rewrite !forallb_app, (digits_one_line _ H). reflexivity.
Qed.

Lemma before_content_no_lt indent b ws1 cb ws2 :
  forallb is_space indent = true → is_bullet b = true → forallb is_space ws1 = true →
  is_checkbox cb = true → forallb is_space ws2 = true →
  forallb (λ c, negb (60 =? c)) (indent ++ b :: ws1 ++ 91 :: cb :: 93 :: ws2) = true.
Proof.
  intros Hi Hb H1 Hc H2.
  assert (Hsp : ∀ w, forallb is_space w = true → forallb (λ c, negb (60 =? c)) w = true).
  { intros w Hw. apply forallb_forall. intros c Hin.
    rewrite forallb_forall in Hw. specialize (Hw c Hin). class_solve. }
  assert (Hb' : negb (60 =? b) = true).
  { unfold is_bullet in Hb. apply orb_true_iff in Hb as [Hb|Hb];
      apply N.eqb_eq in Hb as ->; reflexivity. }
  assert (Hc' : negb (60 =? cb) = true).
  { unfold is_checkbox in Hc.
    apply orb_true_iff in Hc as [Hc|Hc]; [apply orb_true_iff in Hc as [Hc|Hc]|];
      apply N.eqb_eq in Hc as ->; reflexivity. }
  rewrite forallb_app, (Hsp _ Hi). cbn [forallb andb]. rewrite Hb'. cbn [andb].
  rewrite forallb_app, (Hsp _ H1). cbn [forallb andb]. rewrite Hc', (Hsp _ H2). reflexivity.
Qed.

Lemma addTodoistId_links line lineNo path syncTag mt task id :
  parseTaskLine line lineNo path syncTag mt = Some task →
  todoistId task = None →
  (syncTag = [] ∨ ends_dark syncTag) →
  id ≠ [] → forallb is_digit id = true →
  ∃ task',
    parseTaskLine (addTodoistIdToLine line id) lineNo path syncTag mt = Some task'
    ∧ todoistId task' = Some id
    ∧ isCompleted task' = isCompleted task
    ∧ indent_of (addTodoistIdToLine line id) = 0%nat.
Proof.
  intros Hparse Hnone Htag Hid Hdigits.
  unfold parseTaskLine in Hparse.
  destruct (match_task line) as [[[indent cb] content]|] eqn:Htask; [|discriminate].
  destruct (test (match_syncTag syncTag) content) eqn:Hmarked; [|discriminate].
  cbn [negb] in Hparse. injection Hparse as <-. cbn [todoistId isCompleted] in *.
  assert (Hsearch : search match_todoistId content = None).
  { unfold capture in Hnone.
    destruct (search match_todoistId content) as [[[pre a] post]|]; [discriminate|reflexivity]. }
  apply match_task_shape in Htask
    as (b & ws1 & ws2 & -> & Hind & Hb & Hne1 & Hc1 & Hbox & Hne2 & Hc2 & Hhead & Hlt).
  assert (Hbs : is_space b = false).
  { unfold is_bullet in Hb. apply orb_true_iff in Hb as [Hb|Hb];
      apply N.eqb_eq in Hb as ->; reflexivity. }
  set (K0 := lit "<!-- todoist-id:" ++ id ++ lit " -->").
  assert (HK0 : match_todoistId K0 = Some (id, [])) by (apply match_todoistId_built; assumption).
  (* the first replacement finds nothing *)
  assert (Hkeep : replace_first match_todoistId []
                    (indent ++ b :: ws1 ++ 91 :: cb :: 93 :: ws2 ++ content)
                  = indent ++ b :: ws1 ++ 91 :: cb :: 93 :: ws2 ++ content).
  { unfold replace_first.
    replace (indent ++ b :: ws1 ++ 91 :: cb :: 93 :: ws2 ++ content)
      with ((indent ++ b :: ws1 ++ 91 :: cb :: 93 :: ws2) ++ content)
      by (rewrite <- !app_assoc; cbn; rewrite <- !app_assoc; reflexivity).
    rewrite (search_skip_chars match_todoistId (λ c, negb (60 =? c))).
    - rewrite Hsearch. reflexivity.
    - intros c s Hc. apply todoistId_start, negb_true_iff, Hc.
    - apply before_content_no_lt; assumption. }
  (* the trimmed line *)
  assert (Htrim : ∃ ws C,
            trim (indent ++ b :: ws1 ++ 91 :: cb :: 93 :: ws2 ++ content)
            = b :: ws1 ++ 91 :: cb :: 93 :: ws ++ C
            ∧ (ws ++ C ≠ [] → ws ≠ [] ∧ forallb is_space ws = true ∧ C ≠ [])
            ∧ (C = [] → content = [])
            ∧ match C with c :: _ => is_space c = false | [] => True end
            ∧ forallb (λ c, negb (is_line_terminator c)) C = true
            ∧ ∃ B, content = C ++ B ∧ forallb is_space B = true).
  { destruct content as [|c0 content'] eqn:Econtent.
    - exists [], []. rewrite !app_nil_r. split; [|repeat split; try tauto].
      + replace (indent ++ b :: ws1 ++ 91 :: cb :: 93 :: ws2)
          with (indent ++ (b :: ws1 ++ [91; cb; 93]) ++ ws2)
          by (cbn; rewrite <- !app_assoc; reflexivity).
        apply trim_core; [exact Hind|exact Hc2|]. right. split; [exact Hbs|].
        apply (ends_dark_app [b]), (ends_dark_app ws1). reflexivity.
      + exists []. split; reflexivity.
    - rewrite <- Econtent in *.
      destruct (trim_right content Hhead) as (B & HC & HB & Hne & Hdark & Hend);
        [rewrite Econtent; discriminate|].
      exists ws2, (trim content). split; [|repeat split; try assumption].
      + rewrite HC at 1.
        replace (indent ++ b :: ws1 ++ 91 :: cb :: 93 :: ws2 ++ trim content ++ B)
          with (indent ++ (b :: ws1 ++ 91 :: cb :: 93 :: ws2 ++ trim content) ++ B)
          by (cbn; rewrite <- !app_assoc; cbn; rewrite <- !app_assoc; reflexivity).
        apply trim_core; [exact Hind|exact HB|]. right. split; [exact Hbs|].
        apply (ends_dark_app [b]), (ends_dark_app ws1), (ends_dark_app [91; cb; 93]),
          (ends_dark_app ws2), Hend.
      + intros E. rewrite E in Hne. contradiction.
      + rewrite HC, forallb_app in Hlt. apply andb_true_iff in Hlt as [Hlt _]. exact Hlt.
      + exists B. split; assumption. }
  destruct Htrim as (ws & C & Htrim & Hws & Hempty & HCdark & HClt & B & HCB & HB).
  (* the new line and its content *)
  set (K := C ++ (if nonempty C then [32] else []) ++ K0).
  set (ws' := if nonempty C then ws else [32]).
  assert (Hnew : addTodoistIdToLine (indent ++ b :: ws1 ++ 91 :: cb :: 93 :: ws2 ++ content) id
                 = [] ++ b :: ws1 ++ 91 :: cb :: 93 :: ws' ++ K).
  { unfold addTodoistIdToLine. rewrite Hkeep, Htrim. unfold K, ws', K0.
    change (lit " <!-- todoist-id:") with (32 :: lit "<!-- todoist-id:").
    destruct C as [|c0 C'].
    - assert (Hws0 : ws = []).
      { destruct ws as [|x ws0]; [reflexivity|].
        destruct Hws as (_ & _ & Hcontra); [discriminate|congruence]. }
      subst ws. cbn. rewrite <- !app_assoc. reflexivity.
    - cbn [nonempty app]. rewrite <- !app_assoc. cbn. rewrite <- !app_assoc. reflexivity. }
  assert (Hws' : ws' ≠ [] ∧ forallb is_space ws' = true).
  { unfold ws'. destruct C as [|c0 C']; cbn [nonempty]; [split; [discriminate|reflexivity]|].
    destruct Hws as (H1 & H2 & _); [destruct ws; discriminate|]. split; assumption. }
  assert (HKhead : (span is_space K).1 = []).
  { apply dark_head_span. unfold K. destruct C as [|c0 C']; [reflexivity|exact HCdark]. }
  assert (HKlt : forallb (λ c, negb (is_line_terminator c)) K = true).
  { unfold K. rewrite !forallb_app, HClt. unfold K0.
    rewrite (comment_one_line id Hdigits). destruct (nonempty C); reflexivity. }
  assert (Htask' : match_task ([] ++ b :: ws1 ++ 91 :: cb :: 93 :: ws' ++ K)
                   = Some ([], cb, K)).
  { apply match_task_shape. exists b, ws1, ws'. destruct Hws' as [Hw1 Hw2].
    repeat split; assumption. }
  assert (Hcapture : capture match_todoistId K = Some id).
  { unfold capture, K. destruct C as [|c0 C'] eqn:EC.
    - cbn [nonempty app]. rewrite (search_here _ _ _ _ HK0). reflexivity.
    - rewrite <- EC in *. replace (nonempty C) with true by (rewrite EC; reflexivity).
      rewrite app_assoc.
      rewrite (search_skip match_todoistId (C ++ [32]) K0).
      + rewrite (search_here _ _ _ _ HK0). reflexivity.
      + intros X1 X2 Hsplit Hne.
        destruct (suffix_of_snoc X1 X2 C 32 (eq_sym Hsplit) Hne) as (t & -> & HCt).
        rewrite <- app_assoc. cbn [app].
        destruct t as [|x t]; [apply todoistId_start; reflexivity|].
        destruct (match_todoistId ((x :: t) ++ 32 :: K0)) as [[ds r]|] eqn:Em; [|reflexivity].
        exfalso. unfold K0 in Em.
        change (lit "<!-- todoist-id:") with (60 :: lit "!-- todoist-id:") in Em.
        cbn [app] in Em.
        destruct (todoistId_no_straddle (x :: t) _ ds r ltac:(discriminate) Em)
          as (k & _ & Hmatch).
        specialize (Hmatch B).
        assert (Hnone' : match_todoistId ((x :: t) ++ B) = None).
        { apply (search_none_suffix match_todoistId X1). rewrite app_assoc, <- HCt, <- HCB.
          exact Hsearch. }
        congruence. }
  assert (Hmarked' : test (match_syncTag syncTag) K = true).
  { unfold K. apply (marker_survives_trim syncTag C B); [exact Htag|exact HB|].
    rewrite <- HCB. exact Hmarked. }
  rewrite Hnew. unfold parseTaskLine. rewrite Htask', Hmarked'. cbn [negb].
  eexists. split; [reflexivity|]. cbn [todoistId isCompleted].
  repeat split; [exact Hcapture|].
  unfold indent_of. cbn [app]. rewrite (span_stop is_space b) by exact Hbs. reflexivity.
Qed.

(** X7: [addTodoistIdToLine] on the line of a task that has no id yet: the line
    it returns is again the line of a task with the marker, carries the new
    id and has the same checkbox; but the indentation of the line is gone,
    since the line is trimmed before the comment is appended. *)
Theorem addTodoistIdToLine_links_the_line line lineNo path syncTag mt task id :
  parseTaskLine line lineNo path syncTag mt = Some task →
  todoistId task = None →
  (syncTag = [] ∨ ends_dark syncTag) →
  id ≠ [] → forallb is_digit id = true →
  ∃ task',
    parseTaskLine (addTodoistIdToLine line id) lineNo path syncTag mt = Some task'
    ∧ todoistId task' = Some id
    ∧ isCompleted task' = isCompleted task
    ∧ indent_of (addTodoistIdToLine line id) = 0%nat.
Proof. apply addTodoistId_links. Qed.

(** * Every serialised line is a task line *)

Lemma skip_stops_at p a c r :
  p c = false → ∃ k, skip p (a ++ c :: r) = k ++ c :: r.
Proof.
  intros Hc. induction a as [|x a (k & IH)]; cbn [app].
  - exists []. apply skip_stop, Hc.
  - destruct (p x) eqn:Hx.
    + exists k. rewrite <- IH. change (x :: a ++ c :: r) with ([x] ++ a ++ c :: r).
      apply skip_all. cbn. rewrite Hx. reflexivity.
    + exists (x :: a). apply skip_stop, Hx.
Qed.

(** X8: Whatever the fields of the task, the line that [buildTaskLine] writes
    with a marker that does not start with white space is, as long as it
    holds no line terminator, a line that [parseTaskLine] accepts with that
    marker, and its checkbox gives the task's completion back. *)
Theorem buildTaskLine_is_a_task_line task syncTag lineNo path modified :
  match syncTag with c :: _ => is_space c = false | [] => True end →
  forallb (λ c, negb (is_line_terminator c)) (buildTaskLine task syncTag) = true →
  ∃ parsed,
    parseTaskLine (buildTaskLine task syncTag) lineNo path syncTag modified = Some parsed
    ∧ isCompleted parsed = isCompleted task
    ∧ originalLine parsed = buildTaskLine task syncTag.
Proof.
  intros Htag Hline. rewrite buildTaskLine_shape in *.
  set (tail := labelText (labels task) ++ tailP (priority task) ++ tailD (dueDate task)
               ++ tailI (todoistId task)) in *.
  set (rest := content task ++ lit " " ++ syncTag ++ tail) in *.
  set (cb := if isCompleted task then 120 else 32 : N).
  assert (Hshape : lit "- " ++ (if isCompleted task then lit "[x]" else lit "[ ]")
                   ++ lit " " ++ rest
                   = [] ++ 45 :: [32] ++ 91 :: cb :: 93
                        :: (32 :: (span is_space rest).1) ++ (span is_space rest).2).
  { unfold cb. cbn [app]. rewrite <- (span_app is_space rest).
    destruct (isCompleted task); reflexivity. }
  rewrite Hshape in *.
  assert (Hrest : forallb (λ c, negb (is_line_terminator c)) (span is_space rest).2 = true).
  { cbn [app forallb] in Hline. rewrite forallb_app in Hline.
    repeat (apply andb_true_iff in Hline as [? Hline]). exact Hline. }
  assert (Htask : match_task ([] ++ 45 :: [32] ++ 91 :: cb :: 93
                              :: (32 :: (span is_space rest).1) ++ (span is_space rest).2)
                  = Some ([], cb, (span is_space rest).2)).
  { apply match_task_shape. exists 45, [32], (32 :: (span is_space rest).1).
    repeat split; try reflexivity; try discriminate.
    - unfold cb. destruct (isCompleted task); reflexivity.
    - cbn [forallb]. rewrite span_class. reflexivity.
    - apply span_rest_head.
    - exact Hrest. }
  assert (Hmarked : test (match_syncTag syncTag) (span is_space rest).2 = true).
  { destruct syncTag as [|c tag'].
    - apply (search_suffix _ [] _ () (span is_space rest).2). reflexivity.
    - unfold rest. change (lit " ") with [32].
      replace (content task ++ [32] ++ (c :: tag') ++ tail)
        with ((content task ++ [32]) ++ c :: (tag' ++ tail))
        by (rewrite <- !app_assoc; reflexivity).
      destruct (skip_stops_at is_space (content task ++ [32]) c (tag' ++ tail) Htag)
        as (k & Hk).
      fold (skip is_space ((content task ++ [32]) ++ c :: tag' ++ tail)). rewrite Hk.
      apply (search_suffix _ k _ () tail).
      apply (match_syncTag_self (c :: tag') tail). }
  unfold parseTaskLine. rewrite Htask, Hmarked. cbn [negb].
  eexists. split; [reflexivity|]. cbn [isCompleted originalLine]. split; [|reflexivity].
  unfold cb. destruct (isCompleted task); reflexivity.
Qed.

(** * Rewriting a line of a file *)

Lemma line_updated_lines transform n lines line :
  lines !! n = Some line →
  forallb (λ c, negb (c =? 10)) (transform line) = true →
  Forall (λ l, forallb (λ c, negb (c =? 10)) l = true) lines →
  split_lines (join_lines (line_updated transform n lines))
  = <[n := transform line]> lines.
Proof.
  intros Hn Ht Hall. unfold line_updated. rewrite Hn.
  apply split_join.
  - intros E. apply (f_equal length) in E. rewrite length_insert in E.
    apply lookup_lt_Some in Hn. cbn in E. lia.
  - apply Forall_insert; assumption.
Qed.

(** * Ticking a line *)

(** What [/\[\s\]/] matches. *)
Lemma match_open_box_shape t post :
  match_open_box t = Some ((), post) → ∃ c, is_space c = true ∧ t = 91 :: c :: 93 :: post.
Proof.
  unfold match_open_box.
  destruct t as [|x1 t]; [discriminate|].
  destruct x1 as [|p]; [discriminate|].
  do 7 (destruct p as [p|p|]; try discriminate).
  destruct t as [|c t]; [discriminate|].
  destruct t as [|x3 t]; [discriminate|].
  destruct x3 as [|p]; [discriminate|].
  do 7 (destruct p as [p|p|]; try discriminate).
  destruct (is_space c) eqn:Hc; [|discriminate].
  intros [= <-]. exists c. split; [exact Hc|reflexivity].
Qed.

Lemma open_box_found s pre post :
  search match_open_box s = Some (pre, (), post) →
  ∃ c, is_space c = true ∧ s = pre ++ 91 :: c :: 93 :: post.
Proof.
  intros H. apply search_found in H as (t & -> & Hm).
  apply match_open_box_shape in Hm as (c & Hc & ->). exists c. split; [exact Hc|reflexivity].
Qed.

(** A line that is ticked stays one line. *)
Lemma tick_one_line line :
  forallb (λ c, negb (c =? 10)) line = true →
  forallb (λ c, negb (c =? 10)) (updateTaskCompletion line true) = true.
Proof.
  intros H. unfold updateTaskCompletion, replace_first.
  destruct (search match_open_box line) as [[[pre []] post]|] eqn:E; [|exact H].
  apply open_box_found in E as (c & Hc & ->).
  rewrite forallb_app in H. apply andb_true_iff in H as [H1 H2].
  cbn [forallb] in H2. apply andb_true_iff in H2 as [_ H2].
  apply andb_true_iff in H2 as [_ H2]. apply andb_true_iff in H2 as [_ H2].
  rewrite forallb_app, H1. cbn. exact H2.
Qed.

Lemma span_head_empty p c s : (span p (c :: s)).1 = [] → p c = false.
Proof. cbn. destruct (p c); [|reflexivity]. destruct (span p s); discriminate. Qed.

(** Ticking a checkbox item gives a checkbox item whose box is ticked, with
    the indentation it had; when the box was open, the content is as it
    was. *)
Lemma tick_task_line line indent cb content :
  match_task line = Some (indent, cb, content) →
  ∃ cb' content',
    match_task (updateTaskCompletion line true) = Some (indent, cb', content')
    ∧ (lower cb' =? 120) = true
    ∧ ((lower cb =? 120) = false → cb' = 120 ∧ content' = content).
Proof.
  intros Hm. destruct (lower cb =? 120) eqn:Hcb.
  - pose proof Hm as Hshape.
    apply match_task_shape in Hshape
      as (b & ws1 & ws2 & -> & Hind & Hb & Hne1 & Hc1 & Hbox & Hne2 & Hc2 & Hhead & Hlt).
    assert (Hx : is_space cb = false ∧ (cb =? 91) = false).
    { unfold is_checkbox in Hbox.
      apply orb_true_iff in Hbox as [Hbox|Hbox]; [apply orb_true_iff in Hbox as [Hbox|Hbox]|];
        apply N.eqb_eq in Hbox; subst cb; [discriminate|split; reflexivity|split; reflexivity]. }
    destruct Hx as [Hdark Hnb].
    assert (Hsearch : search match_open_box
                        (indent ++ b :: ws1 ++ 91 :: cb :: 93 :: ws2 ++ content)
                      = shift (indent ++ b :: ws1 ++ 91 :: cb :: 93 :: ws2)
                              (search match_open_box content)).
    { replace (indent ++ b :: ws1 ++ 91 :: cb :: 93 :: ws2 ++ content)
        with ((indent ++ b :: ws1) ++ 91 :: (cb :: 93 :: ws2) ++ content)
        by (rewrite <- app_assoc; reflexivity).
      rewrite (search_skip_chars match_open_box (λ c, negb (c =? 91)))
        by (try exact (before_checkbox indent b ws1 Hind Hb Hc1);
            intros c s Hc; apply open_box_head, negb_true_iff, Hc).
      rewrite search_cons by (cbn; rewrite Hdark; reflexivity).
      rewrite (search_skip_chars match_open_box (λ c, negb (c =? 91)))
        by (try (intros c s Hc; apply open_box_head, negb_true_iff, Hc);
            cbn [forallb]; rewrite Hnb; cbn;
            apply forallb_forall; intros c Hc; rewrite forallb_forall in Hc2;
            rewrite (space_not_bracket _ (Hc2 c Hc)); reflexivity).
      rewrite !shift_shift. f_equal. rewrite <- !app_assoc. reflexivity. }
    unfold updateTaskCompletion, replace_first. rewrite Hsearch.
    destruct (search match_open_box content) as [[[pre []] post]|] eqn:E; cbn [shift].
    + apply open_box_found in E as (c & Hc & ->).
      exists cb, (pre ++ lit "[x]" ++ post). split; [|split; [exact Hcb|discriminate]].
      apply match_task_shape. exists b, ws1, ws2.
      repeat split; try assumption.
      * repeat first [rewrite <- app_assoc | progress cbn [app]]. reflexivity.
      * destruct pre as [|p0 pre]; [reflexivity|].
        cbn [app] in Hhead |- *. apply span_head_empty in Hhead.
        rewrite span_stop by exact Hhead. reflexivity.
      * rewrite forallb_app in Hlt. apply andb_true_iff in Hlt as [H1 H2].
        cbn [forallb] in H2. apply andb_true_iff in H2 as [_ H2].
        apply andb_true_iff in H2 as [_ H2]. apply andb_true_iff in H2 as [_ H2].
        rewrite forallb_app, H1. cbn. exact H2.
    + exists cb, content. split; [|split; [exact Hcb|discriminate]].
      apply match_task_shape. exists b, ws1, ws2. repeat split; assumption.
  - destruct (flip_checkbox line indent cb content true Hm Hcb) as [_ Hflip].
    exists 120, content. split; [exact Hflip|]. split; [reflexivity|].
    intros _. split; reflexivity.
Qed.

(** The lines of the text once the task's line is ticked. *)
Lemma tickedText_lines task text line :
  split_lines text !! lineNumber task = Some line →
  split_lines (tickedText task text)
  = <[lineNumber task := updateTaskCompletion line true]> (split_lines text).
Proof.
  intros Hline. unfold tickedText.
  apply (line_updated_lines (λ l, updateTaskCompletion l true)); [exact Hline| |].
  - apply tick_one_line.
    pose proof (split_lines_no_newline text) as Hall. rewrite Forall_forall in Hall.
    apply Hall. eapply list_elem_of_lookup_2, Hline.
  - apply split_lines_no_newline.
Qed.

Section Ticking.
Context {W : Type} (host : Host W).

Lemma markObsidianTaskCompleted_run task e w file w0 text w1 :
  answer host (getAbstractFileByPath (filePath task)) w = (Some file, w0) →
  answer host (vault_read file) w0 = (Returned text, w1) →
  (lineNumber task < length (split_lines text))%nat →
  run host (markObsidianTaskCompleted task) e w
  = ((answer host (vault_modify file (tickedText task text)) w1).1, e,
     (answer host (vault_modify file (tickedText task text)) w1).2).
Proof.
  intros Hf Hr Hlt. unfold markObsidianTaskCompleted, updateObsidianTaskLine, tickedText.
  rewrite run_bind, run_perform, Hf. cbn [fst snd].
  rewrite run_andThen, run_perform, Hr. cbn [fst snd].
  replace (length (split_lines text) <=? lineNumber task)%nat with false
    by (symmetry; apply Nat.leb_gt; exact Hlt).
  apply run_perform.
Qed.

(** C6, as amended: for a linked task whose id the gateway no longer
    lists.  If the rewrite of its line succeeds, the text written to the
    task's file is the text read with the line at the task's index ticked,
    the record of the id is removed and [completed] is one more.  If the
    rewrite fails, a message is appended, and the record and [completed] are
    as before.  And when the line at the task's index is still the line the
    scan read, a checkbox item, the line written at that index is a checkbox
    item with the same indentation whose box is ticked, and every other line
    is written as it was read. *)
Theorem remote_deletion_ticks_local_line todoistTaskMap todoistId obsidianTask result e w :
  map_get todoistId todoistTaskMap = None →
  (∀ e1 w1,
     run host (markObsidianTaskCompleted obsidianTask) e w = (Returned (), e1, w1) →
     run host (syncOne todoistTaskMap (todoistId, obsidianTask) result) e w
       = (add_completed result, set_tasks (delete todoistId) e, w1)
     ∧ completed (add_completed result) = S (completed result)
     ∧ tasks (syncState (set_tasks (delete todoistId) e)) !! todoistId = None
     ∧ ∃ file w0 text w2,
         answer host (getAbstractFileByPath (filePath obsidianTask)) w = (Some file, w0)
         ∧ answer host (vault_read file) w0 = (Returned text, w2)
         ∧ (lineNumber obsidianTask < length (split_lines text))%nat
         ∧ answer host (vault_modify file (tickedText obsidianTask text)) w2 = (Returned (), w1))
  ∧ (∀ err e1 w1,
     run host (markObsidianTaskCompleted obsidianTask) e w = (Thrown err, e1, w1) →
     run host (syncOne todoistTaskMap (todoistId, obsidianTask) result) e w
       = (push_error (lit "Failed to mark task completed: " ++ content obsidianTask) result,
          e, w1))
  ∧ (∀ text indent cb taskContent,
     split_lines text !! lineNumber obsidianTask = Some (originalLine obsidianTask) →
     match_task (originalLine obsidianTask) = Some (indent, cb, taskContent) →
     let tickedLine := updateTaskCompletion (originalLine obsidianTask) true in
     split_lines (tickedText obsidianTask text)
       = <[lineNumber obsidianTask := tickedLine]> (split_lines text)
     ∧ ∃ cb' content',
         match_task tickedLine = Some (indent, cb', content')
         ∧ (lower cb' =? 120) = true
         ∧ ((lower cb =? 120) = false → content' = taskContent)).
Proof.
  intros Hgone. split; [|split].
  - intros e1 w1 Hrun.
    destruct (markObsidianTaskCompleted_returns host _ _ _ _ _ Hrun) as [-> Hcalls].
    repeat split; [|apply lookup_delete_eq|exact Hcalls].
    unfold syncOne. rewrite Hgone, run_tryCatch, run_andThen, Hrun. reflexivity.
  - intros err e1 w1 Hrun.
    pose proof (updateObsidianTaskLine_engine host obsidianTask
                  (λ line, updateTaskCompletion line true) e w) as He.
    fold (markObsidianTaskCompleted obsidianTask) in He. rewrite Hrun in He. cbn in He.
    subst e1.
    unfold syncOne. rewrite Hgone, run_tryCatch, run_andThen, Hrun. reflexivity.
  - intros text indent cb taskContent Hline Htask tickedLine.
    split; [apply tickedText_lines, Hline|].
    destruct (tick_task_line _ _ _ _ Htask) as (cb' & content' & Hticked & Hdone & Hopen).
    exists cb', content'. split; [exact Hticked|]. split; [exact Hdone|].
    intros Hflag. apply (Hopen Hflag).
Qed.

End Ticking.

Section Rewrites.
Context {W : Type} (host : Host W).

(** X10: When the file of the task is gone, cannot be read, or has no line at
    the task's line number, [updateObsidianTaskLine] throws and nothing is
    written: the host is as the last call that was answered left it. *)
Theorem updateObsidianTaskLine_failures_write_nothing task transform e w :
  (∀ w0,
     answer host (getAbstractFileByPath (filePath task)) w = (None, w0) →
     run host (updateObsidianTaskLine task transform) e w
       = (Thrown (lit "Error: File not found: " ++ filePath task), e, w0))
  ∧ (∀ file w0 err w1,
     answer host (getAbstractFileByPath (filePath task)) w = (Some file, w0) →
     answer host (vault_read file) w0 = (Thrown err, w1) →
     run host (updateObsidianTaskLine task transform) e w = (Thrown err, e, w1))
  ∧ (∀ file w0 text w1,
     answer host (getAbstractFileByPath (filePath task)) w = (Some file, w0) →
     answer host (vault_read file) w0 = (Returned text, w1) →
     (length (split_lines text) ≤ lineNumber task)%nat →
     run host (updateObsidianTaskLine task transform) e w
       = (Thrown (lit "Error: Line number out of range: "
                  ++ show_Z (Z.of_nat (lineNumber task))), e, w1)).
Proof.
  unfold updateObsidianTaskLine. repeat split.
  - intros w0 Hf. rewrite run_bind, run_perform, Hf. reflexivity.
  - intros file w0 err w1 Hf Hr.
    rewrite run_bind, run_perform, Hf. cbn [fst snd].
    rewrite run_andThen, run_perform, Hr. reflexivity.
  - intros file w0 text w1 Hf Hr Hn.
    rewrite run_bind, run_perform, Hf. cbn [fst snd].
    rewrite run_andThen, run_perform, Hr. cbn [fst snd].
    apply Nat.leb_le in Hn. rewrite Hn. reflexivity.
Qed.

(** X11: When the file has a line at the task's line number,
    [updateObsidianTaskLine] writes the file back with that line transformed
    and every other line as it was read, and returns what the write
    returns. *)
Theorem updateObsidianTaskLine_rewrites_one_line task transform e w file w0 text w1 line :
  answer host (getAbstractFileByPath (filePath task)) w = (Some file, w0) →
  answer host (vault_read file) w0 = (Returned text, w1) →
  split_lines text !! lineNumber task = Some line →
  forallb (λ c, negb (c =? 10)) (transform line) = true →
  ∃ data,
    run host (updateObsidianTaskLine task transform) e w
      = ((answer host (vault_modify file data) w1).1, e,
         (answer host (vault_modify file data) w1).2)
    ∧ split_lines data = <[lineNumber task := transform line]> (split_lines text).
Proof.
  intros Hf Hr Hn Ht.
  exists (join_lines (line_updated transform (lineNumber task) (split_lines text))).
  split.
  - unfold updateObsidianTaskLine.
    rewrite run_bind, run_perform, Hf. cbn [fst snd].
    rewrite run_andThen, run_perform, Hr. cbn [fst snd].
    pose proof (lookup_lt_Some _ _ _ Hn) as Hlt.
    replace (length (split_lines text) <=? lineNumber task)%nat with false
      by (symmetry; apply Nat.leb_gt; exact Hlt).
    apply run_perform.
  - apply line_updated_lines; [exact Hn|exact Ht|apply split_lines_no_newline].
Qed.

(** X12: [replaceLineInFile] throws without writing when the file is gone,
    cannot be read or is too short; otherwise it writes the file back with
    the new line at the line number and every other line as it was read. *)
Theorem replaceLineInFile_replaces_one_line p n newLine e w :
  (∀ w0,
     answer host (getAbstractFileByPath p) w = (None, w0) →
     run host (replaceLineInFile p n newLine) e w
       = (Thrown (lit "Error: File not found: " ++ p), e, w0))
  ∧ (∀ file w0 err w1,
     answer host (getAbstractFileByPath p) w = (Some file, w0) →
     answer host (vault_read file) w0 = (Thrown err, w1) →
     run host (replaceLineInFile p n newLine) e w = (Thrown err, e, w1))
  ∧ (∀ file w0 text w1,
     answer host (getAbstractFileByPath p) w = (Some file, w0) →
     answer host (vault_read file) w0 = (Returned text, w1) →
     (length (split_lines text) ≤ n)%nat →
     run host (replaceLineInFile p n newLine) e w
       = (Thrown (lit "Error: Line number out of range: " ++ show_Z (Z.of_nat n)), e, w1))
  ∧ (∀ file w0 text w1,
     answer host (getAbstractFileByPath p) w = (Some file, w0) →
     answer host (vault_read file) w0 = (Returned text, w1) →
     (n < length (split_lines text))%nat →
     forallb (λ c, negb (c =? 10)) newLine = true →
     ∃ data,
       run host (replaceLineInFile p n newLine) e w
         = ((answer host (vault_modify file data) w1).1, e,
            (answer host (vault_modify file data) w1).2)
       ∧ split_lines data = <[n := newLine]> (split_lines text)).
Proof.
  unfold replaceLineInFile. repeat split.
  - intros w0 Hf. rewrite run_bind, run_perform, Hf. reflexivity.
  - intros file w0 err w1 Hf Hr.
    rewrite run_bind, run_perform, Hf. cbn [fst snd].
    rewrite run_andThen, run_perform, Hr. reflexivity.
  - intros file w0 text w1 Hf Hr Hn.
    rewrite run_bind, run_perform, Hf. cbn [fst snd].
    rewrite run_andThen, run_perform, Hr. cbn [fst snd].
    apply Nat.leb_le in Hn. rewrite Hn. reflexivity.
  - intros file w0 text w1 Hf Hr Hn Hl.
    destruct (lookup_lt_is_Some_2 (split_lines text) n Hn) as [line Hline].
    exists (join_lines (line_updated (λ _, newLine) n (split_lines text))). split.
    + rewrite run_bind, run_perform, Hf. cbn [fst snd].
      rewrite run_andThen, run_perform, Hr. cbn [fst snd].
      replace (length (split_lines text) <=? n)%nat with false
        by (symmetry; apply Nat.leb_gt; exact Hn).
      apply run_perform.
    + apply (line_updated_lines (λ _, newLine) n _ line);
        [exact Hline|exact Hl|apply split_lines_no_newline].
Qed.

End Rewrites.

(** * The scan of the vault *)

Section Scan.
Context {W : Type} (host : Host W).

Lemma scanFiles_run files acc e w :
  ∃ more w',
    run host (forEach files scanFile acc) e w = (acc ++ more, e, w')
    ∧ ∀ t, t ∈ more →
        ∃ file, file ∈ files ∧ filePath t = path file ∧ lastModified t = mtime file
                ∧ is_Some (parseTaskLine (originalLine t) (lineNumber t) (path file)
                             (syncTag (settings e)) (mtime file)).
Proof.
  revert acc w. induction files as [|file files IH]; intros acc w; cbn [forEach].
  - exists [], w. rewrite app_nil_r. split; [reflexivity|]. intros t Ht.
    apply elem_of_nil in Ht. contradiction.
  - rewrite run_bind. unfold scanFile at 1. rewrite run_bind, run_perform.
    destruct (answer host (vault_read file) w) as [[text|err] w1] eqn:Er; cbn [fst snd].
    + rewrite run_bind, run_get, run_ret.
      destruct (IH (acc ++ parseTasksFromContent text (path file) (syncTag (settings e))
                           (mtime file)) w1) as (more & w' & Hrun & Hmore).
      exists (parseTasksFromContent text (path file) (syncTag (settings e)) (mtime file)
              ++ more), w'.
      rewrite app_assoc. split; [exact Hrun|].
      intros t Ht. apply elem_of_app in Ht as [Ht|Ht].
      * exists file. split; [apply list_elem_of_here|].
        apply parseTasksFromContent_elem in Ht as (line & t0 & Hl & Hp & ->).
        pose proof (parseTaskLine_fields _ _ _ _ _ _ Hp) as (Ho & Hn & Hpath & Hmt & _).
        cbn [filePath lastModified originalLine lineNumber with_description].
        rewrite Ho, Hn, Hp. repeat split; eauto.
      * destruct (Hmore t Ht) as (f & Hf & Hrest). exists f.
        split; [apply list_elem_of_further, Hf|exact Hrest].
    + rewrite run_ret. destruct (IH acc w1) as (more & w' & Hrun & Hmore).
      exists more, w'. split; [exact Hrun|].
      intros t Ht. destruct (Hmore t Ht) as (f & Hf & Hrest). exists f.
      split; [apply list_elem_of_further, Hf|exact Hrest].
Qed.

Lemma scanFiles_exact files acc e w :
  (∀ file w', (answer host (vault_read file) w').2 = w') →
  run host (forEach files scanFile acc) e w
  = (acc ++ flat_map (tasksOfFile host (syncTag (settings e)) w) files, e, w).
Proof.
  intros Hpure. revert acc. induction files as [|file files IH]; intros acc;
    cbn [forEach flat_map].
  - rewrite app_nil_r. reflexivity.
  - rewrite run_bind. unfold scanFile at 1. rewrite run_bind, run_perform.
    unfold tasksOfFile at 1. rewrite (Hpure file w).
    destruct (answer host (vault_read file) w) as [[text|err] w1]; cbn [fst snd].
    + rewrite run_bind, run_get, run_ret, IH, app_assoc. reflexivity.
    + rewrite run_ret, IH. reflexivity.
Qed.

(** X13: Once the vault has listed its Markdown files, the scan returns and
    leaves the engine's fields alone; every task it returns is a line of one
    of the listed files that [parseTaskLine] accepts with the marker of the
    settings, and carries the path and the modification time of that file.
    When reading a file changes nothing in the host, the scan returns
    exactly the tasks of the listed files that can be read, file after file
    in the order of the list: a file whose read throws gives no task and
    does not end the scan, the files after it are read all the same. *)
Theorem getAllObsidianTasks_skips_unreadable_files files e w w0 :
  answer host getMarkdownFiles w = (Returned files, w0) →
  (∃ found w',
     run host getAllObsidianTasks e w = (Returned found, e, w')
     ∧ ∀ t, t ∈ found →
         ∃ file, file ∈ files ∧ filePath t = path file ∧ lastModified t = mtime file
                 ∧ is_Some (parseTaskLine (originalLine t) (lineNumber t) (path file)
                              (syncTag (settings e)) (mtime file)))
  ∧ ((∀ file w', (answer host (vault_read file) w').2 = w') →
     run host getAllObsidianTasks e w
     = (Returned (flat_map (tasksOfFile host (syncTag (settings e)) w0) files), e, w0)).
Proof.
  intros Hfiles. split.
  - unfold getAllObsidianTasks.
    rewrite run_andThen, run_perform, Hfiles. cbn [fst snd]. unfold ok. rewrite run_bind.
    destruct (scanFiles_run files [] e w0) as (more & w' & Hrun & Hmore).
    rewrite Hrun. cbn [app]. exists more, w'. split; [reflexivity|exact Hmore].
  - intros Hpure. unfold getAllObsidianTasks.
    rewrite run_andThen, run_perform, Hfiles. cbn [fst snd]. unfold ok.
    rewrite run_bind, (scanFiles_exact files [] e w0 Hpure), run_ret. reflexivity.
Qed.

End Scan.

(** * The grouping of the scanned tasks *)

Lemma map_get_set {V} k (v : V) m : map_get k (map_set k v m) = Some v.
Proof.
  induction m as [|[k' v'] m IH]; cbn.
  - destruct (decide (k = k)); [reflexivity|congruence].
  - destruct (decide (k = k')) as [->|Hne]; cbn.
    + destruct (decide (k' = k')); [reflexivity|congruence].
    + destruct (decide (k = k')); [congruence|exact IH].
Qed.

Lemma map_get_set_other {V} k k' (v : V) m :
  k' ≠ k → map_get k' (map_set k v m) = map_get k' m.
Proof.
  intros Hne. induction m as [|[k0 v0] m IH]; cbn.
  - destruct (decide (k' = k)); [congruence|reflexivity].
  - destruct (decide (k = k0)) as [->|Hne0]; cbn.
    + destruct (decide (k' = k0)); [congruence|reflexivity].
    + destruct (decide (k' = k0)); [reflexivity|exact IH].
Qed.

Lemma map_set_NoDup {V} k (v : V) m : NoDup m.*1 → NoDup (map_set k v m).*1.
Proof.
  induction m as [|[k' v'] m IH]; cbn.
  - intros _. apply NoDup_singleton.
  - intros H. apply NoDup_cons in H as [Hk' Hm].
    destruct (decide (k = k')) as [->|Hne]; cbn.
    + apply NoDup_cons. split; assumption.
    + apply NoDup_cons. split; [|apply IH, Hm].
      intros Hin. apply map_set_keys in Hin as [->|Hin]; [congruence|contradiction].
Qed.

Lemma map_set_length {V} k (v : V) m : (length (map_set k v m) ≤ S (length m))%nat.
Proof.
  induction m as [|[k' v'] m IH]; cbn; [lia|].
  destruct (decide (k = k')); cbn; lia.
Qed.

Lemma groupTasks_snoc ts t :
  groupTasks (ts ++ [t]) =
  match todoistId t with
  | Some (c :: i) => (map_set (c :: i) t (groupTasks ts).1, (groupTasks ts).2)
  | _ => ((groupTasks ts).1, (groupTasks ts).2 ++ [t])
  end.
Proof.
  unfold groupTasks. rewrite foldl_app. cbn [foldl].
  destruct (foldl _ _ ts) as [synced new]. cbn [fst snd].
  destruct (todoistId t) as [[|c i]|]; reflexivity.
Qed.

Lemma last_snoc_filter {A} (P : A → Prop) `{∀ x, Decision (P x)} l x :
  last (filter P (l ++ [x])) = if decide (P x) then Some x else last (filter P l).
Proof.
  rewrite filter_app, filter_cons, filter_nil.
  destruct (decide (P x)); [apply last_snoc|rewrite app_nil_r; reflexivity].
Qed.

Lemma groupTasks_shape obsidianTasks :
  (groupTasks obsidianTasks).2 = filter (λ t, truthy (todoistId t) = false) obsidianTasks
  ∧ (length (groupTasks obsidianTasks).1 + length (groupTasks obsidianTasks).2
     ≤ length obsidianTasks)%nat.
Proof.
  induction obsidianTasks as [|t ts IH] using rev_ind.
  - unfold groupTasks. cbn. split; [reflexivity|lia].
  - rewrite groupTasks_snoc. destruct (groupTasks ts) as [synced new]. cbn [fst snd] in *.
    destruct IH as (Hnew & Hlen). rewrite length_app. cbn [length].
    rewrite filter_app, filter_cons, filter_nil, <- Hnew.
    destruct (todoistId t) as [[|c i]|] eqn:Eid; cbn [truthy fst snd].
    + destruct (decide (false = false)); [|congruence]. rewrite length_app. cbn.
      split; [reflexivity|lia].
    + destruct (decide (true = false)); [discriminate|]. rewrite app_nil_r.
      pose proof (map_set_length (c :: i) t synced). split; [reflexivity|lia].
    + destruct (decide (false = false)); [|congruence]. rewrite length_app. cbn.
      split; [reflexivity|lia].
Qed.

(** X14: The grouping loop of [performSync] keeps the tasks without an id in
    their order; in the map of the linked tasks every id is a key once, and
    its entry is the last scanned task that carries the id, so of several
    lines with one id only the last is reconciled. *)
Theorem groupTasks_keeps_last_task_of_each_id obsidianTasks :
  let '(syncedObsidianTasks, newObsidianTasks) := groupTasks obsidianTasks in
  newObsidianTasks = filter (λ t, truthy (todoistId t) = false) obsidianTasks
  ∧ NoDup syncedObsidianTasks.*1
  ∧ (∀ id, id ≠ [] →
       map_get id syncedObsidianTasks
       = last (filter (λ t, todoistId t = Some id) obsidianTasks))
  ∧ map_get [] syncedObsidianTasks = None
  ∧ (length syncedObsidianTasks + length newObsidianTasks ≤ length obsidianTasks)%nat.
Proof.
  induction obsidianTasks as [|t ts IH] using rev_ind.
  - cbn. repeat split; try reflexivity; try constructor; try lia.
  - rewrite groupTasks_snoc. destruct (groupTasks ts) as [synced new]. cbn [fst snd].
    destruct IH as (Hnew & Hdup & Hget & Hempty & Hlen).
    rewrite length_app. cbn [length].
    destruct (todoistId t) as [[|c i]|] eqn:Eid.
    + repeat split.
      * rewrite filter_app, filter_cons, filter_nil, Eid. cbn [truthy].
        destruct (decide (false = false)); [|congruence]. rewrite Hnew. reflexivity.
      * exact Hdup.
      * intros id Hid. rewrite last_snoc_filter.
        destruct (decide (todoistId t = Some id)) as [E|_]; [congruence|apply Hget, Hid].
      * exact Hempty.
      * rewrite length_app. cbn. lia.
    + repeat split.
      * rewrite filter_app, filter_cons, filter_nil, Eid. cbn [truthy].
        destruct (decide (true = false)); [discriminate|]. rewrite app_nil_r. exact Hnew.
      * apply map_set_NoDup, Hdup.
      * intros id Hid. rewrite last_snoc_filter.
        destruct (decide (todoistId t = Some id)) as [E|Hne].
        -- rewrite Eid in E. injection E as <-. apply map_get_set.
        -- rewrite map_get_set_other by congruence. apply Hget, Hid.
      * rewrite map_get_set_other by discriminate. exact Hempty.
      * pose proof (map_set_length (c :: i) t synced). lia.
    + repeat split.
      * rewrite filter_app, filter_cons, filter_nil, Eid. cbn [truthy].
        destruct (decide (false = false)); [|congruence]. rewrite Hnew. reflexivity.
      * exact Hdup.
      * intros id Hid. rewrite last_snoc_filter.
        destruct (decide (todoistId t = Some id)) as [E|_]; [congruence|apply Hget, Hid].
      * exact Hempty.
      * rewrite length_app. cbn. lia.
Qed.

(** * What a pass reports *)

Section Accounting.
Context {W : Type} (host : Host W).

Lemma createOne_result task result e w :
  (run host (createOne task result) e w).1.1 = add_created result
  ∨ ∃ msg, (run host (createOne task result) e w).1.1 = push_error msg result.
Proof.
  unfold createOne. rewrite run_tryCatch, run_andThen.
  destruct (run host (createTodoistTask task) e w) as [[[[]|err] e1] w1].
  - left. reflexivity.
  - right. eexists. reflexivity.
Qed.

Lemma syncOne_result m entry result e w :
  let r := (run host (syncOne m entry result) e w).1.1 in
  r = add_updated result ∨ r = add_conflict result ∨ r = add_completed result
  ∨ r = result ∨ ∃ msg, r = push_error msg result.
Proof.
  destruct entry as [id task]. unfold syncOne.
  destruct (map_get id m) as [t|].
  - rewrite run_tryCatch, run_andThen.
    destruct (run host (syncExistingTask task t) e w) as [[[[]|err] e1] w1]; cbn; eauto 10.
  - rewrite run_tryCatch, run_andThen.
    destruct (run host (markObsidianTaskCompleted task) e w) as [[[[]|err] e1] w1];
      cbn; eauto 10.
Qed.

Lemma creation_loop newTasks result e w :
  let r := (run host (forEach newTasks createOne result) e w).1.1 in
  (created r + length (errors r) = created result + length (errors result) + length newTasks)%nat
  ∧ updated r = updated result ∧ completed r = completed result
  ∧ conflicts r = conflicts result.
Proof.
  revert result e w. induction newTasks as [|t ts IH]; intros result e w; cbn [forEach].
  - cbn. repeat split; lia.
  - rewrite run_bind.
    pose proof (createOne_result t result e w) as Hone.
    destruct (run host (createOne t result) e w) as [[r1 e1] w1]. cbn [fst] in Hone.
    specialize (IH r1 e1 w1). cbn zeta in *. destruct IH as (Hc & Hu & Hd & Hk).
    rewrite Hu, Hd, Hk, Hc.
    destruct Hone as [->|[msg ->]]; cbn; rewrite ?length_app; cbn; repeat split; lia.
Qed.

Lemma linked_loop m synced result e w :
  let r := (run host (forEach synced (syncOne m) result) e w).1.1 in
  created r = created result
  ∧ (outcomes r ≤ outcomes result + length synced)%nat.
Proof.
  revert result e w. induction synced as [|x xs IH]; intros result e w; cbn [forEach].
  - cbn. split; lia.
  - rewrite run_bind.
    pose proof (syncOne_result m x result e w) as Hone.
    destruct (run host (syncOne m x result) e w) as [[r1 e1] w1]. cbn [fst] in Hone.
    specialize (IH r1 e1 w1). cbn zeta in *. destruct IH as (Hc & Hle).
    rewrite Hc. unfold outcomes in *.
    destruct Hone as [->|[->|[->|[->|[msg ->]]]]]; cbn in *; rewrite ?length_app in *;
      cbn in *; split; lia.
Qed.

Lemma orphan_loop synced (m : list (list N * Task)) e w :
  (run host (forEach m (dropOrphan synced) ()) e w).2 = w.
Proof.
  revert e. induction m as [|x m IH]; intros e; cbn [forEach]; [reflexivity|].
  rewrite run_bind. unfold dropOrphan at 1. rewrite run_bind, run_get.
  destruct (tasks (syncState e) !! x.1); [destruct (negb _)|]; cbn; apply IH.
Qed.

(** X15: Loop 1 of [performSync] reports every task without an id exactly once,
    as created or as an error, and leaves the other counters alone. *)
Theorem creation_loop_reports_each_task_once newTasks result e w :
  let r := (run host (forEach newTasks createOne result) e w).1.1 in
  (created r + length (errors r)
   = created result + length (errors result) + length newTasks)%nat
  ∧ updated r = updated result ∧ completed r = completed result
  ∧ conflicts r = conflicts result.
Proof. apply creation_loop. Qed.

(** X16: A pass that fetched the remote tasks and scanned the vault reports at
    most one outcome per scanned task: the four counters and the number of
    errors add up to no more than the number of scanned tasks, and [created]
    and the errors of loop 1 to the number of tasks without an id. *)
Theorem performSync_reports_at_most_one_outcome_per_task
    e w w0 w1 todoistTasks obsidianTasks e2 w2 :
  isSyncing e = false →
  answer host isInitialized w = (true, w0) →
  answer host getTasks w0 = (Returned todoistTasks, w1) →
  run host getAllObsidianTasks (set_isSyncing true e) w1 = (Returned obsidianTasks, e2, w2) →
  let r := (run host performSync e w).1.1 in
  (outcomes r ≤ length obsidianTasks)%nat
  ∧ (created r ≤ length (filter (λ t, truthy (todoistId t) = false) obsidianTasks))%nat.
Proof.
  intros Hidle Hinit Hfetch Hscan.
  unfold performSync.
  rewrite run_bind, run_get, Hidle, run_bind, run_perform, Hinit. cbn [fst snd negb].
  rewrite run_bind, run_modify, run_bind, run_tryCatch, run_bind, run_perform, Hfetch.
  cbn [fst snd]. unfold syncFetched.
  rewrite run_andThen, Hscan.
  pose proof (groupTasks_shape obsidianTasks) as Hgroup.
  destruct (groupTasks obsidianTasks) as [synced new].
  destruct Hgroup as (Hnew & Hlen).
  rewrite run_bind.
  pose proof (creation_loop new emptyResult e2 w2) as H1.
  destruct (run host (forEach new createOne emptyResult) e2 w2) as [[r3 e3] w3].
  rewrite run_bind.
  pose proof (linked_loop (foldl (λ m task, map_set (task_id task) task m) [] todoistTasks)
                synced r3 e3 w3) as H2.
  destruct (run host (forEach synced (syncOne _) r3) e3 w3) as [[r4 e4] w4].
  rewrite run_bind.
  destruct (run host (forEach _ (dropOrphan synced) ()) e4 w4) as [[[] e5] w5].
  rewrite run_bind, run_perform.
  destruct (answer host Date_now w5) as [now w6]. cbn [fst snd].
  rewrite run_bind, run_modify, run_ret, run_bind, run_modify, run_ret.
  cbn [fst snd] in *. cbn zeta in *. unfold outcomes in *. cbn in H1.
  destruct H1 as (Hc & Hu & Hd & Hk). destruct H2 as (Hc4 & Hle).
  rewrite <- Hnew. split; lia.
Qed.

End Accounting.

(** * The settings and the queue of conflicts *)

Lemma queued_refl e : queued [] e e.
Proof. split; [reflexivity|rewrite app_nil_r; reflexivity]. Qed.

Lemma queued_trans a b e0 e1 e2 : queued a e0 e1 → queued b e1 e2 → queued (a ++ b) e0 e2.
Proof.
  intros [Hs1 Hp1] [Hs2 Hp2]. split; [congruence|].
  rewrite Hp2, Hp1, app_assoc. reflexivity.
Qed.

Ltac queued_solve :=
  first
    [ exists []; split; [split; [reflexivity|cbn; rewrite app_nil_r; reflexivity]|];
      split; [cbn; lia | intros _; reflexivity]
    | eexists [_]; split; [split; reflexivity|];
      split; [cbn; lia | intros Hpolicy; exfalso; apply Hpolicy; first [assumption|reflexivity]] ].

Section Queue.
Context {W : Type} (host : Host W).

Lemma createOne_queued task result e w :
  queued [] e (run host (createOne task result) e w).1.2.
Proof.
  unfold createOne. unfold_engine. crunch host;
    (split; [reflexivity|cbn; rewrite app_nil_r; reflexivity]).
Qed.

Lemma syncOne_queued m entry result e w :
  ∃ added,
    queued added e (run host (syncOne m entry result) e w).1.2
    ∧ (length added ≤ 1)%nat
    ∧ (conflictResolution (settings e) ≠ ask_user → added = []).
Proof.
  destruct entry as [id task]. unfold syncOne. unfold_engine. crunch host; queued_solve.
Qed.

Lemma dropOrphan_queued synced entry e w :
  queued [] e (run host (dropOrphan synced entry ()) e w).1.2.
Proof.
  unfold dropOrphan. unfold_engine. crunch host;
    (split; [reflexivity|cbn; rewrite app_nil_r; reflexivity]).
Qed.

Lemma creation_loop_queued newTasks result e w :
  queued [] e (run host (forEach newTasks createOne result) e w).1.2.
Proof.
  revert result e w. induction newTasks as [|t ts IH]; intros result e w; cbn [forEach].
  - apply queued_refl.
  - rewrite run_bind. pose proof (createOne_queued t result e w) as H1.
    destruct (run host (createOne t result) e w) as [[r1 e1] w1]. cbn [fst snd] in H1.
    apply (queued_trans [] [] e e1); [exact H1|apply IH].
Qed.

Lemma linked_loop_queued m synced result e w :
  ∃ added,
    queued added e (run host (forEach synced (syncOne m) result) e w).1.2
    ∧ (length added ≤ length synced)%nat
    ∧ (conflictResolution (settings e) ≠ ask_user → added = []).
Proof.
  revert result e w. induction synced as [|x xs IH]; intros result e w; cbn [forEach].
  - exists []. split; [apply queued_refl|]. split; [cbn; lia|reflexivity].
  - rewrite run_bind. destruct (syncOne_queued m x result e w) as (a & Ha & Hla & Hpa).
    destruct (run host (syncOne m x result) e w) as [[r1 e1] w1]. cbn [fst snd] in Ha.
    destruct (IH r1 e1 w1) as (b & Hb & Hlb & Hpb).
    exists (a ++ b). split; [apply (queued_trans a b e e1); assumption|].
    split; [rewrite length_app; cbn; lia|].
    intros Hpolicy. rewrite (Hpa Hpolicy), Hpb; [reflexivity|].
    destruct Ha as [Hs _]. rewrite Hs. exact Hpolicy.
Qed.

Lemma orphan_loop_queued synced (m : list (list N * Task)) e w :
  queued [] e (run host (forEach m (dropOrphan synced) ()) e w).1.2.
Proof.
  revert e w. induction m as [|x m IH]; intros e w; cbn [forEach].
  - apply queued_refl.
  - rewrite run_bind. pose proof (dropOrphan_queued synced x e w) as H1.
    destruct (run host (dropOrphan synced x ()) e w) as [[[] e1] w1]. cbn [fst snd] in H1.
    apply (queued_trans [] [] e e1); [exact H1|apply IH].
Qed.

Lemma scan_engine e w : (run host getAllObsidianTasks e w).1.2 = e.
Proof.
  unfold getAllObsidianTasks. rewrite run_andThen, run_perform.
  destruct (answer host getMarkdownFiles w) as [[files|err] w0]; [|reflexivity].
  cbn [fst snd]. unfold ok. rewrite run_bind.
  destruct (scanFiles_run host files [] e w0) as (more & w' & -> & _). reflexivity.
Qed.

(** X17: Whatever the host answers, an invocation of [performSync] leaves the
    settings as they are and only appends to the queue of conflicts: at most
    one conflict per linked task, and none unless the policy is to ask the
    user. *)
Theorem performSync_only_appends_conflicts e w :
  let e' := (run host performSync e w).1.2 in
  settings e' = settings e
  ∧ ∃ added,
      pendingConflicts e' = pendingConflicts e ++ added
      ∧ (conflictResolution (settings e) ≠ ask_user → added = []).
Proof.
  cbn zeta.
  assert (H : ∃ added, queued added e (run host performSync e w).1.2
                ∧ (conflictResolution (settings e) ≠ ask_user → added = [])).
  2:{ destruct H as (added & [Hs Hp] & Hpolicy). split; [exact Hs|]. exists added.
      split; assumption. }
  unfold performSync. rewrite run_bind, run_get.
  destruct (isSyncing e) eqn:Hflag.
  { exists []. split; [apply queued_refl|reflexivity]. }
  rewrite run_bind, run_perform.
  destruct (answer host isInitialized w) as [[|] w0]; cbn [fst snd negb].
  2:{ exists []. split; [apply queued_refl|reflexivity]. }
  rewrite run_bind, run_modify, run_bind, run_tryCatch, run_bind, run_perform.
  destruct (answer host getTasks w0) as [[todoistTasks|err] w1]; cbn [fst snd].
  2:{ rewrite run_bind, run_modify, run_ret, run_bind, run_modify, run_ret. cbn.
      exists []. split; [|reflexivity].
      split; [reflexivity|cbn; rewrite app_nil_r; reflexivity]. }
  unfold syncFetched. rewrite run_andThen.
  pose proof (scan_engine (set_isSyncing true e) w1) as Hscan.
  destruct (run host getAllObsidianTasks (set_isSyncing true e) w1)
    as [[[obsidianTasks|err] e2] w2]; cbn [fst snd] in Hscan; subst e2.
  2:{ rewrite run_ret, run_bind, run_modify, run_ret. cbn.
      exists []. split; [|reflexivity].
      split; [reflexivity|cbn; rewrite app_nil_r; reflexivity]. }
  destruct (groupTasks obsidianTasks) as [synced new].
  rewrite run_bind.
  pose proof (creation_loop_queued new emptyResult (set_isSyncing true e) w2) as H1.
  destruct (run host (forEach new createOne emptyResult) _ w2) as [[r3 e3] w3].
  rewrite run_bind.
  destruct (linked_loop_queued
              (foldl (λ m task, map_set (task_id task) task m) [] todoistTasks)
              synced r3 e3 w3) as (added & H2 & _ & Hpolicy).
  destruct (run host (forEach synced (syncOne _) r3) e3 w3) as [[r4 e4] w4].
  rewrite run_bind.
  pose proof (orphan_loop_queued synced
                (foldl (λ m task, map_set (task_id task) task m) [] todoistTasks) e4 w4) as H3.
  destruct (run host (forEach _ (dropOrphan synced) ()) e4 w4) as [[[] e5] w5].
  rewrite run_bind, run_perform.
  destruct (answer host Date_now w5) as [now w6]. cbn [fst snd] in *.
  rewrite run_bind, run_modify, run_ret, run_bind, run_modify, run_ret. cbn [fst snd].
  exists added. split.
  - destruct H1 as [Hs1 Hp1], H2 as [Hs2 Hp2], H3 as [Hs3 Hp3]. cbn in Hs1, Hp1.
    split; cbn.
    + congruence.
    + rewrite Hp3, Hp2, Hp1. rewrite !app_nil_r. reflexivity.
  - intros Hne. apply Hpolicy. destruct H1 as [Hs1 _]. cbn in Hs1. rewrite Hs1. exact Hne.
Qed.

End Queue.

(** * Completion on one side only *)

Section Completion.
Context {W : Type} (host : Host W).

Lemma run_updateSyncStateTask id task completed e w :
  run host (updateSyncStateTask id task completed) e w
  = ((), set_tasks <[id := linkedRecord id task completed (answer host Date_now w).1]> e,
     (answer host Date_now w).2).
Proof.
  unfold updateSyncStateTask. rewrite run_bind, run_perform. cbn [fst snd].
  rewrite run_modify. reflexivity.
Qed.

(** X18: A task ticked locally and open remotely is closed remotely whatever the
    policy and whatever else differs between the two sides: the text, the
    priority and the due date are not compared in that pass.  When the close
    call returns, the record of the task is written with both flags up and
    the outcome is [completed]; when it throws, nothing is written. *)
Theorem local_completion_closes_remote_task obsidianTask todoistTask e w r w1 :
  isCompleted obsidianTask = true →
  task_isCompleted todoistTask = false →
  answer host (completeTask (task_id todoistTask)) w = (r, w1) →
  run host (syncExistingTask obsidianTask todoistTask) e w
  = match r with
    | Returned _ =>
        (Returned outcome_completed,
         set_tasks <[task_id todoistTask :=
                       linkedRecord (task_id todoistTask) obsidianTask true
                                    (answer host Date_now w1).1]> e,
         (answer host Date_now w1).2)
    | Thrown err => (Thrown err, e, w1)
    end.
Proof.
  intros Hlocal Hremote Hclose. unfold syncExistingTask.
  rewrite Hlocal, Hremote. cbn [negb andb].
  rewrite run_andThen, run_perform, Hclose. cbn [fst snd].
  destruct r as [closed|err]; [|reflexivity].
  rewrite run_bind, run_updateSyncStateTask, run_ret. reflexivity.
Qed.

(** X19: A task open locally and completed remotely, under the policy that asks
    the user, its line still at its index in the file.  The file is written
    back with the box of that line ticked, as if Todoist won, and every
    other line as it was read.  When the write returns, the record is
    written with both flags up and the pass counts one conflict, but no
    conflict is put in the queue; when the write throws, the pass only
    appends a message. *)
Theorem remote_completion_counts_conflict_without_queueing
    todoistTaskMap todoistId obsidianTask todoistTask result e w
    file w0 text w1 indent taskContent r w2 :
  map_get todoistId todoistTaskMap = Some todoistTask →
  isCompleted obsidianTask = false →
  task_isCompleted todoistTask = true →
  conflictResolution (settings e) = ask_user →
  answer host (getAbstractFileByPath (filePath obsidianTask)) w = (Some file, w0) →
  answer host (vault_read file) w0 = (Returned text, w1) →
  split_lines text !! lineNumber obsidianTask = Some (originalLine obsidianTask) →
  match_task (originalLine obsidianTask) = Some (indent, 32, taskContent) →
  answer host (vault_modify file (tickedText obsidianTask text)) w1 = (r, w2) →
  let tickedLine := updateTaskCompletion (originalLine obsidianTask) true in
  let e' := set_tasks <[task_id todoistTask :=
                          linkedRecord (task_id todoistTask) obsidianTask true
                                       (answer host Date_now w2).1]> e in
  split_lines (tickedText obsidianTask text)
    = <[lineNumber obsidianTask := tickedLine]> (split_lines text)
  ∧ match_task tickedLine = Some (indent, 120, taskContent)
  ∧ run host (syncOne todoistTaskMap (todoistId, obsidianTask) result) e w
    = match r with
      | Returned _ => (add_conflict result, e', (answer host Date_now w2).2)
      | Thrown err =>
          (push_error (lit "Failed to sync task: " ++ content obsidianTask
                       ++ lit " - " ++ err) result, e, w2)
      end
  ∧ conflicts (add_conflict result) = S (conflicts result)
  ∧ pendingConflicts e' = pendingConflicts e.
Proof.
  intros Hget Hlocal Hremote Hask Hfile Hread Hline Htask Hwrite tickedLine e'.
  split; [apply tickedText_lines, Hline|].
  split; [apply (flip_checkbox _ indent 32 taskContent true Htask eq_refl)|].
  split; [|split; reflexivity].
  unfold syncOne. rewrite Hget, run_tryCatch, run_andThen.
  unfold syncExistingTask. rewrite Hlocal, Hremote. cbn [negb andb].
  rewrite run_bind, run_get, Hask, run_andThen.
  rewrite (markObsidianTaskCompleted_run host obsidianTask e w file w0 text w1 Hfile Hread)
    by (eapply lookup_lt_Some, Hline).
  rewrite Hwrite. cbn [fst snd]. destruct r as [[]|err]; [|reflexivity].
  rewrite run_bind, run_updateSyncStateTask, run_ret. reflexivity.
Qed.

End Completion.

(** * Without a gateway; the glyphs of the priorities *)

Section NotConfigured.
Context {W : Type} (host : Host W).

(** X20: Without a configured gateway an invocation of [performSync] resolves
    at once: it awaits nothing, asks the host nothing but whether the gateway
    is initialised, leaves every field of the engine as it is (the flag is
    not raised) and reports the one error. *)
Theorem performSync_without_gateway_resolves_at_once e w w0 :
  isSyncing e = false →
  answer host isInitialized w = (false, w0) →
  advance host performSync e w = (Resolved notConfiguredResult, e, w0)
  ∧ run host performSync e w = (notConfiguredResult, e, w0)
  ∧ outcomes notConfiguredResult = 1%nat.
Proof.
  intros Hidle Hinit. unfold performSync. cbn. rewrite Hidle. cbn. rewrite Hinit. cbn.
  repeat split.
Qed.

End NotConfigured.

(** X9: [extractPriority] reads back the glyph that [priorityToEmoji] gives for
    each of the four priorities, and a priority outside the enumeration has
    no glyph. *)
Theorem priorityToEmoji_round_trip p :
  (wf_priority p = true → extractPriority (priorityToEmoji p) = p)
  ∧ (wf_priority p = false → priorityToEmoji p = []).
Proof.
  unfold wf_priority, priorityToEmoji. split.
  - intros H. repeat (apply orb_true_iff in H as [H|H]); apply Z.eqb_eq in H; subst p;
      vm_compute; reflexivity.
  - intros H. repeat (apply orb_false_iff in H as [H ?]).
    repeat match goal with E : (_ =? _)%Z = false |- _ => rewrite ?E; clear E end.
    reflexivity.
Qed.

(** * Tasks in step, and the cleanup *)

Section InStep.
Context {W : Type} (host : Host W).

(** X21: A linked task whose two sides agree on completion, text, priority and
    due date is left alone: nothing is written to the vault or sent to the
    gateway, the host is only asked the time, no counter moves, and the
    record of the task is renewed. *)
Theorem task_in_step_is_left_alone todoistTaskMap todoistId obsidianTask todoistTask
    result e w :
  map_get todoistId todoistTaskMap = Some todoistTask →
  isCompleted obsidianTask = task_isCompleted todoistTask →
  content obsidianTask = task_content todoistTask →
  priority obsidianTask = task_priority todoistTask →
  dueDate obsidianTask = task_due todoistTask →
  run host (syncOne todoistTaskMap (todoistId, obsidianTask) result) e w
  = (result,
     set_tasks <[task_id todoistTask :=
                   linkedRecord (task_id todoistTask) obsidianTask
                                (isCompleted obsidianTask) (answer host Date_now w).1]> e,
     (answer host Date_now w).2).
Proof.
  intros Hget Hdone Hc Hp Hd. unfold syncOne. rewrite Hget, run_tryCatch, run_andThen.
  unfold syncExistingTask. rewrite <- Hdone.
  destruct (isCompleted obsidianTask); cbn [negb andb];
    rewrite !bool_decide_eq_false_2 by (intros Hne; apply Hne; assumption);
    cbn [orb negb]; rewrite run_bind, run_updateSyncStateTask, run_ret; reflexivity.
Qed.

(** X22: Loop 3 of [performSync] asks the host nothing and touches nothing but
    the records: it deletes the records of the ids of the remote map that no
    scanned task carries, and leaves every other record as it is. *)
Theorem orphan_cleanup_only_deletes_unlinked_records synced
    (todoistTaskMap : list (list N * Task)) e w :
  ∃ e',
    run host (forEach todoistTaskMap (dropOrphan synced) ()) e w = ((), e', w)
    ∧ settings e' = settings e ∧ isSyncing e' = isSyncing e
    ∧ pendingConflicts e' = pendingConflicts e
    ∧ lastFullSync (syncState e') = lastFullSync (syncState e)
    ∧ ∀ id, tasks (syncState e') !! id =
            if bool_decide (id ∈ todoistTaskMap.*1) && negb (map_has id synced)
            then None else tasks (syncState e) !! id.
Proof. apply dropOrphans_spec. Qed.

End InStep.

(** * The client of the gateway *)

(** X23: Saving the settings never disconnects the gateway: with a token in the
    new settings the service is initialised with it, and with the token
    cleared the service stays as it was, so that a service that was
    initialised goes on answering with the old token. *)
Theorem saveSettings_never_disconnects newSettings service :
  serviceIsInitialized (saveSettings newSettings service)
  = nonempty (apiToken newSettings) || serviceIsInitialized service
  ∧ (apiToken newSettings = [] → saveSettings newSettings service = service)
  ∧ (apiToken newSettings ≠ [] →
     api (saveSettings newSettings service) = Some (apiToken newSettings)).
Proof.
  unfold saveSettings, initialize, serviceIsInitialized.
  destruct (apiToken newSettings) as [|c t]; cbn; repeat split; congruence.
Qed.

(** * One pass at a time *)

Section OnePass.
Context {W : Type} (host : Host W).

(** X24: However invocations of [performSync], answers of the host and other
    events interleave, at most one invocation is in flight past the guard,
    and the flag is up exactly while one is. *)
Theorem at_most_one_pass_in_flight s :
  reachable host s →
  (length (inflight s) ≤ 1)%nat
  ∧ (isSyncing (engine s) = true ↔ inflight s ≠ []).
Proof.
  intros Hreach. pose proof (reachable_guard_invariant host s Hreach) as Hinv.
  unfold guard_invariant in Hinv.
  destruct (inflight s) as [|pd [|pd' rest]]; [| |contradiction].
  - split; [cbn; lia|]. rewrite Hinv. split; [discriminate|congruence].
  - destruct Hinv as [Hflag _]. split; [cbn; lia|]. rewrite Hflag.
    split; [discriminate|reflexivity].
Qed.

End OnePass.

(** * The line of a created task *)

Lemma addTodoistId_one_line line id :
  forallb (λ c, negb (c =? 10)) line = true → forallb is_digit id = true →
  forallb (λ c, negb (c =? 10)) (addTodoistIdToLine line id) = true.
Proof.
  intros Hline Hid. unfold addTodoistIdToLine.
  assert (Hrep : forallb (λ c, negb (c =? 10)) (replace_first match_todoistId [] line) = true).
  { unfold replace_first.
    destruct (search match_todoistId line) as [[[pre a] post]|] eqn:E; [|exact Hline].
    apply search_found in E as (t & -> & Hm).
    assert (HX : ∃ X, t = X ++ post).
    { apply match_todoistId_shape in Hm as (w1 & w2 & w3 & -> & _).
      exists (lit "<!--" ++ w1 ++ lit "todoist-id:" ++ w2 ++ a ++ w3 ++ lit "-->").
      rewrite <- !app_assoc. reflexivity. }
    destruct HX as (X & ->). rewrite !forallb_app in Hline. rewrite forallb_app.
    apply andb_true_iff in Hline as [H1 Hline]. apply andb_true_iff in Hline as [_ H2].
    cbn [app]. rewrite H1, H2. reflexivity. }
  rewrite !forallb_app, (trim_no_newline _ Hrep). cbn [andb].
  assert (Hd : forallb (λ c, negb (c =? 10)) id = true).
  { apply forallb_forall. intros c Hc. rewrite forallb_forall in Hid.
    specialize (Hid c Hc). class_solve. }
  rewrite Hd. reflexivity.
Qed.

Section Linking.
Context {W : Type} (host : Host W).

(** X26: The rewrite that [createTodoistTask] makes once the gateway has created
    the task, for an id that is a run of digits, not empty, and a marker
    that is empty or does not end with white space: when the task is what
    the scan read from its line, has no id, and the file still has that line
    at the task's line number, the content that is written holds, at that
    line number, a line that the next scan reads as a task with the new id,
    so the task is not created a second time; every other line is written
    back as it was read. *)
Theorem created_task_is_linked_in_the_file
    task syncTag modified modified' id e w file w0 text w1 :
  parseTaskLine (originalLine task) (lineNumber task) (filePath task) syncTag modified
    = Some (with_description task []) →
  todoistId task = None →
  (syncTag = [] ∨ ends_dark syncTag) →
  id ≠ [] → forallb is_digit id = true →
  answer host (getAbstractFileByPath (filePath task)) w = (Some file, w0) →
  answer host (vault_read file) w0 = (Returned text, w1) →
  split_lines text !! lineNumber task = Some (originalLine task) →
  ∃ data,
    run host (updateObsidianTaskLine task (λ line, addTodoistIdToLine line id)) e w
      = ((answer host (vault_modify file data) w1).1, e,
         (answer host (vault_modify file data) w1).2)
    ∧ split_lines data
      = <[lineNumber task := addTodoistIdToLine (originalLine task) id]> (split_lines text)
    ∧ ∃ linked,
        linked ∈ parseTasksFromContent data (filePath task) syncTag modified'
        ∧ lineNumber linked = lineNumber task
        ∧ todoistId linked = Some id
        ∧ isCompleted linked = isCompleted task.
Proof.
  intros Hparse Hnone Htag Hid Hdigits Hfile Hread Hline.
  assert (Hnl : forallb (λ c, negb (c =? 10)) (originalLine task) = true).
  { pose proof (split_lines_no_newline text) as Hall. rewrite Forall_forall in Hall.
    apply Hall. eapply list_elem_of_lookup_2, Hline. }
  pose proof (addTodoistId_one_line _ _ Hnl Hdigits) as Hnew.
  exists (join_lines (line_updated (λ line, addTodoistIdToLine line id) (lineNumber task)
                        (split_lines text))).
  assert (Hdata : split_lines (join_lines (line_updated (λ line, addTodoistIdToLine line id)
                                 (lineNumber task) (split_lines text)))
                  = <[lineNumber task := addTodoistIdToLine (originalLine task) id]>
                      (split_lines text)).
  { apply (line_updated_lines (λ line, addTodoistIdToLine line id));
      [exact Hline|exact Hnew|apply split_lines_no_newline]. }
  split; [|split; [exact Hdata|]].
  - unfold updateObsidianTaskLine.
    rewrite run_bind, run_perform, Hfile. cbn [fst snd].
    rewrite run_andThen, run_perform, Hread. cbn [fst snd].
    pose proof (lookup_lt_Some _ _ _ Hline) as Hlt.
    replace (length (split_lines text) <=? lineNumber task)%nat with false
      by (symmetry; apply Nat.leb_gt; exact Hlt).
    apply run_perform.
  - assert (Hparse' : ∃ t0, parseTaskLine (originalLine task) (lineNumber task)
                              (filePath task) syncTag modified' = Some t0
                            ∧ todoistId t0 = None ∧ isCompleted t0 = isCompleted task).
    { unfold parseTaskLine in *.
      destruct (match_task (originalLine task)) as [[[ind cb] c]|]; [|discriminate].
      destruct (negb _); [discriminate|].
      pose proof (f_equal (λ o, todoistId <$> o) Hparse) as Hp1.
      pose proof (f_equal (λ o, isCompleted <$> o) Hparse) as Hp2.
      cbn in Hp1, Hp2. injection Hp1 as Hp1. injection Hp2 as Hp2.
      eexists. split; [reflexivity|]. cbn [todoistId isCompleted].
      split; [congruence|exact Hp2]. }
    destruct Hparse' as (t0 & Hp0 & Hid0 & Hdone0).
    destruct (addTodoistId_links (originalLine task) (lineNumber task) (filePath task)
                syncTag modified' t0 id Hp0 Hid0 Htag Hid Hdigits)
      as (t' & Hp' & Hid' & Hdone' & _).
    eexists. split.
    + apply (parseTasksFromContent_complete _ _ _ _ (lineNumber task)
               (addTodoistIdToLine (originalLine task) id) t'); [|exact Hp'].
      rewrite Hdata. apply list_lookup_insert_eq. eapply lookup_lt_Some, Hline.
    + cbn [lineNumber todoistId isCompleted with_description].
      apply parseTaskLine_fields in Hp' as (_ & Hn & _).
      repeat split; congruence.
Qed.

End Linking.

(** * The fields read from a line *)

Lemma take_class_exact p n x t :
  forallb p x = true → length x = n → take_class p n (x ++ t) = Some (x, t).
Proof.
  revert x. induction n as [|n IH]; intros x Hp Hl.
  - destruct x; [reflexivity|discriminate].
  - destruct x as [|c x]; [discriminate|]. cbn in *.
    apply andb_true_iff in Hp as [Hc Hx]. rewrite Hc, (IH x Hx) by lia. reflexivity.
Qed.

(** A date that was matched is matched again when it stands alone. *)
Lemma match_date_self s d r : match_date s = Some (d, r) → match_date d = Some (d, []).
Proof.
  unfold match_date. change (lit "-") with [45].
  destruct (take_class is_digit 4 s) as [[y s1]|] eqn:E1; bind_step; [|discriminate].
  destruct (strip [45] s1) as [s2|] eqn:E2; bind_step; [|discriminate].
  destruct (take_class is_digit 2 s2) as [[mo s3]|] eqn:E3; bind_step; [|discriminate].
  destruct (strip [45] s3) as [s4|] eqn:E4; bind_step; [|discriminate].
  destruct (take_class is_digit 2 s4) as [[dd s5]|] eqn:E5; bind_step; [|discriminate].
  intros Heq. injection Heq as Hd' _. subst d.
  destruct (take_class_spec _ _ _ _ _ E1) as (Hy & _ & Hly).
  destruct (take_class_spec _ _ _ _ _ E3) as (Hm & _ & Hlm).
  destruct (take_class_spec _ _ _ _ _ E5) as (Hd & _ & Hld).
  rewrite (take_class_exact is_digit 4 y) by assumption. bind_step.
  rewrite (strip_self [45] (mo ++ 45 :: dd) : strip [45] (45 :: mo ++ 45 :: dd) = _). bind_step.
  rewrite (take_class_exact is_digit 2 mo) by assumption. bind_step.
  rewrite (strip_self [45] dd : strip [45] (45 :: dd) = _). bind_step.
  rewrite <- (app_nil_r dd) at 1.
  rewrite (take_class_exact is_digit 2 dd) by assumption. bind_step.
  rewrite ?app_nil_r. reflexivity.
Qed.

Lemma capture_glyph_date g c d :
  capture (match_glyph_date g) c = Some d → match_date d = Some (d, []).
Proof.
  unfold capture. destruct (search (match_glyph_date g) c) as [[[pre a] post]|] eqn:E;
    [|discriminate].
  intros [= ->]. apply search_found in E as (t & _ & Hm). unfold match_glyph_date in Hm.
  destruct (strip g t) as [s1|]; [|discriminate]. cbn in Hm.
  eapply match_date_self, Hm.
Qed.

Lemma capture_textDueDate c d :
  capture match_textDueDate c = Some d → match_date d = Some (d, []).
Proof.
  unfold capture. destruct (search match_textDueDate c) as [[[pre a] post]|] eqn:E;
    [|discriminate].
  intros [= ->]. apply search_found in E as (t & _ & Hm). unfold match_textDueDate in Hm.
  destruct (strip_with eq_ci (lit "due:") t) as [s1|]; [|discriminate]. cbn in Hm.
  eapply match_date_self, Hm.
Qed.

(** X27: What the parser reads from a task's text is well formed, whatever the
    text: the due date is absent or of the form YYYY-MM-DD, the id is absent
    or a run of digits that is not empty, and the priority is one of the four
    of the enumeration. *)
Theorem extracted_fields_are_well_formed taskContent :
  wf_dueDate (extractDueDate taskContent) = true
  ∧ wf_todoistId (capture match_todoistId taskContent) = true
  ∧ wf_priority (extractPriority taskContent) = true.
Proof.
  repeat split.
  - unfold extractDueDate.
    destruct (capture match_dueDate taskContent) as [d|] eqn:E1.
    { apply bool_decide_eq_true. eapply capture_glyph_date, E1. }
    destruct (capture match_scheduledDate taskContent) as [d|] eqn:E2.
    { apply bool_decide_eq_true. eapply capture_glyph_date, E2. }
    destruct (capture match_textDueDate taskContent) as [d|] eqn:E3; [|reflexivity].
    apply bool_decide_eq_true. eapply capture_textDueDate, E3.
  - unfold capture.
    destruct (search match_todoistId taskContent) as [[[pre a] post]|] eqn:E; [|reflexivity].
    apply search_found in E as (t & _ & Hm).
    apply match_todoistId_shape in Hm as (w1 & w2 & w3 & _ & _ & _ & _ & Hne & Hds).
    cbn [wf_todoistId]. rewrite Hds. destruct a; [contradiction|reflexivity].
  - unfold extractPriority.
    destruct (test match_highPriority taskContent); [reflexivity|].
    destruct (test match_mediumPriority taskContent); [reflexivity|].
    destruct (test match_lowPriority taskContent); reflexivity.
Qed.

(** * An id with letters *)

Lemma alnum_dark c : is_alnum c = true → is_space c = false.
Proof. unfold is_alnum. class_solve. Qed.

Lemma alnum_not_dash c : is_alnum c = true → (45 =? c) = false.
Proof. unfold is_alnum. class_solve. Qed.

Lemma alnum_not_lt c : is_alnum c = true → negb (60 =? c) = true.
Proof. unfold is_alnum. class_solve. Qed.

Lemma alnum_one_line c : is_alnum c = true → negb (is_line_terminator c) = true.
Proof. unfold is_alnum. class_solve. Qed.

Lemma first_outside (p : N → bool) l :
  forallb p l = false → ∃ a c r, l = a ++ c :: r ∧ forallb p a = true ∧ p c = false.
Proof.
  induction l as [|x l IH]; [discriminate|]. cbn [forallb]. destruct (p x) eqn:Hx.
  - cbn [andb]. intros H. destruct (IH H) as (a & c & r & -> & Ha & Hc).
    exists (x :: a), c, r. cbn [forallb]. rewrite Hx, Ha. repeat split; assumption.
  - intros _. exists [], x, l. repeat split; assumption.
Qed.

(** The comment that [addTodoistIdToLine] writes for an id of letters and
    digits with a letter in it is not one that [PATTERNS.todoistId]
    matches. *)
Lemma textual_comment_unread id :
  forallb is_alnum id = true → forallb is_digit id = false →
  search match_todoistId (lit "<!-- todoist-id:" ++ id ++ lit " -->") = None.
Proof.
  intros Halnum Hletter.
  assert (Hhere : match_todoistId (lit "<!-- todoist-id:" ++ id ++ lit " -->") = None).
  { unfold match_todoistId.
    change (lit "<!-- todoist-id:") with (lit "<!--" ++ [32] ++ lit "todoist-id:").
    rewrite <- !app_assoc, (strip_self (lit "<!--")). bind_step.
    rewrite skip_all by reflexivity. rewrite skip_head by reflexivity.
    rewrite (strip_self (lit "todoist-id:")). bind_step.
    destruct (first_outside _ _ Hletter) as (ds & c & r & -> & Hds & Hc).
    assert (Hcalnum : is_alnum c = true).
    { rewrite forallb_app in Halnum. apply andb_true_iff in Halnum as [_ H].
      cbn [forallb] in H. apply andb_true_iff in H as [H _]. exact H. }
    assert (Hskip : skip is_space ((ds ++ c :: r) ++ lit " -->") = (ds ++ c :: r) ++ lit " -->").
    { destruct ds as [|d ds]; cbn [app]; apply skip_stop.
      - apply alnum_dark, Hcalnum.
      - cbn [forallb] in Hds. apply andb_true_iff in Hds as [Hd _].
        apply alnum_dark. unfold is_alnum. rewrite Hd. reflexivity. }
    rewrite Hskip. unfold some_class. rewrite <- app_assoc.
    rewrite (span_all is_digit ds) by exact Hds. cbn [app].
    rewrite (span_stop is_digit c) by exact Hc. cbn [fst snd]. rewrite app_nil_r.
    destruct ds as [|d ds]; [reflexivity|]. bind_step.
    rewrite skip_stop by (apply alnum_dark, Hcalnum).
    unfold strip. change (lit "-->") with (45 :: lit "->"). cbn [strip_with].
    rewrite (alnum_not_dash c Hcalnum). reflexivity. }
  change (lit "<!-- todoist-id:") with (60 :: lit "!-- todoist-id:") in *.
  cbn [app] in *. rewrite search_cons by exact Hhere.
  rewrite (search_none_chars match_todoistId (λ c, negb (60 =? c))); [reflexivity| | |].
  - intros c s Hc. apply todoistId_start, negb_true_iff, Hc.
  - reflexivity.
  - rewrite !forallb_app. apply andb_true_iff. split; [reflexivity|].
    apply andb_true_iff. split; [|reflexivity].
    apply forallb_forall. intros c Hc. rewrite forallb_forall in Halnum.
    apply alnum_not_lt, Halnum, Hc.
Qed.

(** X28: Linking a task to an id that has a letter in it does not hold: for a
    line that [parseTaskLine] accepts without an id, a marker that is empty
    or does not end with white space, and an id of ASCII letters and digits
    that is not all digits, the line that [addTodoistIdToLine] returns is
    accepted again, with the same completion, and still without an id. *)
Theorem addTodoistIdToLine_loses_an_id_with_letters
    line lineNo path syncTag mt task id :
  parseTaskLine line lineNo path syncTag mt = Some task →
  todoistId task = None →
  (syncTag = [] ∨ ends_dark syncTag) →
  forallb is_alnum id = true → forallb is_digit id = false →
  ∃ task',
    parseTaskLine (addTodoistIdToLine line id) lineNo path syncTag mt = Some task'
    ∧ todoistId task' = None
    ∧ isCompleted task' = isCompleted task.
Proof.
  intros Hparse Hnone Htag Halnum Hletter.
  unfold parseTaskLine in Hparse.
  destruct (match_task line) as [[[indent cb] content]|] eqn:Htask; [|discriminate].
  destruct (test (match_syncTag syncTag) content) eqn:Hmarked; [|discriminate].
  cbn [negb] in Hparse. injection Hparse as <-. cbn [todoistId isCompleted] in *.
  assert (Hsearch : search match_todoistId content = None).
  { unfold capture in Hnone.
    destruct (search match_todoistId content) as [[[pre a] post]|]; [discriminate|reflexivity]. }
  apply match_task_shape in Htask
    as (b & ws1 & ws2 & -> & Hind & Hb & Hne1 & Hc1 & Hbox & Hne2 & Hc2 & Hhead & Hlt).
  assert (Hbs : is_space b = false).
  { unfold is_bullet in Hb. apply orb_true_iff in Hb as [Hb|Hb];
      apply N.eqb_eq in Hb as ->; reflexivity. }
  set (K0 := lit "<!-- todoist-id:" ++ id ++ lit " -->").
  assert (HK0 : search match_todoistId K0 = None) by (apply textual_comment_unread; assumption).
  (* the first replacement finds nothing *)
  assert (Hkeep : replace_first match_todoistId []
                    (indent ++ b :: ws1 ++ 91 :: cb :: 93 :: ws2 ++ content)
                  = indent ++ b :: ws1 ++ 91 :: cb :: 93 :: ws2 ++ content).
  { unfold replace_first.
    replace (indent ++ b :: ws1 ++ 91 :: cb :: 93 :: ws2 ++ content)
      with ((indent ++ b :: ws1 ++ 91 :: cb :: 93 :: ws2) ++ content)
      by (rewrite <- !app_assoc; cbn; rewrite <- !app_assoc; reflexivity).
    rewrite (search_skip_chars match_todoistId (λ c, negb (60 =? c))).
    - rewrite Hsearch. reflexivity.
    - intros c s Hc. apply todoistId_start, negb_true_iff, Hc.
    - apply before_content_no_lt; assumption. }
  (* the trimmed line *)
  assert (Htrim : ∃ ws C,
            trim (indent ++ b :: ws1 ++ 91 :: cb :: 93 :: ws2 ++ content)
            = b :: ws1 ++ 91 :: cb :: 93 :: ws ++ C
            ∧ (ws ++ C ≠ [] → ws ≠ [] ∧ forallb is_space ws = true ∧ C ≠ [])
            ∧ (C = [] → content = [])
            ∧ match C with c :: _ => is_space c = false | [] => True end
            ∧ forallb (λ c, negb (is_line_terminator c)) C = true
            ∧ ∃ B, content = C ++ B ∧ forallb is_space B = true).
  { destruct content as [|c0 content'] eqn:Econtent.
    - exists [], []. rewrite !app_nil_r. split; [|repeat split; try tauto].
      + replace (indent ++ b :: ws1 ++ 91 :: cb :: 93 :: ws2)
          with (indent ++ (b :: ws1 ++ [91; cb; 93]) ++ ws2)
          by (cbn; rewrite <- !app_assoc; reflexivity).
        apply trim_core; [exact Hind|exact Hc2|]. right. split; [exact Hbs|].
        apply (ends_dark_app [b]), (ends_dark_app ws1). reflexivity.
      + exists []. split; reflexivity.
    - rewrite <- Econtent in *.
      destruct (trim_right content Hhead) as (B & HC & HB & Hne & Hdark & Hend);
        [rewrite Econtent; discriminate|].
      exists ws2, (trim content). split; [|repeat split; try assumption].
      + rewrite HC at 1.
        replace (indent ++ b :: ws1 ++ 91 :: cb :: 93 :: ws2 ++ trim content ++ B)
          with (indent ++ (b :: ws1 ++ 91 :: cb :: 93 :: ws2 ++ trim content) ++ B)
          by (cbn; rewrite <- !app_assoc; cbn; rewrite <- !app_assoc; reflexivity).
        apply trim_core; [exact Hind|exact HB|]. right. split; [exact Hbs|].
        apply (ends_dark_app [b]), (ends_dark_app ws1), (ends_dark_app [91; cb; 93]),
          (ends_dark_app ws2), Hend.
      + intros E. rewrite E in Hne. contradiction.
      + rewrite HC, forallb_app in Hlt. apply andb_true_iff in Hlt as [Hlt _]. exact Hlt.
      + exists B. split; assumption. }
  destruct Htrim as (ws & C & Htrim & Hws & Hempty & HCdark & HClt & B & HCB & HB).
  (* the new line and its content *)
  set (K := C ++ (if nonempty C then [32] else []) ++ K0).
  set (ws' := if nonempty C then ws else [32]).
  assert (Hnew : addTodoistIdToLine (indent ++ b :: ws1 ++ 91 :: cb :: 93 :: ws2 ++ content) id
                 = [] ++ b :: ws1 ++ 91 :: cb :: 93 :: ws' ++ K).
  { unfold addTodoistIdToLine. rewrite Hkeep, Htrim. unfold K, ws', K0.
    change (lit " <!-- todoist-id:") with (32 :: lit "<!-- todoist-id:").
    destruct C as [|c0 C'].
    - assert (Hws0 : ws = []).
      { destruct ws as [|x ws0]; [reflexivity|].
        destruct Hws as (_ & _ & Hcontra); [discriminate|congruence]. }
      subst ws. cbn. rewrite <- !app_assoc. reflexivity.
    - cbn [nonempty app]. rewrite <- !app_assoc. cbn. rewrite <- !app_assoc. reflexivity. }
  assert (Hws' : ws' ≠ [] ∧ forallb is_space ws' = true).
  { unfold ws'. destruct C as [|c0 C']; cbn [nonempty]; [split; [discriminate|reflexivity]|].
    destruct Hws as (H1 & H2 & _); [destruct ws; discriminate|]. split; assumption. }
  assert (HKhead : (span is_space K).1 = []).
  { apply dark_head_span. unfold K. destruct C as [|c0 C']; [reflexivity|exact HCdark]. }
  assert (HKlt : forallb (λ c, negb (is_line_terminator c)) K = true).
  { unfold K. rewrite !forallb_app, HClt. unfold K0.
    rewrite !forallb_app.
    replace (forallb (λ c, negb (is_line_terminator c)) id) with true
      by (symmetry; apply forallb_forall; intros c Hc; rewrite forallb_forall in Halnum;
          apply alnum_one_line, Halnum, Hc).
    destruct (nonempty C); reflexivity. }
  assert (Htask' : match_task ([] ++ b :: ws1 ++ 91 :: cb :: 93 :: ws' ++ K)
                   = Some ([], cb, K)).
  { apply match_task_shape. exists b, ws1, ws'. destruct Hws' as [Hw1 Hw2].
    repeat split; assumption. }
  assert (Hcapture : capture match_todoistId K = None).
  { unfold capture, K. destruct C as [|c0 C'] eqn:EC.
    - cbn [nonempty app]. rewrite HK0. reflexivity.
    - rewrite <- EC in *. replace (nonempty C) with true by (rewrite EC; reflexivity).
      rewrite app_assoc.
      rewrite (search_skip match_todoistId (C ++ [32]) K0).
      + rewrite HK0. reflexivity.
      + intros X1 X2 Hsplit Hne.
        destruct (suffix_of_snoc X1 X2 C 32 (eq_sym Hsplit) Hne) as (t & -> & HCt).
        rewrite <- app_assoc. cbn [app].
        destruct t as [|x t]; [apply todoistId_start; reflexivity|].
        destruct (match_todoistId ((x :: t) ++ 32 :: K0)) as [[ds r]|] eqn:Em; [|reflexivity].
        exfalso. unfold K0 in Em.
        change (lit "<!-- todoist-id:") with (60 :: lit "!-- todoist-id:") in Em.
        cbn [app] in Em.
        destruct (todoistId_no_straddle (x :: t) _ ds r ltac:(discriminate) Em)
          as (k & _ & Hmatch).
        specialize (Hmatch B).
        assert (Hnone' : match_todoistId ((x :: t) ++ B) = None).
        { apply (search_none_suffix match_todoistId X1). rewrite app_assoc, <- HCt, <- HCB.
          exact Hsearch. }
        congruence. }
  assert (Hmarked' : test (match_syncTag syncTag) K = true).
  { unfold K. apply (marker_survives_trim syncTag C B); [exact Htag|exact HB|].
    rewrite <- HCB. exact Hmarked. }
  rewrite Hnew. unfold parseTaskLine. rewrite Htask', Hmarked'. cbn [negb].
  eexists. split; [reflexivity|]. cbn [todoistId isCompleted].
  split; [exact Hcapture|reflexivity].
Qed.

(** * The further properties at concrete inputs *)

(** C6 on task 7, gone from the gateway, in a vault that can be written. *)
Lemma remote_deletion_witness :
  map_get (lit "7") ([] : list (list N * Task)) = None
  ∧ run mock (syncOne [] (lit "7", rentTask) emptyResult) engine7 tickable
    = (add_completed emptyResult, set_tasks (delete (lit "7")) engine7, ticked)
  ∧ split_lines line7 !! lineNumber rentTask = Some (originalLine rentTask)
  ∧ match_task (originalLine rentTask)
    = Some ([], 32, lit "Pay rent #todoist <!-- todoist-id:7 -->")
  ∧ split_lines (tickedText rentTask line7)
    = <[lineNumber rentTask := updateTaskCompletion (originalLine rentTask) true]>
        (split_lines line7)
  ∧ ∃ cb' content',
      match_task (updateTaskCompletion (originalLine rentTask) true)
      = Some ([], cb', content')
      ∧ (lower cb' =? 120) = true
      ∧ ((lower 32 =? 120) = false
         → content' = lit "Pay rent #todoist <!-- todoist-id:7 -->").
Proof.
  assert (Hgone : map_get (lit "7") ([] : list (list N * Task)) = None) by reflexivity.
  assert (Hline : split_lines line7 !! lineNumber rentTask = Some (originalLine rentTask))
    by (vm_compute; reflexivity).
  assert (Htask : match_task (originalLine rentTask)
                  = Some ([], 32, lit "Pay rent #todoist <!-- todoist-id:7 -->"))
    by (vm_compute; reflexivity).
  destruct (remote_deletion_ticks_local_line mock [] (lit "7") rentTask emptyResult
              engine7 tickable Hgone) as (Hticks & _ & Hwritten).
  split; [exact Hgone|].
  split; [apply (Hticks engine7 ticked); vm_compute; reflexivity|].
  split; [exact Hline|]. split; [exact Htask|].
  exact (Hwritten line7 [] 32 (lit "Pay rent #todoist <!-- todoist-id:7 -->") Hline Htask).
Defined.

(** X2 on a marker in mixed case and a text with the marker and two other
    hashtags. *)
Lemma extractLabels_are_lower_case_names_witness :
  is_ascii (lit "#Todoist") = true
  ∧ extractLabels (lit "Pay #Rent #todoist #HOME-2") (lit "#Todoist")
    = [lit "rent"; lit "home-2"]
  ∧ forallb (wf_label (lit "#Todoist"))
            (extractLabels (lit "Pay #Rent #todoist #HOME-2") (lit "#Todoist")) = true.
Proof.
  assert (Hascii : is_ascii (lit "#Todoist") = true) by (vm_compute; reflexivity).
  split; [exact Hascii|]. split; [vm_compute; reflexivity|].
  apply (extractLabels_are_lower_case_names (lit "Pay #Rent #todoist #HOME-2")
           (lit "#Todoist") Hascii).
Defined.

(** X3 on ticking an indented open task. *)
Lemma updateTaskCompletion_flips_checkbox_witness :
  match_task indentedLine = Some (lit "  ", 32, lit "Pay rent #todoist")
  ∧ match_task (updateTaskCompletion indentedLine true)
    = Some (lit "  ", 120, lit "Pay rent #todoist").
Proof.
  assert (Htask : match_task indentedLine = Some (lit "  ", 32, lit "Pay rent #todoist"))
    by (vm_compute; reflexivity).
  split; [exact Htask|].
  apply (updateTaskCompletion_flips_checkbox indentedLine (lit "  ") 32
           (lit "Pay rent #todoist") true Htask eq_refl).
Defined.

(** X5 on a description of two lines with a blank line between them. *)
Lemma extractDescription_takes_deeper_lines_witness :
  extractDescription (split_lines describedText) 0 ≠ []
  ∧ lit "to the landlord" ∈ split_lines (extractDescription (split_lines describedText) 0)
  ∧ ∃ j line,
      (0 < j)%nat ∧ split_lines describedText !! j = Some line
      ∧ lit "to the landlord" = trim line ∧ lit "to the landlord" ≠ []
      ∧ (indent_of (default [] (split_lines describedText !! 0%nat)) < indent_of line)%nat
      ∧ match_task line = None
      ∧ ∀ k l, (0 < k < j)%nat → split_lines describedText !! k = Some l →
          match_task l = None
          ∧ (trim l = []
             ∨ (indent_of (default [] (split_lines describedText !! 0%nat)) < indent_of l)%nat).
Proof.
  assert (Hne : extractDescription (split_lines describedText) 0 ≠ [])
    by (vm_compute; discriminate).
  assert (Hin : lit "to the landlord"
                ∈ split_lines (extractDescription (split_lines describedText) 0)).
  { vm_compute. apply list_elem_of_further, list_elem_of_here. }
  split; [exact Hne|]. split; [exact Hin|].
  apply (extractDescription_takes_deeper_lines describedText 0 (lit "to the landlord")
           Hne Hin).
Defined.

(** X11 on the line of task 7 in the in-memory vault. *)
Lemma updateObsidianTaskLine_rewrites_one_line_witness :
  split_lines line7 !! lineNumber stepTask = Some line7
  ∧ ∃ data,
      run mock (updateObsidianTaskLine stepTask (λ line, updateTaskCompletion line true))
          engine7 tickable
      = ((answer mock (vault_modify notes data) tickable).1, engine7,
         (answer mock (vault_modify notes data) tickable).2)
      ∧ split_lines data
        = <[lineNumber stepTask := updateTaskCompletion line7 true]> (split_lines line7).
Proof.
  assert (Hline : split_lines line7 !! lineNumber stepTask = Some line7)
    by (vm_compute; reflexivity).
  split; [exact Hline|].
  apply (updateObsidianTaskLine_rewrites_one_line mock stepTask
           (λ line, updateTaskCompletion line true) engine7 tickable notes tickable line7
           tickable line7); [vm_compute; reflexivity|vm_compute; reflexivity|exact Hline
           |vm_compute; reflexivity].
Defined.

Lemma locking_reads_change_nothing file w : (answer locking (vault_read file) w).2 = w.
Proof.
  change (answer locking (vault_read file) w)
    with (if bool_decide (path file = path locked)
          then (Thrown (lit "Error: EACCES"), w)
          else mock_answer _ (vault_read file) w).
  destruct (bool_decide (path file = path locked)); [reflexivity|].
  change (mock_answer _ (vault_read file) w)
    with (match file_text (path file) w with
          | Some text => (Returned text, w)
          | None => (Thrown (lit "Error: ENOENT"), w)
          end).
  destruct (file_text (path file) w); reflexivity.
Qed.

(** X13 on a vault whose first file cannot be read. *)
Lemma getAllObsidianTasks_skips_unreadable_files_witness :
  answer locking getMarkdownFiles lockedVault = (Returned [locked; notes], lockedVault)
  ∧ answer locking (vault_read locked) lockedVault = (Thrown (lit "Error: EACCES"), lockedVault)
  ∧ run locking getAllObsidianTasks engine7 lockedVault
    = (Returned [stepTask], engine7, lockedVault).
Proof.
  assert (Hfiles : answer locking getMarkdownFiles lockedVault
                   = (Returned [locked; notes], lockedVault)) by (vm_compute; reflexivity).
  split; [exact Hfiles|]. split; [vm_compute; reflexivity|].
  exact (proj2 (getAllObsidianTasks_skips_unreadable_files locking [locked; notes] engine7
                  lockedVault lockedVault Hfiles) locking_reads_change_nothing).
Defined.

(** X16 on a pass over the line of task 7, which the gateway lists. *)
Lemma performSync_reports_at_most_one_outcome_per_task_witness :
  run mock getAllObsidianTasks (set_isSyncing true engine7) listed7
    = (Returned [stepTask], set_isSyncing true engine7, listed7)
  ∧ (outcomes (run mock performSync engine7 listed7).1.1 ≤ length [stepTask])%nat
  ∧ (created (run mock performSync engine7 listed7).1.1
     ≤ length (filter (λ t, truthy (todoistId t) = false) [stepTask]))%nat.
Proof.
  assert (Hscan : run mock getAllObsidianTasks (set_isSyncing true engine7) listed7
                  = (Returned [stepTask], set_isSyncing true engine7, listed7))
    by (vm_compute; reflexivity).
  split; [exact Hscan|].
  apply (performSync_reports_at_most_one_outcome_per_task mock engine7 listed7 listed7
           listed7 [task7] [stepTask] (set_isSyncing true engine7) listed7);
    [reflexivity|vm_compute; reflexivity|vm_compute; reflexivity|exact Hscan].
Defined.

(** X18 on task 7 ticked locally, its text edited as well. *)
Lemma local_completion_closes_remote_task_witness :
  content doneTask ≠ task_content task7
  ∧ run mock (syncExistingTask doneTask task7) engine7 listed7
    = (Returned outcome_completed,
       set_tasks <[task_id task7 :=
                     linkedRecord (task_id task7) doneTask true
                       (answer mock Date_now (with_remote [] listed7)).1]> engine7,
       (answer mock Date_now (with_remote [] listed7)).2).
Proof.
  split; [vm_compute; discriminate|].
  apply (local_completion_closes_remote_task mock doneTask task7 engine7 listed7
           (Returned true) (with_remote [] listed7));
    [reflexivity|reflexivity|vm_compute; reflexivity].
Defined.

(** X19 on task 7 closed remotely, under the policy that asks the user. *)
Lemma remote_completion_counts_conflict_without_queueing_witness :
  conflictResolution (settings askingEngine) = ask_user
  ∧ split_lines line7 !! lineNumber stepTask = Some (originalLine stepTask)
  ∧ match_task (originalLine stepTask)
    = Some ([], 32, lit "Pay rent #todoist <!-- todoist-id:7 -->")
  ∧ split_lines (tickedText stepTask line7)
    = <[lineNumber stepTask := updateTaskCompletion (originalLine stepTask) true]>
        (split_lines line7)
  ∧ match_task (updateTaskCompletion (originalLine stepTask) true)
    = Some ([], 120, lit "Pay rent #todoist <!-- todoist-id:7 -->")
  ∧ run mock (syncOne [(lit "7", closedTask7)] (lit "7", stepTask) emptyResult)
        askingEngine tickable
    = (add_conflict emptyResult,
       set_tasks <[task_id closedTask7 :=
                     linkedRecord (task_id closedTask7) stepTask true
                       (answer mock Date_now ticked).1]> askingEngine,
       (answer mock Date_now ticked).2)
  ∧ pendingConflicts
      (set_tasks <[task_id closedTask7 :=
                     linkedRecord (task_id closedTask7) stepTask true
                       (answer mock Date_now ticked).1]> askingEngine)
    = pendingConflicts askingEngine.
Proof.
  assert (Hline : split_lines line7 !! lineNumber stepTask = Some (originalLine stepTask))
    by (vm_compute; reflexivity).
  assert (Htask : match_task (originalLine stepTask)
                  = Some ([], 32, lit "Pay rent #todoist <!-- todoist-id:7 -->"))
    by (vm_compute; reflexivity).
  split; [reflexivity|]. split; [exact Hline|]. split; [exact Htask|].
  destruct (remote_completion_counts_conflict_without_queueing mock
              [(lit "7", closedTask7)] (lit "7") stepTask closedTask7 emptyResult
              askingEngine tickable notes tickable line7 tickable []
              (lit "Pay rent #todoist <!-- todoist-id:7 -->") (Returned ()) ticked)
    as (Hlines & Hticked & Hrun & _ & Hqueue);
    [reflexivity|reflexivity|reflexivity|reflexivity|vm_compute; reflexivity
    |vm_compute; reflexivity|exact Hline|exact Htask|vm_compute; reflexivity|].
  split; [exact Hlines|]. split; [exact Hticked|]. split; [exact Hrun|exact Hqueue].
Defined.

(** X20 on a gateway without a token. *)
Lemma performSync_without_gateway_resolves_at_once_witness :
  isSyncing engine7 = false
  ∧ advance mock performSync engine7 unconfigured
    = (Resolved notConfiguredResult, engine7, unconfigured).
Proof.
  split; [reflexivity|].
  apply (performSync_without_gateway_resolves_at_once mock engine7 unconfigured unconfigured);
    reflexivity.
Defined.

(** X7 on an indented task that gets the id 555. *)
Lemma addTodoistIdToLine_links_the_line_witness :
  parseTaskLine indentedLine 0 (lit "notes.md") (lit "#todoist") 7 = Some indentedTask
  ∧ indent_of indentedLine = 2%nat
  ∧ ∃ task',
      parseTaskLine (addTodoistIdToLine indentedLine (lit "555")) 0 (lit "notes.md")
                    (lit "#todoist") 7 = Some task'
      ∧ todoistId task' = Some (lit "555")
      ∧ isCompleted task' = isCompleted indentedTask
      ∧ indent_of (addTodoistIdToLine indentedLine (lit "555")) = 0%nat.
Proof.
  assert (Hparse : parseTaskLine indentedLine 0 (lit "notes.md") (lit "#todoist") 7
                   = Some indentedTask) by (vm_compute; reflexivity).
  split; [exact Hparse|]. split; [vm_compute; reflexivity|].
  apply (addTodoistIdToLine_links_the_line indentedLine 0 (lit "notes.md") (lit "#todoist")
           7 indentedTask (lit "555") Hparse eq_refl);
    [right; vm_compute; reflexivity|discriminate|vm_compute; reflexivity].
Defined.

(** X8 on a task with every field set. *)
Lemma buildTaskLine_is_a_task_line_witness :
  forallb (λ c, negb (is_line_terminator c)) (buildTaskLine errandTask (lit "#todoist")) = true
  ∧ ∃ parsed,
      parseTaskLine (buildTaskLine errandTask (lit "#todoist")) 0 (lit "notes.md")
                    (lit "#todoist") 7 = Some parsed
      ∧ isCompleted parsed = isCompleted errandTask
      ∧ originalLine parsed = buildTaskLine errandTask (lit "#todoist").
Proof.
  assert (Hline : forallb (λ c, negb (is_line_terminator c))
                    (buildTaskLine errandTask (lit "#todoist")) = true)
    by (vm_compute; reflexivity).
  split; [exact Hline|].
  apply (buildTaskLine_is_a_task_line errandTask (lit "#todoist") 0 (lit "notes.md") 7);
    [vm_compute; reflexivity|exact Hline].
Defined.

(** X21 on task 7 with both sides in step. *)
Lemma task_in_step_is_left_alone_witness :
  map_get (lit "7") [(lit "7", task7)] = Some task7
  ∧ run mock (syncOne [(lit "7", task7)] (lit "7", stepTask) emptyResult) engine7 listed7
    = (emptyResult,
       set_tasks <[task_id task7 :=
                     linkedRecord (task_id task7) stepTask (isCompleted stepTask)
                       (answer mock Date_now listed7).1]> engine7,
       (answer mock Date_now listed7).2).
Proof.
  assert (Hget : map_get (lit "7") [(lit "7", task7)] = Some task7) by reflexivity.
  split; [exact Hget|].
  apply (task_in_step_is_left_alone mock [(lit "7", task7)] (lit "7") stepTask task7
           emptyResult engine7 listed7 Hget); reflexivity.
Defined.

(** X24 on the system while a first invocation waits for the list of remote tasks. *)
Lemma at_most_one_pass_in_flight_witness :
  reachable mock firstWaiting
  ∧ (length (inflight firstWaiting) ≤ 1)%nat
  ∧ (isSyncing (engine firstWaiting) = true ↔ inflight firstWaiting ≠ []).
Proof.
  split; [exact firstWaiting_reachable|].
  apply (at_most_one_pass_in_flight mock firstWaiting firstWaiting_reachable).
Defined.

(** X25 on ticking an indented open task, read again. *)
Lemma updateTaskCompletion_changes_only_completion_witness :
  parseTaskLine indentedLine 0 (lit "notes.md") (lit "#todoist") 7 = Some indentedTask
  ∧ parseTaskLine (updateTaskCompletion indentedLine true) 0 (lit "notes.md")
                  (lit "#todoist") 7
    = Some {| originalLine := updateTaskCompletion indentedLine true;
              lineNumber := lineNumber indentedTask; filePath := filePath indentedTask;
              content := content indentedTask; isCompleted := true;
              todoistId := todoistId indentedTask; dueDate := dueDate indentedTask;
              priority := priority indentedTask; labels := labels indentedTask;
              description := description indentedTask;
              lastModified := lastModified indentedTask |}.
Proof.
  assert (Hparse : parseTaskLine indentedLine 0 (lit "notes.md") (lit "#todoist") 7
                   = Some indentedTask) by (vm_compute; reflexivity).
  split; [exact Hparse|].
  apply (updateTaskCompletion_changes_only_completion indentedLine 0 (lit "notes.md")
           (lit "#todoist") 7 indentedTask true Hparse eq_refl).
Defined.

(** X26 on a new task alone in the note that gets the id 555. *)
Lemma created_task_is_linked_in_the_file_witness :
  split_lines unlinkedLine !! lineNumber unlinkedTask = Some (originalLine unlinkedTask)
  ∧ ∃ data,
      run mock (updateObsidianTaskLine unlinkedTask
                  (λ line, addTodoistIdToLine line (lit "555"))) freshEngine unlinked
      = ((answer mock (vault_modify notes data) unlinked).1, freshEngine,
         (answer mock (vault_modify notes data) unlinked).2)
      ∧ split_lines data
        = <[lineNumber unlinkedTask := addTodoistIdToLine (originalLine unlinkedTask)
                                         (lit "555")]> (split_lines unlinkedLine)
      ∧ ∃ linked,
          linked ∈ parseTasksFromContent data (filePath unlinkedTask) (lit "#todoist") 8
          ∧ lineNumber linked = lineNumber unlinkedTask
          ∧ todoistId linked = Some (lit "555")
          ∧ isCompleted linked = isCompleted unlinkedTask.
Proof.
  assert (Hline : split_lines unlinkedLine !! lineNumber unlinkedTask
                  = Some (originalLine unlinkedTask)) by (vm_compute; reflexivity).
  split; [exact Hline|].
  apply (created_task_is_linked_in_the_file mock unlinkedTask (lit "#todoist") 7 8
           (lit "555") freshEngine unlinked notes unlinked unlinkedLine unlinked);
    [vm_compute; reflexivity|reflexivity|right; vm_compute; reflexivity|discriminate
    |vm_compute; reflexivity|vm_compute; reflexivity|vm_compute; reflexivity|exact Hline].
Defined.

(** X28 on a new task and the id 6X7rM8; in the in-memory vault, two passes
    in a row then create the task twice. *)
Lemma addTodoistIdToLine_loses_an_id_with_letters_witness :
  parseTaskLine unlinkedLine 0 (lit "notes.md") (lit "#todoist") 7 = Some unlinkedTask
  ∧ (∃ task',
       parseTaskLine (addTodoistIdToLine unlinkedLine (lit "6X7rM8")) 0 (lit "notes.md")
                     (lit "#todoist") 7 = Some task'
       ∧ todoistId task' = None
       ∧ isCompleted task' = isCompleted unlinkedTask)
  ∧ (let '(first, e1, w1) := run mock performSync freshEngine lettered in
     let '(second, e2, w2) := run mock performSync e1 w1 in
     created first = 1%nat ∧ errors first = []
     ∧ created second = 1%nat ∧ errors second = []
     ∧ (task_content <$> remote w2)
       = [lit "Pay rent"; lit "Pay rent <!-- todoist-id:6X7rM8 -->"]
     ∧ file_text (lit "notes.md") w2
       = Some (lit "- [ ] Pay rent #todoist <!-- todoist-id:6X7rM8 --> <!-- todoist-id:6X7rM8 -->")).
Proof.
  assert (Hparse : parseTaskLine unlinkedLine 0 (lit "notes.md") (lit "#todoist") 7
                   = Some unlinkedTask) by (vm_compute; reflexivity).
  split; [exact Hparse|]. split; [|vm_compute; repeat split].
  apply (addTodoistIdToLine_loses_an_id_with_letters unlinkedLine 0 (lit "notes.md")
           (lit "#todoist") 7 unlinkedTask (lit "6X7rM8") Hparse eq_refl);
    [right; vm_compute; reflexivity|vm_compute; reflexivity|vm_compute; reflexivity].
Defined.
